(** * Crawl orchestration core of the bonappetit crawler dashboard (src/app.py)

    A shallow embedding of the functions of [src/app.py] that plan and run the
    crawl: [fetch_url] with its retry decorator, the [cache] decorator,
    [get_content_urls], [extract_all_recipes], [get_robots_summary], the
    crawlability score, and the part of Python's [urllib.robotparser] that
    [rp.read()] and [rp.can_fetch] run.

    Python integers are [Z]; a finite Python float is the rational it
    denotes, with the rounding of IEEE 754 binary64 written out; Python
    strings are [string], read as ASCII text;
    lists are [list]; a [dict] is an association list in insertion order;
    effects (HTTP requests, sleeps, exceptions) are threaded through a
    state-and-exception monad over an explicit [World]. *)

From Stdlib Require Import ZArith List String Ascii Bool Lia Sorted QArith Lqa.
From Stdlib Require Import DecimalString DecimalZ DecimalPos Permutation.
Import ListNotations.

Local Open Scope string_scope.
Local Open Scope list_scope.
Local Open Scope Z_scope.

Set Implicit Arguments.

(* ================================================================== *)
(** * Python built-ins used by the program *)

Module Py.

(** [range(a, b)] on integers: [a, a+1, ..., b-1], empty when [b <= a]. *)
Definition range (a b : Z) : list Z :=
  map (fun i => a + Z.of_nat i) (seq 0 (Z.to_nat (b - a))).

(** [str(n)] / [f"{n}"] for an integer. *)
Definition str_of_int (n : Z) : string :=
  NilZero.string_of_int (Z.to_int n).

(** [s.startswith(p)]. *)
Definition startswith (p s : string) : bool := String.prefix p s.

(** [sub in s] for strings. *)
Fixpoint contains (sub s : string) : bool :=
  String.prefix sub s ||
  match s with
  | EmptyString => false
  | String _ s' => contains sub s'
  end.

(** [c in s] for a single character [c]. *)
Fixpoint has_char (c : ascii) (s : string) : bool :=
  match s with
  | EmptyString => false
  | String c' s' => Ascii.eqb c' c || has_char c s'
  end.

(** ASCII case folding of [str.lower]. *)
Definition lower_char (c : ascii) : ascii :=
  let n := nat_of_ascii c in
  if (Nat.leb 65 n && Nat.leb n 90)%bool then ascii_of_nat (n + 32) else c.

Fixpoint lower (s : string) : string :=
  match s with
  | EmptyString => EmptyString
  | String c s' => String (lower_char c) (lower s')
  end.

(** The ASCII characters [str.strip()] removes: TAB, LF, VT, FF, CR, the
    separators 0x1c-0x1f and space. *)
Definition is_space (c : ascii) : bool :=
  let n := nat_of_ascii c in
  (Nat.leb 9 n && Nat.leb n 13) || (Nat.leb 28 n && Nat.leb n 32).

Fixpoint lstrip (s : string) : string :=
  match s with
  | EmptyString => EmptyString
  | String c s' => if is_space c then lstrip s' else s
  end.

Fixpoint rstrip (s : string) : string :=
  match s with
  | EmptyString => EmptyString
  | String c s' =>
      match rstrip s' with
      | EmptyString => if is_space c then EmptyString else String c EmptyString
      | r => String c r
      end
  end.

Definition strip (s : string) : string := rstrip (lstrip s).

(** [s.split(sep, 1)] for a one-character separator: [None] stands for the
    one-element list [[s]] (no separator found), [Some (a, b)] for [[a, b]]. *)
Fixpoint split1 (sep : ascii) (s : string) : option (string * string) :=
  match s with
  | EmptyString => None
  | String c s' =>
      if Ascii.eqb c sep then Some (EmptyString, s')
      else match split1 sep s' with
           | Some (a, b) => Some (String c a, b)
           | None => None
           end
  end.

(** [s[:i]] where [i = s.find(c)], or [s] itself when [c] does not occur. *)
Definition before (sep : ascii) (s : string) : string :=
  match split1 sep s with
  | Some (a, _) => a
  | None => s
  end.

(** [s.splitlines()] on ASCII text: lines end at LF, CR, CRLF, VT, FF, 0x1c,
    0x1d or 0x1e; the terminators are dropped and a final terminator opens no
    empty line. *)
Definition is_linebreak (c : ascii) : bool :=
  let n := nat_of_ascii c in
  (Nat.leb 10 n && Nat.leb n 13) || (Nat.leb 28 n && Nat.leb n 30).

Fixpoint splitlines_aux (cur : string) (s : string) : list string :=
  match s with
  | EmptyString =>
      match cur with EmptyString => [] | _ => [cur] end
  | String c s' =>
      if is_linebreak c then
        match c, s' with
        | "013"%char, String "010"%char s'' => cur :: splitlines_aux EmptyString s''
        | _, _ => cur :: splitlines_aux EmptyString s'
        end
      else splitlines_aux (cur ++ String c EmptyString)%string s'
  end.

Definition splitlines (s : string) : list string := splitlines_aux EmptyString s.

End Py.

(* ================================================================== *)
(** * Date buckets and the loop structure of [get_content_urls] *)

(** One (year, month, week) unit, as the three loop variables. *)
Definition bucket : Type := (Z * Z * Z)%type.

(** Chronological (lexicographic) order on buckets. *)
Definition bucket_lt (a b : bucket) : Prop :=
  let '(y1, m1, w1) := a in
  let '(y2, m2, w2) := b in
  y1 < y2 \/ (y1 = y2 /\ (m1 < m2 \/ (m1 = m2 /\ w1 < w2))).

Definition bucket_le (a b : bucket) : Prop :=
  let '(y1, m1, w1) := a in
  let '(y2, m2, w2) := b in
  y1 < y2 \/ (y1 = y2 /\ (m1 < m2 \/ (m1 = m2 /\ w1 <= w2))).

(** [for x in xs: if stop(x): break; yield x]. *)
Fixpoint until_break {X} (stop : X -> bool) (xs : list X) : list X :=
  match xs with
  | [] => []
  | x :: xs' => if stop x then [] else x :: until_break stop xs'
  end.

(** The condition of the [break] on line 88. *)
Definition past_end (end_year end_month end_week year month week : Z) : bool :=
  (year =? end_year) && (month =? end_month) && (week >? end_week).

(** The (year, month, week) triples for which the body of the innermost loop
    of [get_content_urls] runs, in the order in which it runs. *)
Definition buckets (start_year start_month start_week
                    end_year end_month end_week : Z) : list bucket :=
  flat_map (fun year =>
    let m_start := if year =? start_year then start_month else 1 in
    let m_end := if year =? end_year then end_month else 12 in
    flat_map (fun month =>
      map (fun week => (year, month, week))
          (until_break (past_end end_year end_month end_week year month)
                       (Py.range 1 5)))
      (Py.range m_start (m_end + 1)))
    (Py.range start_year (end_year + 1)).

(** The sitemap query URL built on line 89. *)
Definition bucket_url (b : bucket) : string :=
  let '(year, month, week) := b in
  ("https://www.bonappetit.com/sitemap.xml?year=" ++ Py.str_of_int year
    ++ "&month=" ++ Py.str_of_int month
    ++ "&week=" ++ Py.str_of_int week)%string.

(* ================================================================== *)
(** * Effects: exceptions, the network and the event log *)

(** The exception classes the program can meet. *)
Inductive exn : Type :=
| RequestException   (** [requests.exceptions.RequestException] and its
                         subclasses (ConnectionError, Timeout, HTTPError) *)
| RetryError         (** [tenacity.RetryError] *)
| HTTPError (code : Z) (** [urllib.error.HTTPError] *)
| URLError           (** [urllib.error.URLError] *)
| TypeError
| ValueError
| ZeroDivisionError
| OverflowError
| ParseError         (** a markup parser rejected its input *)
| OtherError         (** any other exception *)
| OutOfFuel.         (** never raised by Python: the recursion bound of
                         [retrying] ran out (shown not to happen) *)

Inductive res (A : Type) : Type :=
| Val (a : A)
| Exc (e : exn).
Arguments Val {A} a.
Arguments Exc {A} e.

(** What the network does with one request. A redirect chain counts as the
    response that ends it. *)
Inductive http_outcome : Type :=
| NoResponse                         (** connection error or timeout *)
| Response (status : Z) (body : string)
| ClientCrash.                       (** the HTTP client raised an exception
                                         outside its own hierarchy *)

Inductive event : Type :=
| EGet (url : string)       (** [requests.get(url, ...)] *)
| EUrlopen (url : string)   (** [urllib.request.urlopen(url)] *)
| ESleep (seconds : Z).     (** the sleep between two attempts *)

(** The world outside the process: how the network answers a request, given
    everything that happened so far, and the events so far (oldest first). *)
Record World : Type := mkWorld {
  net : list event -> string -> http_outcome;
  log : list event
}.

Definition record (e : event) (w : World) : World :=
  {| net := net w; log := log w ++ [e] |}.

(** Computations that may raise and that act on the world. *)
Definition M (A : Type) : Type := World -> res A * World.

Definition ret {A} (a : A) : M A := fun w => (Val a, w).

Definition raise {A} (e : exn) : M A := fun w => (Exc e, w).

Definition bind {A B} (m : M A) (k : A -> M B) : M B :=
  fun w =>
    match m w with
    | (Val a, w') => k a w'
    | (Exc e, w') => (Exc e, w')
    end.

(** A pure call that may raise. *)
Definition lift {A} (r : res A) : M A := fun w => (r, w).

(** [try: m  except: handler] with a bare [except]. *)
Definition try_except {A} (m : M A) (handler : M A) : M A :=
  fun w =>
    match m w with
    | (Val a, w') => (Val a, w')
    | (Exc _, w') => handler w'
    end.

Declare Scope py_scope.
Delimit Scope py_scope with py.
Notation "x <- m ;; k" := (bind m (fun x => k))
  (at level 100, m at next level, right associativity) : py_scope.
Notation "m ;;; k" := (bind m (fun _ => k))
  (at level 100, right associativity) : py_scope.
Local Open Scope py_scope.

(** How an iteration of a loop body ends: fall through to the next item, or
    [break]. *)
Inductive flow (S : Type) : Type :=
| Next (s : S)
| Break (s : S).
Arguments Next {S} s.
Arguments Break {S} s.

(** [for x in xs: body], threading the local variables [s]. *)
Fixpoint for_each {X S} (xs : list X) (body : X -> S -> M (flow S)) (s : S)
  : M S :=
  match xs with
  | [] => ret s
  | x :: xs' =>
      f <- body x s ;;
      match f with
      | Next s' => for_each xs' body s'
      | Break s' => ret s'
      end
  end.

(** [sum(l)] for a list of integers. *)
Definition Zsum (l : list Z) : Z := fold_right Z.add 0 l.

(** [len(l)]. *)
Definition len {A} (l : list A) : Z := Z.of_nat (List.length l).

(* ================================================================== *)
(** * Python floats (IEEE 754 binary64) *)

(** A float that is a number: a finite double, kept as the rational it
    denotes (the sign of a zero is not kept), or an infinity. *)
Inductive pyfloat : Type :=
| Finite (x : Q)
| Infinity (negative : bool).

(** A Python number: an [int] or a [float]. *)
Inductive number : Type :=
| Int (n : Z)
| Float (x : pyfloat).

(** [n / d] rounded to the nearest integer, ties to the even one; [d > 0]. *)
Definition round_half_even (n d : Z) : Z :=
  let q := n / d in
  match 2 * (n mod d) ?= d with
  | Lt => q
  | Gt => q + 1
  | Eq => if Z.even q then q else q + 1
  end.

(** The integer part of the binary logarithm of [n / d], for [n, d > 0]. *)
Definition ilog2 (n d : Z) : Z :=
  let k := Z.log2 n - Z.log2 d in
  if (if 0 <=? k then d * 2 ^ k <=? n else d <=? n * 2 ^ (- k))
  then k else k - 1.

(** The double nearest to [x], ties to even: 53 significant bits, the last
    of them not below 2^-1074, and an infinity from 2^1024 on. *)
Definition round64 (x : Q) : pyfloat :=
  let n := Z.abs (Qnum x) in
  let d := Zpos (Qden x) in
  let negative := Qnum x <? 0 in
  let sign := if negative then -1 else 1 in
  if n =? 0 then Finite 0
  else
    let e := Z.max (ilog2 n d - 52) (-1074) in
    if 0 <=? e then
      let m := round_half_even n (d * 2 ^ e) in
      if 2 ^ 1024 <=? m * 2 ^ e then Infinity negative
      else Finite (inject_Z (sign * (m * 2 ^ e)))
    else
      let m := round_half_even (n * 2 ^ (- e)) d in
      Finite ((sign * m) # Z.to_pos (2 ^ (- e))).

(** [a / b] for two [int]s: the quotient, correctly rounded. *)
Definition true_divide (a b : Z) : res Q :=
  if b =? 0 then Exc ZeroDivisionError
  else
    match round64 (inject_Z a / inject_Z b) with
    | Finite x => Val x
    | Infinity _ => Exc OverflowError
    end.

(** [x * y] for two finite floats. *)
Definition float_mul (x y : Q) : pyfloat := round64 (x * y).

(* ================================================================== *)
(** * [fetch_url] and its retry decorator (lines 22-31) *)

Record response : Type := mkResponse {
  status_code : Z;
  content : string
}.

(** [requests.get(url, headers=headers, timeout=10)]. *)
Definition requests_get (url : string) : M response :=
  fun w =>
    let w' := record (EGet url) w in
    match net w (log w) url with
    | NoResponse => (Exc RequestException, w')
    | ClientCrash => (Exc OtherError, w')
    | Response status body => (Val (mkResponse status body), w')
    end.

(** [resp.raise_for_status()]: HTTPError for a 4xx or 5xx status. *)
Definition raise_for_status (resp : response) : M unit :=
  if (400 <=? status_code resp) && (status_code resp <? 600)
  then raise RequestException
  else ret tt.

(** The undecorated body of [fetch_url]. *)
Definition fetch_url_body (url : string) : M response :=
  resp <- requests_get url ;;
  raise_for_status resp ;;;
  ret resp.

(** What one run of the body of [fetch_url] yields for a network outcome. *)
Definition attempt_result (o : http_outcome) : res response :=
  match o with
  | NoResponse => Exc RequestException
  | ClientCrash => Exc OtherError
  | Response status body =>
      if (400 <=? status) && (status <? 600) then Exc RequestException
      else Val (mkResponse status body)
  end.

(** The outcomes that are failures at the transport level or error statuses
    (4xx, 5xx). *)
Definition retriable (o : http_outcome) : bool :=
  match o with
  | NoResponse => true
  | ClientCrash => false
  | Response status _ => (400 <=? status) && (status <? 600)
  end.

(** [tenacity.stop_after_attempt(max_attempt_number)]. *)
Definition stop_after_attempt (max_attempt_number attempt_number : Z) : bool :=
  attempt_number >=? max_attempt_number.

(** [tenacity.wait_exponential(multiplier, min, max)] with [exp_base = 2]:
    the sleep after failed attempt number [attempt_number]. *)
Definition wait_exponential (multiplier min max attempt_number : Z) : Z :=
  let exp := 2 ^ (attempt_number - 1) in
  let result := multiplier * exp in
  Z.max (Z.max 0 min) (Z.min result max).

(** [tenacity.retry_if_exception_type((RequestException,))]. *)
Definition retry_if_exception_type (e : exn) : bool :=
  match e with
  | RequestException => true
  | _ => false
  end.

Definition sleep (seconds : Z) : M unit :=
  fun w => (Val tt, record (ESleep seconds) w).

Section Retry.
Variable A : Type.
Variable stop : Z -> bool.
Variable wait : Z -> Z.
Variable retry_if : exn -> bool.
Variable fn : M A.

(** The loop of [tenacity.Retrying.__call__], from attempt number
    [attempt_number] on. [fuel] bounds the number of further attempts for
    the termination checker only. *)
Fixpoint retrying (fuel : nat) (attempt_number : Z) : M A :=
  fun w =>
    match fn w with
    | (Val v, w1) => (Val v, w1)
    | (Exc e, w1) =>
        if retry_if e then
          if stop attempt_number then (Exc RetryError, w1)
          else
            match fuel with
            | O => (Exc OutOfFuel, w1)
            | S fuel' =>
                (sleep (wait attempt_number) ;;;
                 retrying fuel' (attempt_number + 1)) w1
            end
        else (Exc e, w1)
    end.
End Retry.

(** The events of [n] attempts on [url] with the waits of [wait] between
    them: attempt 1, then for each further attempt [k] the sleep after
    attempt [k - 1] and attempt [k]. *)
Fixpoint retry_events (wait : Z -> Z) (url : string) (k : Z) (n : nat)
  : list event :=
  match n with
  | O => []
  | S n' => ESleep (wait (k - 1)) :: EGet url :: retry_events wait url (k + 1) n'
  end.

Definition attempt_events (wait : Z -> Z) (url : string) (n : nat) : list event :=
  match n with
  | O => []
  | S n' => EGet url :: retry_events wait url 2 n'
  end.

(** The outcome that attempt number [k] meets: the answer of the network
    after the events of the first [k] attempts but the last request. *)
Definition outcome_of_attempt (url : string) (w : World) (k : nat)
  : http_outcome :=
  net w (log w ++ removelast (attempt_events (wait_exponential 1 2 10) url k))
      url.

(** The events that [es] may hold when only the URLs [urls] are fetched
    with [requests]. *)
Definition only_fetches (urls : list string) (es : list event) : Prop :=
  Forall (fun e => match e with
                   | EGet u => In u urls
                   | ESleep _ => True
                   | EUrlopen _ => False
                   end) es.

(** [@retry(stop=stop_after_attempt(3),
            wait=wait_exponential(multiplier=1, min=2, max=10),
            retry=retry_if_exception_type((RequestException,)))]. *)
Definition fetch_url (url : string) : M response :=
  retrying (stop_after_attempt 3) (wait_exponential 1 2 10)
           retry_if_exception_type (fetch_url_body url) 2 1.

(* ================================================================== *)
(** * Library interfaces *)

(** The six fields of [urllib.parse.ParseResult]. *)
Record ParseResult : Type := mkParseResult {
  scheme : string;
  netloc : string;
  path : string;
  params : string;
  query : string;
  fragment : string
}.

(** The functions of [urllib.parse] that [urllib.robotparser] calls. *)
Class Urllib : Type := {
  unquote : string -> string;
  quote : string -> string;
  urlparse : string -> res ParseResult;  (** ValueError on a malformed host *)
  urlunparse : ParseResult -> string
}.

(** The markup parsers: [xml.etree.ElementTree] and [bs4.BeautifulSoup]. *)
Class Markup : Type := {
  (** [root = ET.fromstring(content)] followed by
      [[loc.text for loc in root.findall(".//{ns}loc")]]; the text of an
      element without character data is [None]. *)
  xml_locs : string -> res (list (option string));
  soup : Type;
  (** [BeautifulSoup(content, "lxml")]. *)
  BeautifulSoup : string -> res soup;
  (** [soup.select_one(selector)]: [None] when nothing matches, otherwise
      the [get_text(strip=True)] of the first match. *)
  select_one_text : soup -> string -> res (option string)
}.

(* ================================================================== *)
(** * [urllib.robotparser] (Python 3.11, Lib/urllib/robotparser.py) *)

Module Robotparser.
Section WithUrllib.
Context {U : Urllib}.

Record RuleLine : Type := mkRuleLine {
  rl_path : string;
  rl_allowance : bool
}.

Record Entry : Type := mkEntry {
  useragents : list string;
  rulelines : list RuleLine;
  delay : option Z;
  req_rate : option (Z * Z)
}.

Record RobotFileParser : Type := mkRobotFileParser {
  entries : list Entry;
  sitemaps : list string;
  default_entry : option Entry;
  disallow_all : bool;
  allow_all : bool;
  url : string;
  last_checked : bool   (** truth value of [self.last_checked]: false
                            until [modified()] stores the time *)
}.

(** [RobotFileParser()] followed by [set_url(url)]. *)
Definition new (u : string) : RobotFileParser :=
  mkRobotFileParser [] [] None false false u false.

Definition empty_entry : Entry := mkEntry [] [] None None.

(** [RuleLine.__init__]. *)
Definition new_RuleLine (p : string) (allowance : bool) : res RuleLine :=
  let allowance :=
    if String.eqb p "" && negb allowance then true else allowance in
  match urlparse p with
  | Exc e => Exc e
  | Val parsed => Val (mkRuleLine (quote (urlunparse parsed)) allowance)
  end.

(** [RuleLine.applies_to]. *)
Definition rule_applies_to (r : RuleLine) (filename : string) : bool :=
  String.eqb (rl_path r) "*" || Py.startswith (rl_path r) filename.

(** [Entry.applies_to]. *)
Definition applies_to (e : Entry) (useragent : string) : bool :=
  let useragent := Py.lower (Py.before "/" useragent) in
  existsb (fun agent =>
             String.eqb agent "*" || Py.contains (Py.lower agent) useragent)
          (useragents e).

(** [Entry.allowance]: the first rule line that applies decides. *)
Fixpoint first_rule (rules : list RuleLine) (filename : string) : bool :=
  match rules with
  | [] => true
  | r :: rules' =>
      if rule_applies_to r filename then rl_allowance r
      else first_rule rules' filename
  end.

Definition allowance (e : Entry) (filename : string) : bool :=
  first_rule (rulelines e) filename.

(** [RobotFileParser._add_entry]. *)
Definition add_entry (rp : RobotFileParser) (e : Entry) : RobotFileParser :=
  if existsb (String.eqb "*") (useragents e) then
    match default_entry rp with
    | None =>
        mkRobotFileParser (entries rp) (sitemaps rp) (Some e)
          (disallow_all rp) (allow_all rp) (url rp) (last_checked rp)
    | Some _ => rp
    end
  else
    mkRobotFileParser (entries rp ++ [e]) (sitemaps rp) (default_entry rp)
      (disallow_all rp) (allow_all rp) (url rp) (last_checked rp).

Definition add_sitemap (rp : RobotFileParser) (s : string) : RobotFileParser :=
  mkRobotFileParser (entries rp) (sitemaps rp ++ [s]) (default_entry rp)
    (disallow_all rp) (allow_all rp) (url rp) (last_checked rp).

(** [modified()]. *)
Definition modified (rp : RobotFileParser) : RobotFileParser :=
  mkRobotFileParser (entries rp) (sitemaps rp) (default_entry rp)
    (disallow_all rp) (allow_all rp) (url rp) true.

Definition set_disallow_all (rp : RobotFileParser) : RobotFileParser :=
  mkRobotFileParser (entries rp) (sitemaps rp) (default_entry rp)
    true (allow_all rp) (url rp) (last_checked rp).

Definition set_allow_all (rp : RobotFileParser) : RobotFileParser :=
  mkRobotFileParser (entries rp) (sitemaps rp) (default_entry rp)
    (disallow_all rp) true (url rp) (last_checked rp).

Definition add_useragent (e : Entry) (a : string) : Entry :=
  mkEntry (useragents e ++ [a]) (rulelines e) (delay e) (req_rate e).

Definition add_ruleline (e : Entry) (r : RuleLine) : Entry :=
  mkEntry (useragents e) (rulelines e ++ [r]) (delay e) (req_rate e).

Definition set_delay (e : Entry) (d : Z) : Entry :=
  mkEntry (useragents e) (rulelines e) (Some d) (req_rate e).

Definition set_req_rate (e : Entry) (r : Z * Z) : Entry :=
  mkEntry (useragents e) (rulelines e) (delay e) (Some r).

(** [s.isdigit()] and [int(s)] on ASCII digits. *)
Definition is_digit (c : ascii) : bool :=
  let n := nat_of_ascii c in Nat.leb 48 n && Nat.leb n 57.

Fixpoint all_digits (s : string) : bool :=
  match s with
  | EmptyString => true
  | String c s' => is_digit c && all_digits s'
  end.

Definition isdigit (s : string) : bool :=
  negb (String.eqb s "") && all_digits s.

Fixpoint int_acc (acc : Z) (s : string) : Z :=
  match s with
  | EmptyString => acc
  | String c s' => int_acc (10 * acc + (Z.of_nat (nat_of_ascii c) - 48)) s'
  end.

Definition int (s : string) : Z := int_acc 0 (Py.strip s).

(** The local variables of [parse]: the parser object, the state (0, 1 or
    2) and the entry being filled. *)
Record parse_state : Type := mkParseState {
  ps_rp : RobotFileParser;
  ps_state : Z;
  ps_entry : Entry
}.

(** One iteration of the loop of [parse]. *)
Definition parse_line (st : parse_state) (line : string) : res parse_state :=
  (* a blank line ends the current record *)
  let st :=
    if String.eqb line "" then
      if ps_state st =? 1 then mkParseState (ps_rp st) 0 empty_entry
      else if ps_state st =? 2 then
        mkParseState (add_entry (ps_rp st) (ps_entry st)) 0 empty_entry
      else st
    else st in
  let rp := ps_rp st in
  let state := ps_state st in
  let entry := ps_entry st in
  (* remove optional comment and strip line *)
  let line := Py.strip (Py.before "#" line) in
  if String.eqb line "" then Val st
  else
    match Py.split1 ":" line with
    | None => Val st
    | Some (l0, l1) =>
        let l0 := Py.lower (Py.strip l0) in
        let l1 := unquote (Py.strip l1) in
        if String.eqb l0 "user-agent" then
          let '(rp, entry) :=
            if state =? 2 then (add_entry rp entry, empty_entry)
            else (rp, entry) in
          Val (mkParseState rp 1 (add_useragent entry l1))
        else if String.eqb l0 "disallow" then
          if negb (state =? 0) then
            match new_RuleLine l1 false with
            | Exc e => Exc e
            | Val r => Val (mkParseState rp 2 (add_ruleline entry r))
            end
          else Val st
        else if String.eqb l0 "allow" then
          if negb (state =? 0) then
            match new_RuleLine l1 true with
            | Exc e => Exc e
            | Val r => Val (mkParseState rp 2 (add_ruleline entry r))
            end
          else Val st
        else if String.eqb l0 "crawl-delay" then
          if negb (state =? 0) then
            let entry :=
              if isdigit (Py.strip l1) then set_delay entry (int l1)
              else entry in
            Val (mkParseState rp 2 entry)
          else Val st
        else if String.eqb l0 "request-rate" then
          if negb (state =? 0) then
            let entry :=
              match Py.split1 "/" l1 with
              | Some (n0, n1) =>
                  if negb (Py.contains "/" n1)
                     && isdigit (Py.strip n0) && isdigit (Py.strip n1)
                  then set_req_rate entry (int n0, int n1)
                  else entry
              | None => entry
              end in
            Val (mkParseState rp 2 entry)
          else Val st
        else if String.eqb l0 "sitemap" then
          Val (mkParseState (add_sitemap rp l1) state entry)
        else Val st
    end.

Fixpoint parse_lines (st : parse_state) (lines : list string)
  : res parse_state :=
  match lines with
  | [] => Val st
  | line :: lines' =>
      match parse_line st line with
      | Exc e => Exc e
      | Val st' => parse_lines st' lines'
      end
  end.

(** [RobotFileParser.parse]. *)
Definition parse (rp : RobotFileParser) (lines : list string)
  : res RobotFileParser :=
  match parse_lines (mkParseState (modified rp) 0 empty_entry) lines with
  | Exc e => Exc e
  | Val st =>
      if ps_state st =? 2 then Val (add_entry (ps_rp st) (ps_entry st))
      else Val (ps_rp st)
  end.

(** [urllib.request.urlopen(url).read()]: any final status outside 2xx
    is raised as HTTPError. *)
Definition urlopen (u : string) : M string :=
  fun w =>
    let w' := record (EUrlopen u) w in
    match net w (log w) u with
    | NoResponse => (Exc URLError, w')
    | ClientCrash => (Exc OtherError, w')
    | Response status body =>
        if (200 <=? status) && (status <? 300) then (Val body, w')
        else (Exc (HTTPError status), w')
    end.

(** [RobotFileParser.read]. *)
Definition read (rp : RobotFileParser) : M RobotFileParser :=
  fun w =>
    match urlopen (url rp) w with
    | (Exc (HTTPError code), w') =>
        if (code =? 401) || (code =? 403) then (Val (set_disallow_all rp), w')
        else if (code >=? 400) && (code <? 500) then (Val (set_allow_all rp), w')
        else (Val rp, w')
    | (Exc e, w') => (Exc e, w')
    | (Val raw, w') => (parse rp (Py.splitlines raw), w')
    end.

(** The text that [can_fetch] matches the rules against: the URL without
    scheme and host, quoted, and ["/"] when that is empty. *)
Definition request_path (u : string) : res string :=
  match urlparse (unquote u) with
  | Exc e => Exc e
  | Val parsed_url =>
      let u := urlunparse (mkParseResult "" "" (path parsed_url)
                             (params parsed_url) (query parsed_url)
                             (fragment parsed_url)) in
      let u := quote u in
      Val (if String.eqb u "" then "/" else u)
  end.

(** [RobotFileParser.can_fetch(useragent, url)]; [u] is [None] when the
    caller passes Python's [None] (then [unquote] raises TypeError). *)
Definition can_fetch (rp : RobotFileParser) (useragent : string)
           (u : option string) : res bool :=
  if disallow_all rp then Val false
  else if allow_all rp then Val true
  else if negb (last_checked rp) then Val false
  else
    match u with
    | None => Exc TypeError
    | Some u =>
        match request_path u with
        | Exc e => Exc e
        | Val u =>
            match find (fun e => applies_to e useragent) (entries rp) with
            | Some e => Val (allowance e u)
            | None =>
                match default_entry rp with
                | Some e => Val (allowance e u)
                | None => Val true
                end
            end
        end
    end.

End WithUrllib.
End Robotparser.

(* ================================================================== *)
(** * The functions of [src/app.py] *)

(** A Python [dict] with string keys: association list in insertion order;
    assigning to a present key replaces its value in place. *)
Definition dict (V : Type) : Type := list (string * V).

Fixpoint dict_set {V} (k : string) (v : V) (d : dict V) : dict V :=
  match d with
  | [] => [(k, v)]
  | (k', v') :: d' =>
      if String.eqb k' k then (k', v) :: d' else (k', v') :: dict_set k v d'
  end.

Fixpoint dict_get {V} (k : string) (d : dict V) : option V :=
  match d with
  | [] => None
  | (k', v') :: d' => if String.eqb k' k then Some v' else dict_get k d'
  end.

(** The four fields that [get_robots_summary] collects and prints. *)
Record robots_summary : Type := mkSummary {
  allowed : list string;
  disallowed : list string;
  crawl_delay : option string;
  sitemap_links : list string
}.

(** The value after the first colon, stripped: [line.split(':',1)[1].strip()]. *)
Definition directive_value (line : string) : string :=
  match Py.split1 ":" line with
  | Some (_, v) => Py.strip v
  | None => ""
  end.

(** One iteration of the loop of [get_robots_summary] (lines 39-43). *)
Definition summary_line (s : robots_summary) (line : string) : robots_summary :=
  let line := Py.strip line in
  if Py.startswith "allow:" (Py.lower line) then
    mkSummary (allowed s ++ [directive_value line]) (disallowed s)
              (crawl_delay s) (sitemap_links s)
  else if Py.startswith "disallow:" (Py.lower line) then
    mkSummary (allowed s) (disallowed s ++ [directive_value line])
              (crawl_delay s) (sitemap_links s)
  else if Py.startswith "crawl-delay:" (Py.lower line) then
    mkSummary (allowed s) (disallowed s) (Some (directive_value line))
              (sitemap_links s)
  else if Py.startswith "sitemap:" (Py.lower line) then
    mkSummary (allowed s) (disallowed s) (crawl_delay s)
              (sitemap_links s ++ [directive_value line])
  else s.

(** A recipe record appended on line 112. *)
Record recipe : Type := mkRecipe {
  title : string;
  description : string;
  link : string
}.

(** [x if x else default] for an optional text. *)
Definition or_default (o : option string) (default : string) : string :=
  match o with
  | Some s => s
  | None => default
  end.

(** The tuple [(func.__name__, args, tuple(sorted(kwargs.items())))]. *)
Definition cache_key : Type := (string * list Z * list (string * Z))%type.

Definition kw_eqb (a b : string * Z) : bool :=
  String.eqb (fst a) (fst b) && (snd a =? snd b).

Fixpoint list_eqb {X} (eqb : X -> X -> bool) (l1 l2 : list X) : bool :=
  match l1, l2 with
  | [], [] => true
  | x :: l1', y :: l2' => eqb x y && list_eqb eqb l1' l2'
  | _, _ => false
  end.

Definition key_eqb (a b : cache_key) : bool :=
  let '(n1, a1, k1) := a in
  let '(n2, a2, k2) := b in
  String.eqb n1 n2 && list_eqb Z.eqb a1 a2 && list_eqb kw_eqb k1 k2.

(** [sorted(kwargs.items())]: keyword names are distinct, so the pairs are
    ordered by name. *)
Fixpoint insert_kw (p : string * Z) (l : list (string * Z)) : list (string * Z) :=
  match l with
  | [] => [p]
  | q :: l' =>
      if String.leb (fst p) (fst q) then p :: l else q :: insert_kw p l'
  end.

Definition sorted_items (kwargs : list (string * Z)) : list (string * Z) :=
  fold_right insert_kw [] kwargs.

(** Binding of [*args, **kwargs] to named parameters, as a Python call does:
    positional arguments fill the parameters from the left, each keyword
    argument fills the parameter of its name, and a parameter left empty or
    filled twice, or an unknown keyword, is a TypeError. *)
Fixpoint bind_keywords (names : list string) (kwargs : list (string * Z))
  : res (list Z) :=
  match names with
  | [] => match kwargs with [] => Val [] | _ => Exc TypeError end
  | n :: names' =>
      match find (fun p => String.eqb (fst p) n) kwargs with
      | None => Exc TypeError
      | Some p =>
          match bind_keywords names'
                  (filter (fun q => negb (String.eqb (fst q) n)) kwargs) with
          | Val vs => Val (snd p :: vs)
          | Exc e => Exc e
          end
      end
  end.

Fixpoint bind_args (names : list string) (args : list Z)
         (kwargs : list (string * Z)) : res (list Z) :=
  match args, names with
  | [], _ => bind_keywords names kwargs
  | a :: args', n :: names' =>
      if existsb (fun p => String.eqb (fst p) n) kwargs then Exc TypeError
      else match bind_args names' args' kwargs with
           | Val vs => Val (a :: vs)
           | Exc e => Exc e
           end
  | _ :: _, [] => Exc TypeError
  end.

Section App.
Context {U : Urllib} {K : Markup}.
Import Robotparser.

Definition robots_url : string := "https://www.bonappetit.com/robots.txt".

(** Lines 18-20: the module-level [rp]. *)
Definition make_rp : M RobotFileParser := read (new robots_url).

(** [get_robots_summary] (lines 34-50); the four collected fields stand
    for the text block that prints them. *)
Definition get_robots_summary (rp : RobotFileParser) : M robots_summary :=
  resp <- fetch_url (url rp) ;;
  let text := content resp in
  ret (fold_left summary_line (Py.splitlines text)
                 (mkSummary [] [] None [])).

(** The [cache] decorator (lines 70-78): [wrapper] for the decorated
    [func], with the closure variable [cache_data] passed explicitly. *)
Section Cache.
Variable V : Type.
Variable func_name : string.
Variable func : list Z -> list (string * Z) -> M V.

Definition cache_data : Type := list (cache_key * V).

Fixpoint cache_lookup (key : cache_key) (cd : cache_data) : option V :=
  match cd with
  | [] => None
  | (k, v) :: cd' => if key_eqb k key then Some v else cache_lookup key cd'
  end.

Definition wrapper (args : list Z) (kwargs : list (string * Z))
           (cd : cache_data) (w : World) : res V * cache_data * World :=
  let key := (func_name, args, sorted_items kwargs) in
  match cache_lookup key cd with
  | Some v => (Val v, cd, w)
  | None =>
      match func args kwargs w with
      | (Val v, w') => (Val v, cd ++ [(key, v)], w')
      | (Exc e, w') => (Exc e, cd, w')
      end
  end.
End Cache.

(** The local variables [sitemap_map, total_checked, total_crawlable]. *)
Definition crawl_state : Type := (dict (list (option string)) * Z * Z)%type.

(** Lines 90-95: the URLs of one sitemap bucket, [[]] when anything in the
    [try] block raises. *)
Definition bucket_urls (u : string) : M (list (option string)) :=
  try_except
    (resp <- fetch_url u ;;
     lift (xml_locs (content resp)))
    (ret []).

(** [[u for u in urls if rp.can_fetch("*", u)]]. *)
Fixpoint crawlable_of (rp : RobotFileParser) (urls : list (option string))
  : res (list (option string)) :=
  match urls with
  | [] => Val []
  | u :: urls' =>
      match can_fetch rp "*" u with
      | Exc e => Exc e
      | Val keep =>
          match crawlable_of rp urls' with
          | Exc e => Exc e
          | Val rest => Val (if keep then u :: rest else rest)
          end
      end
  end.

(** Lines 89-99: the body of the innermost loop, after the [break] test. *)
Definition visit_bucket (rp : RobotFileParser) (b : bucket) (st : crawl_state)
  : M crawl_state :=
  let '(sitemap_map, total_checked, total_crawlable) := st in
  let u := bucket_url b in
  urls <- bucket_urls u ;;
  crawlable <- lift (crawlable_of rp urls) ;;
  ret (dict_set u crawlable sitemap_map,
       total_checked + len urls,
       total_crawlable + len crawlable).

(** [get_content_urls] without its decorator (lines 81-100). *)
Definition get_content_urls (rp : RobotFileParser)
           (start_year start_month start_week end_year end_month end_week : Z)
  : M crawl_state :=
  for_each (Py.range start_year (end_year + 1)) (fun year st =>
    let m_start := if year =? start_year then start_month else 1 in
    let m_end := if year =? end_year then end_month else 12 in
    st <- for_each (Py.range m_start (m_end + 1)) (fun month st =>
      st <- for_each (Py.range 1 5) (fun week st =>
        if (year =? end_year) && (month =? end_month) && (week >? end_week)
        then ret (Break st)
        else
          st <- visit_bucket rp (year, month, week) st ;;
          ret (Next st)) st ;;
      ret (Next st)) st ;;
    ret (Next st)) ([], 0, 0).

(** The loop body run on the buckets [bs] one after the other. *)
Fixpoint visit_all (rp : RobotFileParser) (bs : list bucket)
         (st : crawl_state) : M crawl_state :=
  match bs with
  | [] => ret st
  | b :: bs' => st' <- visit_bucket rp b st ;; visit_all rp bs' st'
  end.

(** What one bucket contributes: its query URL, the URLs found in its
    sitemap and those of them that robots.txt allows. *)
Record SitemapEntry : Type := mkSitemapEntry {
  bucketURL : string;
  discoveredURLs : list (option string);
  allowedURLs : list (option string)
}.

(** The item that an entry leaves in [sitemap_map]. *)
Definition entry_pair (e : SitemapEntry) : string * list (option string) :=
  (bucketURL e, allowedURLs e).

(** The entries that the loop body produces on the buckets [bs], started
    in world [w]; the list ends where the body raises. *)
Fixpoint entries_of (rp : RobotFileParser) (bs : list bucket) (w : World)
  : list SitemapEntry :=
  match bs with
  | [] => []
  | b :: bs' =>
      match bucket_urls (bucket_url b) w with
      | (Val urls, w') =>
          match crawlable_of rp urls with
          | Val crawlable =>
              mkSitemapEntry (bucket_url b) urls crawlable
                :: entries_of rp bs' w'
          | Exc _ => []
          end
      | (Exc _, _) => []
      end
  end.

(** A call of the undecorated function with positional arguments [args]
    and keyword arguments [kwargs]. *)
Definition call_get_content_urls (rp : RobotFileParser)
           (args : list Z) (kwargs : list (string * Z)) : M crawl_state :=
  match bind_args ["start_year"; "start_month"; "start_week";
                   "end_year"; "end_month"; "end_week"] args kwargs with
  | Val [sy; sm; sw; ey; em; ew] => get_content_urls rp sy sm sw ey em ew
  | Val _ => raise TypeError
  | Exc e => raise e
  end.

(** The decorated [get_content_urls] (line 80). *)
Definition get_content_urls_cached (rp : RobotFileParser) :=
  wrapper "get_content_urls" (call_get_content_urls rp).

(** Line 162:
    [(total_crawlable/total_checked*100) if total_checked else 0]. *)
Definition crawl_score (total_crawlable total_checked : Z) : res number :=
  if total_checked =? 0 then Val (Int 0)
  else
    match true_divide total_crawlable total_checked with
    | Exc e => Exc e
    | Val quotient => Val (Float (float_mul quotient 100))
    end.

Definition title_selector : string := "h1[data-testid='ContentHeaderHed']".
Definition desc_selector : string := "div.container--body-inner p".

(** Lines 107-113, the [try] block of [extract_all_recipes]: the lists as
    the block leaves them. (The log call of line 113 is not modelled.) *)
Definition static_path (u : string) (st : list recipe * list string)
  : M (list recipe * list string) :=
  let '(recipes, js_heavy) := st in
  resp <- fetch_url u ;;
  soup <- lift (BeautifulSoup (content resp)) ;;
  if Py.contains "/recipe/" u then
    t <- lift (select_one_text soup title_selector) ;;
    d <- lift (select_one_text soup desc_selector) ;;
    ret (recipes ++ [mkRecipe (or_default t "No title")
                              (or_default d "No description") u],
         js_heavy)
  else ret (recipes, js_heavy).

(** Lines 106-115: one iteration of the loop of [extract_all_recipes]. *)
Definition classify_one (u : string) (st : list recipe * list string)
  : M (list recipe * list string) :=
  try_except (static_path u st) (ret (fst st, snd st ++ [u])).

(** The loop of [extract_all_recipes], from given lists on. *)
Definition classify_all (urls : list string) (st : list recipe * list string)
  : M (list recipe * list string) :=
  for_each urls (fun u st =>
    st <- classify_one u st ;;
    ret (Next st)) st.

(** [extract_all_recipes] (lines 103-116). *)
Definition extract_all_recipes (urls : list string)
  : M (list recipe * list string) :=
  classify_all urls ([], []).

(** The start of a run of the script: line 20, then line 135. *)
Definition startup : M (RobotFileParser * robots_summary) :=
  rp <- make_rp ;;
  summary <- get_robots_summary rp ;;
  ret (rp, summary).

End App.

(* ================================================================== *)
(** * Instances of the library interfaces, for running the model *)

(** [urllib.parse] (Python 3.11) on ASCII text. Hosts in square brackets
    are not validated here; percent escapes decode to single characters. *)
Module AsciiUrllib.

Definition hex_val (c : ascii) : option nat :=
  let n := nat_of_ascii c in
  if Nat.leb 48 n && Nat.leb n 57 then Some (n - 48)%nat
  else if Nat.leb 65 n && Nat.leb n 70 then Some (n - 55)%nat
  else if Nat.leb 97 n && Nat.leb n 102 then Some (n - 87)%nat
  else None.

Fixpoint unquote (s : string) : string :=
  match s with
  | EmptyString => EmptyString
  | String c s1 =>
      if Ascii.eqb c "%" then
        match s1 with
        | String a (String b s2) =>
            match hex_val a, hex_val b with
            | Some x, Some y =>
                String (ascii_of_nat (16 * x + y)) (unquote s2)
            | _, _ => String c (unquote s1)
            end
        | _ => String c (unquote s1)
        end
      else String c (unquote s1)
  end.

Definition hex_digit (n : nat) : ascii :=
  if Nat.ltb n 10 then ascii_of_nat (48 + n) else ascii_of_nat (55 + n).

(** [_ALWAYS_SAFE] together with the default [safe='/']. *)
Definition is_safe (c : ascii) : bool :=
  let n := nat_of_ascii c in
  (Nat.leb 65 n && Nat.leb n 90) || (Nat.leb 97 n && Nat.leb n 122)
  || (Nat.leb 48 n && Nat.leb n 57)
  || Ascii.eqb c "_" || Ascii.eqb c "." || Ascii.eqb c "-"
  || Ascii.eqb c "~" || Ascii.eqb c "/".

Fixpoint quote (s : string) : string :=
  match s with
  | EmptyString => EmptyString
  | String c s' =>
      if is_safe c then String c (quote s')
      else
        let n := nat_of_ascii c in
        String "%" (String (hex_digit (n / 16)) (String (hex_digit (n mod 16))
                                                       (quote s')))
  end.

Definition uses_params : list string :=
  [""; "ftp"; "hdl"; "prospero"; "http"; "imap"; "https"; "shttp"; "rtsp";
   "rtspu"; "sip"; "sips"; "mms"; "sftp"; "tel"].

Definition uses_netloc : list string :=
  [""; "ftp"; "http"; "gopher"; "nntp"; "telnet"; "imap"; "wais"; "file";
   "mms"; "https"; "shttp"; "snews"; "prospero"; "rtsp"; "rtspu"; "rsync";
   "svn"; "svn+ssh"; "sftp"; "nfs"; "git"; "git+ssh"; "ws"; "wss"].

Definition is_scheme_char (c : ascii) : bool :=
  let n := nat_of_ascii c in
  (Nat.leb 65 n && Nat.leb n 90) || (Nat.leb 97 n && Nat.leb n 122)
  || (Nat.leb 48 n && Nat.leb n 57)
  || Ascii.eqb c "+" || Ascii.eqb c "-" || Ascii.eqb c ".".

Definition is_alpha (c : ascii) : bool :=
  let n := nat_of_ascii c in
  (Nat.leb 65 n && Nat.leb n 90) || (Nat.leb 97 n && Nat.leb n 122).

Fixpoint all_chars (p : ascii -> bool) (s : string) : bool :=
  match s with
  | EmptyString => true
  | String c s' => p c && all_chars p s'
  end.

(** [url.lstrip(_WHATWG_C0_CONTROL_OR_SPACE)]. *)
Fixpoint lstrip_c0 (s : string) : string :=
  match s with
  | EmptyString => EmptyString
  | String c s' => if Nat.leb (nat_of_ascii c) 32 then lstrip_c0 s' else s
  end.

(** Removal of TAB, CR and LF. *)
Fixpoint remove_unsafe (s : string) : string :=
  match s with
  | EmptyString => EmptyString
  | String c s' =>
      let n := nat_of_ascii c in
      if Nat.eqb n 9 || Nat.eqb n 10 || Nat.eqb n 13 then remove_unsafe s'
      else String c (remove_unsafe s')
  end.

(** [_splitnetloc(url, 2)] on the text after the two slashes. *)
Fixpoint splitnetloc (s : string) : string * string :=
  match s with
  | EmptyString => (EmptyString, EmptyString)
  | String c s' =>
      if Ascii.eqb c "/" || Ascii.eqb c "?" || Ascii.eqb c "#"
      then (EmptyString, s)
      else let '(a, b) := splitnetloc s' in (String c a, b)
  end.

(** Split at the last occurrence of [sep]. *)
Fixpoint rsplit1 (sep : ascii) (s : string) : option (string * string) :=
  match s with
  | EmptyString => None
  | String c s' =>
      match rsplit1 sep s' with
      | Some (a, b) => Some (String c a, b)
      | None => if Ascii.eqb c sep then Some (EmptyString, s') else None
      end
  end.

(** [_splitparams]. *)
Definition splitparams (u : string) : string * string :=
  match rsplit1 "/" u with
  | Some (head, tail) =>
      match Py.split1 ";" tail with
      | Some (a, b) => ((head ++ "/" ++ a)%string, b)
      | None => (u, EmptyString)
      end
  | None =>
      match Py.split1 ";" u with
      | Some (a, b) => (a, b)
      | None => (u, EmptyString)
      end
  end.

Definition urlparse (u : string) : res ParseResult :=
  let u := remove_unsafe (lstrip_c0 u) in
  let '(scheme, u) :=
    match Py.split1 ":" u with
    | Some (String c0 rest, after) =>
        if is_alpha c0 && all_chars is_scheme_char rest
        then (Py.lower (String c0 rest), after)
        else (EmptyString, u)
    | _ => (EmptyString, u)
    end in
  let '(netloc, u) :=
    match u with
    | String "/" (String "/" rest) => splitnetloc rest
    | _ => (EmptyString, u)
    end in
  if xorb (Py.has_char "[" netloc) (Py.has_char "]" netloc) then Exc ValueError
  else
    let '(u, fragment) :=
      match Py.split1 "#" u with
      | Some (a, b) => (a, b)
      | None => (u, EmptyString)
      end in
    let '(u, query) :=
      match Py.split1 "?" u with
      | Some (a, b) => (a, b)
      | None => (u, EmptyString)
      end in
    let '(u, params) :=
      if existsb (String.eqb scheme) uses_params && Py.has_char ";" u
      then splitparams u
      else (u, EmptyString) in
    Val (mkParseResult scheme netloc u params query fragment).

Definition urlunparse (p : ParseResult) : string :=
  let u := path p in
  let u := if String.eqb (params p) "" then u
           else (u ++ ";" ++ params p)%string in
  let u :=
    if negb (String.eqb (netloc p) "")
       || (negb (String.eqb (scheme p) "")
           && existsb (String.eqb (scheme p)) uses_netloc
           && negb (Py.startswith "//" u))
    then
      let u := if negb (String.eqb u "") && negb (Py.startswith "/" u)
               then ("/" ++ u)%string else u in
      ("//" ++ netloc p ++ u)%string
    else u in
  let u := if String.eqb (scheme p) "" then u
           else (scheme p ++ ":" ++ u)%string in
  let u := if String.eqb (query p) "" then u
           else (u ++ "?" ++ query p)%string in
  if String.eqb (fragment p) "" then u
  else (u ++ "#" ++ fragment p)%string.

#[export] Instance ascii_urllib : Urllib :=
  Build_Urllib unquote quote urlparse urlunparse.

End AsciiUrllib.

(** A markup library that answers every document alike: the sitemap parser
    finds the elements [locs] (or rejects the document when [locs] is
    [None]), and the two recipe selectors find [t] and [d]. *)
Definition fixed_markup (locs : option (list (option string)))
           (t d : option string) : Markup :=
  {| xml_locs := fun _ =>
       match locs with Some l => Val l | None => Exc ParseError end;
     soup := unit;
     BeautifulSoup := fun _ => Val tt;
     select_one_text := fun _ sel =>
       Val (if String.eqb sel "h1[data-testid='ContentHeaderHed']" then t else d)
  |}.

(** Rule sets for running the model: what [parse] builds from the lines
    [User-agent: *], [Disallow: /api/], [Allow: /api/public/], from the same
    lines with the two rules exchanged, and from [User-agent: *],
    [Disallow: /private/]. *)
Definition star_entry (rules : list Robotparser.RuleLine) : Robotparser.Entry :=
  Robotparser.mkEntry ["*"] rules None None.

Definition rp_of_rules (rules : list Robotparser.RuleLine)
  : Robotparser.RobotFileParser :=
  Robotparser.mkRobotFileParser [] [] (Some (star_entry rules)) false false
    "https://www.bonappetit.com/robots.txt" true.

Definition rp_disallow_first : Robotparser.RobotFileParser :=
  rp_of_rules [Robotparser.mkRuleLine "/api/" false;
               Robotparser.mkRuleLine "/api/public/" true].

Definition rp_allow_first : Robotparser.RobotFileParser :=
  rp_of_rules [Robotparser.mkRuleLine "/api/public/" true;
               Robotparser.mkRuleLine "/api/" false].

Definition rp_private : Robotparser.RobotFileParser :=
  rp_of_rules [Robotparser.mkRuleLine "/private/" false].

(** Networks for running the model. *)
Definition net_down : list event -> string -> http_outcome :=
  fun _ _ => NoResponse.

Definition net_serving (body : string) : list event -> string -> http_outcome :=
  fun _ _ => Response 200 body.

Definition is_request (e : event) : bool :=
  match e with
  | EGet _ | EUrlopen _ => true
  | ESleep _ => false
  end.

(** A network that fails the first [n] requests and then serves [body]. *)
Definition net_failing_first (n : nat) (body : string)
  : list event -> string -> http_outcome :=
  fun history _ =>
    if Nat.ltb (List.length (filter is_request history)) n
    then NoResponse else Response 200 body.

(* ================================================================== *)
(** * The rest of [src/app.py] *)

(** [check_open_apis] (lines 119-128) for a list of candidate feeds: a feed
    is appended when its fetch returns, and skipped when anything raises. *)
Definition probe_feeds (feeds : list string) : M (list string) :=
  for_each feeds (fun f available =>
    available <- try_except (fetch_url f ;;; ret (available ++ [f]))
                            (ret available) ;;
    ret (Next available)) [].

Definition feeds : list string :=
  ["https://www.bonappetit.com/feed/rss"; "https://www.bonappetit.com/api/"].

Definition check_open_apis : M (list string) := probe_feeds feeds.

(** Line 166: [[u for urls in sitemap_map.values() for u in urls]]. *)
Definition all_urls (sitemap_map : dict (list (option string)))
  : list (option string) :=
  flat_map snd sitemap_map.

(** [StreamlitLogHandler] (lines 53-61): the text collected so far, and the
    texts handed to [placeholder.code], oldest first. *)
Record StreamlitLogHandler : Type := mkHandler {
  log_content : string;
  displayed : list string
}.

(** [StreamlitLogHandler.__init__]. *)
Definition new_handler : StreamlitLogHandler := mkHandler "" [].

(** [emit], for a record whose formatted text is [msg]. *)
Definition emit (h : StreamlitLogHandler) (msg : string) : StreamlitLogHandler :=
  let text := (log_content h ++ msg ++ String "010"%char "")%string in
  mkHandler text (displayed h ++ [text]).

(** Vocabulary for the properties: sublists in order, the requests and the
    seconds slept in a list of events. *)
Inductive subseq {A : Type} : list A -> list A -> Prop :=
| subseq_nil : subseq [] []
| subseq_skip (x : A) (l1 l2 : list A) : subseq l1 l2 -> subseq l1 (x :: l2)
| subseq_take (x : A) (l1 l2 : list A) : subseq l1 l2 -> subseq (x :: l1) (x :: l2).

(** The events of fetching the URLs [urls] one after the other, the first
    with the first number of attempts in [ns] and so on, as far as [ns]
    reaches. *)
Fixpoint fetch_events (urls : list string) (ns : list nat) : list event :=
  match urls, ns with
  | u :: urls', n :: ns' =>
      attempt_events (wait_exponential 1 2 10) u n ++ fetch_events urls' ns'
  | _, _ => []
  end.

Definition is_get (e : event) : bool :=
  match e with
  | EGet _ => true
  | _ => false
  end.

Definition gets (es : list event) : Z := len (filter is_get es).

Definition seconds_of (e : event) : Z :=
  match e with
  | ESleep s => s
  | _ => 0
  end.

Definition slept (es : list event) : Z := Zsum (map seconds_of es).

(** The directive that a line of robots.txt is for [get_robots_summary]. *)
Inductive directive : Type :=
| DAllow | DDisallow | DCrawlDelay | DSitemap | DOther.

Definition directive_eqb (a b : directive) : bool :=
  match a, b with
  | DAllow, DAllow | DDisallow, DDisallow | DCrawlDelay, DCrawlDelay
  | DSitemap, DSitemap | DOther, DOther => true
  | _, _ => false
  end.

Definition directive_of (line : string) : directive :=
  let l := Py.lower (Py.strip line) in
  if Py.startswith "allow:" l then DAllow
  else if Py.startswith "disallow:" l then DDisallow
  else if Py.startswith "crawl-delay:" l then DCrawlDelay
  else if Py.startswith "sitemap:" l then DSitemap
  else DOther.

(** The values of the lines of robots.txt that carry directive [d]. *)
Definition values_of (d : directive) (lines : list string) : list string :=
  map (fun line => directive_value (Py.strip line))
      (filter (fun line => directive_eqb (directive_of line) d) lines).

(** The last text of a list, if any. *)
Definition last_value (l : list string) : option string :=
  last (map Some l) None.

(** Texts without ASCII whitespace. *)
Fixpoint no_space (s : string) : bool :=
  match s with
  | EmptyString => true
  | String c s' => negb (Py.is_space c) && no_space s'
  end.

(** The lines that [RobotFileParser.parse] reads as a User-agent line. *)
Definition is_user_agent_line (line : string) : bool :=
  match Py.split1 ":" (Py.strip (Py.before "#" line)) with
  | Some (l0, _) => String.eqb (Py.lower (Py.strip l0)) "user-agent"
  | None => false
  end.

(** The text of the messages [msgs], one per line. *)
Definition log_text (msgs : list string) : string :=
  fold_right (fun msg rest => (msg ++ String "010"%char rest)%string) "" msgs.

(** What a candidate feed adds to the list of [check_open_apis], by the
    result of its fetch. *)
Definition listed {A} (f : string) (r : res A) : list string :=
  match r with
  | Val _ => [f]
  | Exc _ => []
  end.

(* ================================================================== *)
(** * Properties *)

Unset Implicit Arguments.

(** ** Ranges and sorted lists *)

Lemma range_In (a b x : Z) : In x (Py.range a b) <-> a <= x < b.
Proof.
  unfold Py.range. rewrite in_map_iff. split.
  - intros (i & <- & Hi). apply in_seq in Hi. lia.
  - intros H. exists (Z.to_nat (x - a)). split; [lia|].
    apply in_seq. lia.
Qed.

Lemma range_empty (a b : Z) : b <= a -> Py.range a b = [].
Proof.
  intros H. unfold Py.range.
  replace (Z.to_nat (b - a)) with 0%nat by lia. reflexivity.
Qed.

Lemma range_cons (a b : Z) : a < b -> Py.range a b = a :: Py.range (a + 1) b.
Proof.
  intros H. unfold Py.range.
  replace (Z.to_nat (b - a)) with (S (Z.to_nat (b - (a + 1)))) by lia.
  cbn [seq map]. f_equal; [lia|].
  rewrite <- seq_shift, map_map. apply map_ext. intros i. lia.
Qed.

Lemma range_sorted (a b : Z) : StronglySorted Z.lt (Py.range a b).
Proof.
  remember (Z.to_nat (b - a)) as n eqn:Hn.
  revert a Hn. induction n as [|n IH]; intros a Hn.
  - rewrite range_empty by lia. constructor.
  - rewrite range_cons by lia. constructor.
    + apply IH. lia.
    + apply Forall_forall. intros x Hx. apply range_In in Hx. lia.
Qed.

Lemma range_1_5 : Py.range 1 5 = [1; 2; 3; 4].
Proof. reflexivity. Qed.

Section SortedLists.
Variables (A B : Type) (ltA : A -> A -> Prop) (ltB : B -> B -> Prop).

Lemma sorted_app (l1 l2 : list B) :
  StronglySorted ltB l1 -> StronglySorted ltB l2 ->
  (forall a b, In a l1 -> In b l2 -> ltB a b) ->
  StronglySorted ltB (l1 ++ l2).
Proof.
  induction l1 as [|x l1 IH]; intros H1 H2 H12; cbn; [exact H2|].
  inversion H1 as [|? ? Hs Hall]; subst. constructor.
  - apply IH; auto. intros a b Ha Hb. apply H12; [now right|exact Hb].
  - apply Forall_app. split; [exact Hall|].
    apply Forall_forall. intros b Hb. apply H12; [now left|exact Hb].
Qed.

Lemma sorted_flat_map (f : A -> list B) (l : list A) :
  StronglySorted ltA l ->
  (forall x, In x l -> StronglySorted ltB (f x)) ->
  (forall x y a b, In x l -> In y l -> ltA x y ->
                   In a (f x) -> In b (f y) -> ltB a b) ->
  StronglySorted ltB (flat_map f l).
Proof.
  induction l as [|x l IH]; intros Hs Hf Hlt; cbn; [constructor|].
  inversion Hs as [|? ? Hs' Hall]; subst.
  apply sorted_app.
  - apply Hf. now left.
  - apply IH; auto.
    + intros y Hy. apply Hf. now right.
    + intros y z a b Hy Hz. apply Hlt; now right.
  - intros a b Ha Hb. apply in_flat_map in Hb as (y & Hy & Hb).
    rewrite Forall_forall in Hall.
    apply (Hlt x y); auto; [now left|now right].
Qed.

Lemma sorted_map (f : A -> B) (l : list A) :
  StronglySorted ltA l ->
  (forall x y, In x l -> In y l -> ltA x y -> ltB (f x) (f y)) ->
  StronglySorted ltB (map f l).
Proof.
  induction l as [|x l IH]; intros Hs Hf; cbn; [constructor|].
  inversion Hs as [|? ? Hs' Hall]; subst. constructor.
  - apply IH; auto. intros y z Hy Hz. apply Hf; now right.
  - apply Forall_forall. intros b Hb. apply in_map_iff in Hb as (y & <- & Hy).
    rewrite Forall_forall in Hall. apply Hf; auto; [now left|now right].
Qed.

Lemma until_break_incl (stop : A -> bool) (l : list A) (x : A) :
  In x (until_break stop l) -> In x l /\ stop x = false.
Proof.
  induction l as [|y l IH]; cbn; [tauto|].
  destruct (stop y) eqn:E; cbn; [tauto|].
  intros [->|H]; [auto|]. destruct (IH H). auto.
Qed.

Lemma until_break_sorted (stop : A -> bool) (l : list A) :
  StronglySorted ltA l -> StronglySorted ltA (until_break stop l).
Proof.
  induction l as [|y l IH]; intros Hs; cbn; [constructor|].
  destruct (stop y); [constructor|].
  inversion Hs as [|? ? Hs' Hall]; subst. constructor; [auto|].
  apply Forall_forall. intros x Hx. rewrite Forall_forall in Hall.
  apply Hall. now apply until_break_incl in Hx.
Qed.

Lemma sorted_NoDup (l : list A) :
  (forall x, ~ ltA x x) -> StronglySorted ltA l -> NoDup l.
Proof.
  intros Hirr. induction l as [|x l IH]; intros Hs; [constructor|].
  inversion Hs as [|? ? Hs' Hall]; subst. constructor; [|auto].
  intros Hin. rewrite Forall_forall in Hall. exact (Hirr x (Hall x Hin)).
Qed.

(** In a strictly sorted list, a member below every other member is the
    head, and a member above every other member is the last element. *)
Lemma sorted_head (l : list A) (x : A) :
  (forall a b, ltA a b -> ~ ltA b a) ->
  StronglySorted ltA l -> In x l ->
  (forall y, In y l -> ltA x y \/ x = y) ->
  hd_error l = Some x.
Proof.
  intros Hasym Hs Hin Hmin. destruct l as [|y l]; [contradiction|].
  cbn. f_equal. destruct Hin as [E|Hin]; [exact E|].
  inversion Hs as [|? ? Hs' Hall]; subst. rewrite Forall_forall in Hall.
  destruct (Hmin y (or_introl eq_refl)) as [Hlt|E]; [|now symmetry].
  exfalso. exact (Hasym _ _ Hlt (Hall x Hin)).
Qed.

Lemma sorted_last (l : list A) (x d : A) :
  (forall a b, ltA a b -> ~ ltA b a) ->
  StronglySorted ltA l -> In x l ->
  (forall y, In y l -> ltA y x \/ y = x) ->
  last l d = x.
Proof.
  intros Hasym. induction l as [|y l IH]; intros Hs Hin Hmax; [contradiction|].
  inversion Hs as [|? ? Hs' Hall]; subst. rewrite Forall_forall in Hall.
  destruct l as [|z l].
  - cbn. destruct Hin as [E|[]]. exact E.
  - change (last (y :: z :: l) d) with (last (z :: l) d).
    apply IH; auto.
    + destruct Hin as [E|Hin]; [|exact Hin]. subst y. exfalso.
      destruct (Hmax z (or_intror (or_introl eq_refl))) as [Hlt|E].
      * exact (Hasym _ _ Hlt (Hall z (or_introl eq_refl))).
      * subst z. apply (Hasym x x); apply Hall; now left.
    + intros v Hv. apply Hmax. now right.
Qed.
End SortedLists.

(** ** The buckets that are enumerated *)

Lemma bucket_lt_asym (a b : bucket) : bucket_lt a b -> ~ bucket_lt b a.
Proof.
  destruct a as [[y1 m1] w1], b as [[y2 m2] w2]. unfold bucket_lt. lia.
Qed.

Lemma bucket_lt_irrefl (a : bucket) : ~ bucket_lt a a.
Proof. intros H. exact (bucket_lt_asym a a H H). Qed.

(** The weeks visited in one month: 1 to 4, cut at [end_week] in the
    terminal month only. *)
Lemma weeks_In (ey em ew y m wk : Z) :
  In wk (until_break (past_end ey em ew y m) (Py.range 1 5)) <->
  1 <= wk <= 4 /\ ~ (y = ey /\ m = em /\ wk > ew).
Proof.
  rewrite range_1_5. unfold past_end.
  destruct (Z.eqb_spec y ey) as [Hy|Hy], (Z.eqb_spec m em) as [Hm|Hm]; cbn;
    try (split; [intros [<-|[<-|[<-|[<-|[]]]]]; lia|intros [H _]; lia]).
  destruct (Z.gtb_spec 1 ew); cbn; [lia|].
  destruct (Z.gtb_spec 2 ew); cbn; [lia|].
  destruct (Z.gtb_spec 3 ew); cbn; [lia|].
  destruct (Z.gtb_spec 4 ew); cbn; lia.
Qed.

Lemma buckets_In (sy sm sw ey em ew y m wk : Z) :
  In (y, m, wk) (buckets sy sm sw ey em ew) <->
  sy <= y <= ey /\
  (if y =? sy then sm else 1) <= m <= (if y =? ey then em else 12) /\
  1 <= wk <= 4 /\ ~ (y = ey /\ m = em /\ wk > ew).
Proof.
  unfold buckets. rewrite in_flat_map. split.
  - intros (y' & Hy & H). apply in_flat_map in H as (m' & Hm & H).
    apply in_map_iff in H as (wk' & E & Hw). inversion E; subst.
    apply range_In in Hy, Hm. apply weeks_In in Hw. lia.
  - intros (Hy & Hm & Hw). exists y. split; [apply range_In; lia|].
    apply in_flat_map. exists m. split; [apply range_In; lia|].
    apply in_map_iff. exists wk. split; [reflexivity|]. now apply weeks_In.
Qed.

Lemma buckets_sorted (sy sm sw ey em ew : Z) :
  StronglySorted bucket_lt (buckets sy sm sw ey em ew).
Proof.
  unfold buckets.
  apply sorted_flat_map with (ltA := Z.lt); [apply range_sorted| |].
  - intros y _.
    apply sorted_flat_map with (ltA := Z.lt); [apply range_sorted| |].
    + intros m _. apply sorted_map with (ltA := Z.lt).
      * apply until_break_sorted, range_sorted.
      * intros a b _ _ Hab. cbn. lia.
    + intros m1 m2 a b _ _ Hlt Ha Hb.
      apply in_map_iff in Ha as (w1 & <- & _).
      apply in_map_iff in Hb as (w2 & <- & _). cbn. lia.
  - intros y1 y2 a b _ _ Hlt Ha Hb.
    apply in_flat_map in Ha as (m1 & _ & Ha).
    apply in_flat_map in Hb as (m2 & _ & Hb).
    apply in_map_iff in Ha as (w1 & <- & _).
    apply in_map_iff in Hb as (w2 & <- & _). cbn. lia.
Qed.

Lemma buckets_NoDup (sy sm sw ey em ew : Z) :
  NoDup (buckets sy sm sw ey em ew).
Proof.
  apply sorted_NoDup with (ltA := bucket_lt);
    [apply bucket_lt_irrefl|apply buckets_sorted].
Qed.

(** An end (year, month) before the start (year, month) leaves nothing to
    enumerate. *)
Lemma buckets_empty (sy sm sw ey em ew : Z) :
  ey < sy \/ (ey = sy /\ em < sm) -> buckets sy sm sw ey em ew = [].
Proof.
  intros H. destruct (buckets sy sm sw ey em ew) as [|[[y m] wk] l] eqn:E;
    [reflexivity|].
  assert (Hin : In (y, m, wk) (buckets sy sm sw ey em ew))
    by (rewrite E; now left).
  apply buckets_In in Hin. exfalso.
  destruct Hin as (Hy & Hm & _).
  destruct (Z.eqb_spec y sy), (Z.eqb_spec y ey); lia.
Qed.

(** ** Bucket URLs determine their bucket *)

Lemma digits_no_amp (d : Decimal.uint) :
  Py.has_char "&" (NilEmpty.string_of_uint d) = false.
Proof. induction d; cbn; auto. Qed.

Lemma str_of_int_no_amp (n : Z) : Py.has_char "&" (Py.str_of_int n) = false.
Proof.
  unfold Py.str_of_int, NilZero.string_of_int, NilZero.string_of_uint.
  destruct (Z.to_int n) as [d|d]; destruct d; cbn; auto using digits_no_amp.
Qed.

Lemma str_of_int_inj (n n' : Z) : Py.str_of_int n = Py.str_of_int n' -> n = n'.
Proof.
  unfold Py.str_of_int. intros E. apply DecimalZ.to_int_inj.
  assert (N : forall z, Z.to_int z <> Decimal.Pos Decimal.Nil /\
                        Z.to_int z <> Decimal.Neg Decimal.Nil).
  { intros [|p|p]; cbn; split; try discriminate;
      intros [= H]; exact (DecimalPos.Unsigned.to_uint_nonnil p H). }
  apply (f_equal NilZero.int_of_string) in E.
  rewrite !NilZero.isi in E by apply N. now injection E.
Qed.

Lemma append_inj_l (p x y : string) : (p ++ x = p ++ y)%string -> x = y.
Proof. induction p as [|c p IH]; cbn; [auto|]. intros [= E]. auto. Qed.

(** Two texts free of [c] that are followed by [c] and agree as a whole
    agree part by part. *)
Lemma split_at_char (c : ascii) (a1 a2 r1 r2 : string) :
  Py.has_char c a1 = false -> Py.has_char c a2 = false ->
  (a1 ++ String c r1 = a2 ++ String c r2)%string -> a1 = a2 /\ r1 = r2.
Proof.
  revert a2. induction a1 as [|x a1 IH]; intros [|y a2]; cbn; intros H1 H2 E.
  - injection E as E. auto.
  - injection E as Ec E. subst y. rewrite Ascii.eqb_refl in H2. discriminate.
  - injection E as Ec E. subst x. rewrite Ascii.eqb_refl in H1. discriminate.
  - injection E as Ec E. subst y.
    apply orb_false_iff in H1 as [_ H1]. apply orb_false_iff in H2 as [_ H2].
    destruct (IH a2 H1 H2 E) as [-> ->]. auto.
Qed.

Lemma bucket_url_inj (b1 b2 : bucket) : bucket_url b1 = bucket_url b2 -> b1 = b2.
Proof.
  destruct b1 as [[y1 m1] w1], b2 as [[y2 m2] w2]. unfold bucket_url.
  intros E. apply append_inj_l in E.
  change ("&month=" ++ ?x)%string with (String "&" ("month=" ++ x))%string in E.
  apply split_at_char in E as [Ey E]; auto using str_of_int_no_amp.
  apply append_inj_l in E.
  change ("&week=" ++ ?x)%string with (String "&" ("week=" ++ x))%string in E.
  apply split_at_char in E as [Em E]; auto using str_of_int_no_amp.
  apply append_inj_l in E.
  apply str_of_int_inj in Ey, Em, E. now subst.
Qed.

Lemma bucket_urls_NoDup (bs : list bucket) :
  NoDup bs -> NoDup (map bucket_url bs).
Proof.
  induction 1 as [|b bs Hb _ IH]; cbn; constructor; [|exact IH].
  intros Hin. apply in_map_iff in Hin as (b' & E & Hb').
  apply bucket_url_inj in E. now subst.
Qed.

Lemma NoDup_app_disjoint {A} (l1 l2 : list A) :
  NoDup (l1 ++ l2) -> forall a, In a l1 -> ~ In a l2.
Proof.
  induction l1 as [|x l1 IH]; cbn; intros H a Ha; [contradiction|].
  inversion H as [|? ? Hx Hnd]; subst. destruct Ha as [->|Ha].
  - intros Hin. apply Hx, in_or_app. now right.
  - now apply IH.
Qed.

(** ** Dictionaries *)

Lemma dict_set_fresh {V} (k : string) (v : V) (d : dict V) :
  ~ In k (map fst d) -> dict_set k v d = d ++ [(k, v)].
Proof.
  induction d as [|[k' v'] d IH]; cbn; intros H; [reflexivity|].
  destruct (String.eqb_spec k' k) as [->|_]; [tauto|].
  f_equal. apply IH. tauto.
Qed.

Lemma dict_get_app_fresh {V} (k : string) (d1 d2 : dict V) :
  ~ In k (map fst d2) -> dict_get k (d1 ++ d2) = dict_get k d1.
Proof.
  intros H. induction d1 as [|[k' v'] d1 IH]; cbn.
  - induction d2 as [|[k' v'] d2 IH]; cbn in *; [reflexivity|].
    destruct (String.eqb_spec k' k) as [->|_]; [tauto|]. apply IH. tauto.
  - destruct (String.eqb k' k); auto.
Qed.

Lemma dict_get_last {V} (k : string) (v : V) (d : dict V) :
  ~ In k (map fst d) -> dict_get k (d ++ [(k, v)]) = Some v.
Proof.
  induction d as [|[k' v'] d IH]; cbn; intros H.
  - now rewrite String.eqb_refl.
  - destruct (String.eqb_spec k' k) as [->|_]; [tauto|]. apply IH. tauto.
Qed.

(** ** Loops *)

Lemma for_each_ext {X S} (xs : list X) (body1 body2 : X -> S -> M (flow S)) :
  (forall x s w, body1 x s w = body2 x s w) ->
  forall s w, for_each xs body1 s w = for_each xs body2 s w.
Proof.
  intros H. induction xs as [|x xs IH]; intros s w; cbn; [reflexivity|].
  unfold bind. rewrite H. destruct (body2 x s w) as [[[s'|s']|e] w']; auto.
Qed.

Section AppFacts.
Context {U : Urllib} {K : Markup}.
Import Robotparser.

Lemma visit_all_app (rp : RobotFileParser) (bs1 bs2 : list bucket)
      (st : crawl_state) (w : World) :
  visit_all rp (bs1 ++ bs2) st w =
  (st1 <- visit_all rp bs1 st ;; visit_all rp bs2 st1) w.
Proof.
  revert st w. induction bs1 as [|b bs1 IH]; intros st w; cbn; [reflexivity|].
  unfold bind.
  destruct (visit_bucket rp b st w) as [[st'|e] w']; [|reflexivity].
  rewrite IH. reflexivity.
Qed.

(** A loop whose body runs an inner loop over [f x] visits the buckets of
    [flat_map f xs]. *)
Lemma for_each_visits (rp : RobotFileParser) {X} (f : X -> list bucket)
      (xs : list X) (body : X -> crawl_state -> M crawl_state) :
  (forall x st w, body x st w = visit_all rp (f x) st w) ->
  forall st w,
    for_each xs (fun x st => st <- body x st ;; ret (Next st)) st w =
    visit_all rp (flat_map f xs) st w.
Proof.
  intros H. induction xs as [|x xs IH]; intros st w; cbn; [reflexivity|].
  rewrite visit_all_app. unfold bind. rewrite H.
  destruct (visit_all rp (f x) st w) as [[st'|e] w']; cbn; auto.
Qed.

(** The week loop with its [break]. *)
Lemma week_loop_visits (rp : RobotFileParser) (stop : Z -> bool)
      (mk : Z -> bucket) (weeks : list Z) (st : crawl_state) (w : World) :
  for_each weeks (fun week st =>
    if stop week then ret (Break st)
    else st <- visit_bucket rp (mk week) st ;; ret (Next st)) st w =
  visit_all rp (map mk (until_break stop weeks)) st w.
Proof.
  revert st w. induction weeks as [|x xs IH]; intros st w; cbn; [reflexivity|].
  destruct (stop x); cbn; [reflexivity|].
  unfold bind.
  destruct (visit_bucket rp (mk x) st w) as [[st'|e] w']; cbn; auto.
Qed.

(** [get_content_urls] runs the loop body on [buckets], in that order. *)
Lemma get_content_urls_visits (rp : RobotFileParser)
      (sy sm sw ey em ew : Z) (w : World) :
  get_content_urls rp sy sm sw ey em ew w =
  visit_all rp (buckets sy sm sw ey em ew) ([], 0, 0) w.
Proof.
  unfold get_content_urls, buckets.
  apply for_each_visits with
    (body := fun year st =>
       for_each (Py.range (if year =? sy then sm else 1)
                          ((if year =? ey then em else 12) + 1))
         (fun month st =>
            st <- for_each (Py.range 1 5) (fun week st =>
              if (year =? ey) && (month =? em) && (week >? ew)
              then ret (Break st)
              else st <- visit_bucket rp (year, month, week) st ;;
                   ret (Next st)) st ;;
            ret (Next st)) st).
  intros year st0 w0.
  apply for_each_visits with
    (body := fun month st =>
       for_each (Py.range 1 5) (fun week st =>
         if (year =? ey) && (month =? em) && (week >? ew)
         then ret (Break st)
         else st <- visit_bucket rp (year, month, week) st ;;
              ret (Next st)) st).
  intros month st1 w1.
  apply (week_loop_visits rp (past_end ey em ew year month)
                          (fun week => (year, month, week))).
Qed.
End AppFacts.

(** ** The enumeration, bucket by bucket *)

Section EnumerationFacts.
Context {U : Urllib} {K : Markup}.
Import Robotparser.

(** The [try] block around the sitemap fetch never lets an exception out. *)
Lemma bucket_urls_returns (u : string) (w : World) :
  exists urls w', bucket_urls u w = (Val urls, w').
Proof.
  unfold bucket_urls, try_except.
  destruct ((resp <- fetch_url u ;; lift (xml_locs (content resp))) w)
    as [[urls|e] w']; [eauto|unfold ret; eauto].
Qed.

Lemma bucket_urls_failed (u : string) (w w' : World) (e : exn) :
  (resp <- fetch_url u ;; lift (xml_locs (content resp))) w = (Exc e, w') ->
  bucket_urls u w = (Val [], w').
Proof. intros H. unfold bucket_urls, try_except. now rewrite H. Qed.

Lemma crawlable_of_length (rp : RobotFileParser)
      (urls crawlable : list (option string)) :
  crawlable_of rp urls = Val crawlable -> 0 <= len crawlable <= len urls.
Proof.
  unfold len. revert crawlable.
  induction urls as [|u urls IH]; cbn; intros c H.
  - injection H as <-. cbn. lia.
  - destruct (can_fetch rp "*" u) as [keep|]; [|discriminate].
    destruct (crawlable_of rp urls) as [rest|]; [|discriminate].
    injection H as <-. specialize (IH rest eq_refl).
    destruct keep; cbn [List.length]; lia.
Qed.

(** Every kept URL passed [can_fetch], and the order is that of [urls]. *)
Lemma crawlable_of_filter (rp : RobotFileParser)
      (urls crawlable : list (option string)) :
  crawlable_of rp urls = Val crawlable ->
  crawlable =
  filter (fun u => match can_fetch rp "*" u with Val b => b | Exc _ => false end)
         urls.
Proof.
  revert crawlable. induction urls as [|u urls IH]; cbn; intros c H.
  - now injection H as <-.
  - destruct (can_fetch rp "*" u) as [keep|]; [|discriminate].
    destruct (crawlable_of rp urls) as [rest|]; [|discriminate].
    injection H as <-. rewrite (IH rest eq_refl). now destruct keep.
Qed.

Lemma visit_all_entries (rp : RobotFileParser) (bs : list bucket) :
  NoDup (map bucket_url bs) ->
  forall m0 tc0 ta0 w m tc ta w',
    (forall b, In b bs -> ~ In (bucket_url b) (map fst m0)) ->
    visit_all rp bs (m0, tc0, ta0) w = (Val (m, tc, ta), w') ->
    let es := entries_of rp bs w in
    m = m0 ++ map entry_pair es /\
    tc = tc0 + Zsum (map (fun e => len (discoveredURLs e)) es) /\
    ta = ta0 + Zsum (map (fun e => len (allowedURLs e)) es) /\
    map bucketURL es = map bucket_url bs /\
    Forall (fun e => crawlable_of rp (discoveredURLs e) = Val (allowedURLs e))
           es.
Proof.
  induction bs as [|b bs IH]; intros Hnd m0 tc0 ta0 w m tc ta w' Hfresh H.
  - cbn in H. injection H as <- <- <- <-. cbn.
    rewrite app_nil_r, !Z.add_0_r. auto.
  - cbn [visit_all] in H. unfold visit_bucket in H.
    unfold bind, lift, ret in H.
    cbn [entries_of].
    destruct (bucket_urls (bucket_url b) w) as [[urls|e] w1];
      [|discriminate].
    destruct (crawlable_of rp urls) as [c|e] eqn:Ec; [|discriminate].
    cbn [map] in Hnd. inversion Hnd as [|? ? Hb Hnd']; subst.
    rewrite dict_set_fresh in H by (apply Hfresh; now left).
    apply IH in H; [|exact Hnd'|].
    + destruct H as (Hm & Htc & Hta & Hk & Hall). cbn.
      repeat split.
      * rewrite Hm, <- app_assoc. reflexivity.
      * unfold Zsum in Htc. lia.
      * unfold Zsum in Hta. lia.
      * now f_equal.
      * constructor; [exact Ec|exact Hall].
    + intros b' Hb'. rewrite map_app, in_app_iff. cbn.
      intros [Hin|[E|[]]].
      * exact (Hfresh b' (or_intror Hb') Hin).
      * apply Hb. rewrite E. now apply in_map.
Qed.

Lemma Zsum_len_le (es : list SitemapEntry) (rp : RobotFileParser) :
  Forall (fun e => crawlable_of rp (discoveredURLs e) = Val (allowedURLs e))
         es ->
  0 <= Zsum (map (fun e => len (allowedURLs e)) es)
    <= Zsum (map (fun e => len (discoveredURLs e)) es).
Proof.
  unfold Zsum. induction 1 as [|e es He _ IH]; cbn [map fold_right]; [lia|].
  apply crawlable_of_length in He. lia.
Qed.
End EnumerationFacts.

(** ** [fetch_url]: attempts, waits and results *)

Lemma fetch_url_body_eq (url : string) (w : World) :
  fetch_url_body url w =
  (attempt_result (net w (log w) url), record (EGet url) w).
Proof.
  unfold fetch_url_body, bind, requests_get, raise_for_status, attempt_result.
  destruct (net w (log w) url) as [|status body|]; try reflexivity.
  cbn [status_code].
  destruct ((400 <=? status) && (status <? 600)); reflexivity.
Qed.

Lemma attempt_result_retriable (o : http_outcome) :
  match attempt_result o with
  | Exc e => retry_if_exception_type e = retriable o
  | Val _ => retriable o = false
  end.
Proof.
  destruct o as [|status body|]; cbn; try reflexivity.
  destruct ((400 <=? status) && (status <? 600)); reflexivity.
Qed.

(** The three attempts of [fetch_url], written out. *)
Lemma fetch_url_eq (url : string) (w : World) :
  fetch_url url w =
  let o1 := net w (log w) url in
  let w1 := record (EGet url) w in
  if retriable o1 then
    let w1' := record (ESleep 2) w1 in
    let o2 := net w (log w1') url in
    let w2 := record (EGet url) w1' in
    if retriable o2 then
      let w2' := record (ESleep 2) w2 in
      let o3 := net w (log w2') url in
      let w3 := record (EGet url) w2' in
      if retriable o3 then (Exc RetryError, w3) else (attempt_result o3, w3)
    else (attempt_result o2, w2)
  else (attempt_result o1, w1).
Proof.
  unfold fetch_url. cbn [retrying]. unfold bind, sleep.
  change (wait_exponential 1 2 10 1) with 2.
  change (wait_exponential 1 2 10 (1 + 1)) with 2.
  change (stop_after_attempt 3 1) with false.
  change (stop_after_attempt 3 (1 + 1)) with false.
  change (stop_after_attempt 3 (1 + 1 + 1)) with true.
  cbv zeta. rewrite fetch_url_body_eq.
  pose proof (attempt_result_retriable (net w (log w) url)) as H1.
  destruct (attempt_result (net w (log w) url)) as [v1|e1].
  { rewrite H1. reflexivity. }
  rewrite H1. destruct (retriable (net w (log w) url)); [|reflexivity].
  rewrite fetch_url_body_eq.
  change (net (record (ESleep 2) (record (EGet url) w))) with (net w).
  set (w1 := record (ESleep 2) (record (EGet url) w)).
  pose proof (attempt_result_retriable (net w (log w1) url)) as H2.
  destruct (attempt_result (net w (log w1) url)) as [v2|e2].
  { rewrite H2. reflexivity. }
  rewrite H2. destruct (retriable (net w (log w1) url)); [|reflexivity].
  rewrite fetch_url_body_eq.
  change (net (record (ESleep 2) (record (EGet url) w1))) with (net w).
  set (w2 := record (ESleep 2) (record (EGet url) w1)).
  pose proof (attempt_result_retriable (net w (log w2) url)) as H3.
  destruct (attempt_result (net w (log w2) url)) as [v3|e3].
  { rewrite H3. reflexivity. }
  rewrite H3. destruct (retriable (net w (log w2) url)); reflexivity.
Qed.

(** [fetch_url] stops after the first attempt whose failure is not
    retriable, and after the third attempt at the latest. *)
Lemma fetch_url_cases (url : string) (w : World) :
  exists (n : nat) (r : res response),
    fetch_url url w =
    (r, mkWorld (net w)
                (log w ++ attempt_events (wait_exponential 1 2 10) url n)) /\
    (1 <= n <= 3)%nat /\
    (forall k, (1 <= k < n)%nat -> retriable (outcome_of_attempt url w k) = true) /\
    r = (if retriable (outcome_of_attempt url w n) then Exc RetryError
         else attempt_result (outcome_of_attempt url w n)) /\
    (retriable (outcome_of_attempt url w n) = true -> n = 3%nat).
Proof.
  rewrite fetch_url_eq. cbv zeta. unfold outcome_of_attempt, record.
  cbn [net log].
  change (wait_exponential 1 2 10) with (wait_exponential 1 2 10).
  assert (E1 : forall k, (1 <= k < 2)%nat -> k = 1%nat) by lia.
  assert (E2 : forall k, (1 <= k < 3)%nat -> k = 1%nat \/ k = 2%nat) by lia.
  destruct (retriable (net w (log w) url)) eqn:R1.
  - destruct (retriable (net w ((log w ++ [EGet url]) ++ [ESleep 2]) url))
      eqn:R2.
    + exists 3%nat.
      exists (if retriable
                   (net w (log w ++ [EGet url; ESleep 2; EGet url; ESleep 2])
                        url)
              then Exc RetryError
              else attempt_result
                     (net w (log w ++ [EGet url; ESleep 2; EGet url; ESleep 2])
                          url)).
      split; [|split; [lia|split; [|split]]].
      * cbn. rewrite <- ?app_assoc. cbn [app].
        destruct (retriable
                    (net w (log w ++ [EGet url; ESleep 2; EGet url; ESleep 2])
                         url)); reflexivity.
      * intros k Hk. destruct (E2 k Hk) as [-> | ->]; cbn.
        -- now rewrite app_nil_r.
        -- rewrite <- app_assoc in R2. exact R2.
      * cbn. rewrite <- ?app_assoc. reflexivity.
      * reflexivity.
    + exists 2%nat. eexists. split; [|split; [lia|split; [|split]]].
      * cbn. rewrite <- ?app_assoc. cbn [app]. reflexivity.
      * intros k Hk. rewrite (E1 k Hk). cbn. now rewrite app_nil_r.
      * cbn. rewrite <- app_assoc in R2. cbn [app] in R2. rewrite R2.
        rewrite <- ?app_assoc. reflexivity.
      * cbn. rewrite <- app_assoc in R2. cbn [app] in R2. rewrite R2.
        discriminate.
  - exists 1%nat. eexists. split; [|split; [lia|split; [|split]]].
    + cbn. reflexivity.
    + intros k Hk. lia.
    + cbn. rewrite app_nil_r, R1. reflexivity.
    + cbn. rewrite app_nil_r, R1. discriminate.
Qed.

Lemma wait_exponential_formula (k : Z) :
  2 <= k ->
  wait_exponential 1 2 10 (k - 1) = Z.min (Z.max 2 (1 * 2 ^ (k - 2))) 10 /\
  2 <= wait_exponential 1 2 10 (k - 1) <= 10 /\
  wait_exponential 1 2 10 (k - 1) <= wait_exponential 1 2 10 k.
Proof.
  intros Hk. unfold wait_exponential. cbv zeta.
  replace (k - 1 - 1) with (k - 2) by lia.
  assert (Hm : 2 ^ (k - 2) <= 2 ^ (k - 1))
    by (apply Z.pow_le_mono_r; lia).
  lia.
Qed.

(** C3. [fetch_url] makes at most 3 attempts and retries only after a
    transport failure or an error status; the wait before attempt [k >= 2]
    is [min(max(2, 1 * 2^(k-2)), 10)] seconds, within [2, 10] and
    non-decreasing; two failures followed by a success return the response
    after exactly two waits; three failures raise with no further attempt. *)
Theorem fetch_url_retry_policy :
  (forall k, 2 <= k ->
     wait_exponential 1 2 10 (k - 1) = Z.min (Z.max 2 (1 * 2 ^ (k - 2))) 10 /\
     2 <= wait_exponential 1 2 10 (k - 1) <= 10 /\
     wait_exponential 1 2 10 (k - 1) <= wait_exponential 1 2 10 k) /\
  (forall url w, exists n,
     (1 <= n <= 3)%nat /\
     snd (fetch_url url w) =
     mkWorld (net w)
             (log w ++ attempt_events (wait_exponential 1 2 10) url n) /\
     (forall k, (1 <= k < n)%nat ->
                retriable (outcome_of_attempt url w k) = true) /\
     fst (fetch_url url w) <> Exc OutOfFuel) /\
  (forall url w,
     retriable (net w (log w) url) = false ->
     fetch_url url w =
     (attempt_result (net w (log w) url), record (EGet url) w)) /\
  (forall url w status body,
     retriable (net w (log w) url) = true ->
     retriable (net w (log w ++ [EGet url; ESleep 2]) url) = true ->
     net w (log w ++ [EGet url; ESleep 2; EGet url; ESleep 2]) url
       = Response status body ->
     retriable (Response status body) = false ->
     fetch_url url w =
     (Val (mkResponse status body),
      mkWorld (net w)
        (log w ++ [EGet url; ESleep 2; EGet url; ESleep 2; EGet url]))) /\
  (forall url w,
     retriable (net w (log w) url) = true ->
     retriable (net w (log w ++ [EGet url; ESleep 2]) url) = true ->
     retriable (net w (log w ++ [EGet url; ESleep 2; EGet url; ESleep 2]) url)
       = true ->
     fetch_url url w =
     (Exc RetryError,
      mkWorld (net w)
        (log w ++ [EGet url; ESleep 2; EGet url; ESleep 2; EGet url]))).
Proof.
  split; [exact wait_exponential_formula|].
  split; [|split; [|split]].
  - intros url w.
    destruct (fetch_url_cases url w) as (n & r & E & Hn & Hk & Hr & _).
    exists n. rewrite E. cbn [fst snd]. repeat split; try lia; auto.
    rewrite Hr. destruct (retriable (outcome_of_attempt url w n));
      [discriminate|].
    destruct (outcome_of_attempt url w n) as [|status body|]; cbn;
      try discriminate.
    destruct ((400 <=? status) && (status <? 600)); discriminate.
  - intros url w R1. rewrite fetch_url_eq. cbv zeta. now rewrite R1.
  - intros url w status body R1 R2 O3 R3.
    rewrite fetch_url_eq. cbv zeta. unfold record. cbn [net log].
    rewrite <- !app_assoc. cbn [app]. rewrite R1, R2, O3, R3.
    cbn in R3. cbn. now rewrite R3.
  - intros url w R1 R2 R3.
    rewrite fetch_url_eq. cbv zeta. unfold record. cbn [net log].
    rewrite <- !app_assoc. cbn [app]. now rewrite R1, R2, R3.
Qed.

(** Two failures, then a response. *)
Lemma fetch_url_retry_policy_witness :
  fetch_url "https://www.bonappetit.com/recipe/a"
            (mkWorld (net_failing_first 2 "page") [])
  = (Val (mkResponse 200 "page"),
     mkWorld (net_failing_first 2 "page")
       ([] ++ [EGet "https://www.bonappetit.com/recipe/a"; ESleep 2;
               EGet "https://www.bonappetit.com/recipe/a"; ESleep 2;
               EGet "https://www.bonappetit.com/recipe/a"])).
Proof.
  exact (proj1 (proj2 (proj2 (proj2 fetch_url_retry_policy)))
               "https://www.bonappetit.com/recipe/a"
               (mkWorld (net_failing_first 2 "page") []) 200 "page"
               eq_refl eq_refl eq_refl eq_refl).
Defined.

(** The recursion bound of [retrying] does not matter once it covers the
    attempts that [stop_after_attempt] leaves. *)
Lemma retrying_fuel {A} (wait : Z -> Z) (retry_if : exn -> bool) (fn : M A)
      (max_attempt_number : Z) (fuel1 fuel2 : nat) :
  forall k w,
    max_attempt_number - k <= Z.of_nat fuel1 ->
    max_attempt_number - k <= Z.of_nat fuel2 ->
    retrying (stop_after_attempt max_attempt_number) wait retry_if fn fuel1 k w =
    retrying (stop_after_attempt max_attempt_number) wait retry_if fn fuel2 k w.
Proof.
  revert fuel2. induction fuel1 as [|f1 IH]; intros fuel2 k w H1 H2;
    destruct fuel2 as [|f2]; try reflexivity; cbn;
    destruct (fn w) as [[v|e] w1]; try reflexivity;
    destruct (retry_if e); try reflexivity;
    unfold stop_after_attempt; destruct (Z.geb_spec k max_attempt_number);
    try reflexivity; try lia.
  unfold bind, sleep. apply IH; lia.
Qed.

Lemma fetch_url_any_fuel (url : string) (fuel : nat) (w : World) :
  (2 <= fuel)%nat ->
  retrying (stop_after_attempt 3) (wait_exponential 1 2 10)
           retry_if_exception_type (fetch_url_body url) fuel 1 w =
  fetch_url url w.
Proof. intros H. unfold fetch_url. apply retrying_fuel; lia. Qed.

(** ** What the functions do to the world *)

Lemma only_fetches_app (urls : list string) (es1 es2 : list event) :
  only_fetches urls es1 -> only_fetches urls es2 ->
  only_fetches urls (es1 ++ es2).
Proof. intros H1 H2. apply Forall_app. auto. Qed.

Lemma only_fetches_mono (urls urls' : list string) (es : list event) :
  incl urls urls' -> only_fetches urls es -> only_fetches urls' es.
Proof.
  intros Hi H. eapply Forall_impl; [|exact H].
  intros [u|u|s]; auto.
Qed.

Lemma retry_events_only (wait : Z -> Z) (url : string) (n : nat) (k : Z) :
  only_fetches [url] (retry_events wait url k n).
Proof.
  revert k. induction n as [|n IH]; intros k; cbn; constructor; [exact I|].
  constructor; [now left|apply IH].
Qed.

Lemma attempt_events_only (wait : Z -> Z) (url : string) (n : nat) :
  only_fetches [url] (attempt_events wait url n).
Proof.
  destruct n as [|n]; cbn; constructor; [now left|apply retry_events_only].
Qed.

(** [fetch_url] starts with a request for its URL and logs requests for
    that URL and sleeps only. *)
Lemma fetch_url_world (url : string) (w : World) :
  exists es,
    snd (fetch_url url w) = mkWorld (net w) (log w ++ EGet url :: es) /\
    only_fetches [url] (EGet url :: es).
Proof.
  destruct (fetch_url_cases url w) as (n & r & E & Hn & _).
  rewrite E. cbn [snd].
  destruct n as [|n]; [lia|]. cbn [attempt_events].
  eexists. split; [reflexivity|].
  apply (attempt_events_only (wait_exponential 1 2 10) url (S n)).
Qed.

Section WorldFacts.
Context {U : Urllib} {K : Markup}.
Import Robotparser.

Lemma bucket_urls_world (u : string) (w : World) :
  snd (bucket_urls u w) = snd (fetch_url u w).
Proof.
  unfold bucket_urls, try_except, bind, lift, ret.
  destruct (fetch_url u w) as [[resp|e] w1]; cbn [snd]; [|reflexivity].
  destruct (xml_locs (content resp)); reflexivity.
Qed.

Lemma visit_bucket_world (rp : RobotFileParser) (b : bucket)
      (st : crawl_state) (w : World) :
  snd (visit_bucket rp b st w) = snd (fetch_url (bucket_url b) w).
Proof.
  destruct st as [[m tc] ta]. unfold visit_bucket.
  rewrite <- bucket_urls_world. unfold bind, lift, ret.
  destruct (bucket_urls (bucket_url b) w) as [[urls|e] w1]; cbn [snd];
    [|reflexivity].
  destruct (crawlable_of rp urls); reflexivity.
Qed.

Lemma visit_all_world (rp : RobotFileParser) (bs : list bucket) :
  forall st w, exists es,
    snd (visit_all rp bs st w) = mkWorld (net w) (log w ++ es) /\
    only_fetches (map bucket_url bs) es /\
    (forall b bs', bs = b :: bs' ->
                   exists tl, es = EGet (bucket_url b) :: tl).
Proof.
  induction bs as [|b bs IH]; intros st w.
  - exists []. cbn. rewrite app_nil_r. destruct w. repeat split.
    + constructor.
    + discriminate.
  - cbn [visit_all]. unfold bind.
    pose proof (visit_bucket_world rp b st w) as Hw.
    destruct (fetch_url_world (bucket_url b) w) as (es1 & E1 & O1).
    rewrite E1 in Hw.
    destruct (visit_bucket rp b st w) as [[st1|e] w1]; cbn [snd] in Hw;
      subst w1.
    + destruct (IH st1 (mkWorld (net w) (log w ++ EGet (bucket_url b) :: es1)))
        as (es2 & E2 & O2 & _).
      exists ((EGet (bucket_url b) :: es1) ++ es2). rewrite E2.
      cbn [net log]. rewrite <- app_assoc. repeat split.
      * apply only_fetches_app.
        -- eapply only_fetches_mono; [|exact O1].
           intros x [<-|[]]. now left.
        -- eapply only_fetches_mono; [|exact O2].
           intros x Hx. now right.
      * intros b' bs' [= <- <-]. cbn. eauto.
    + exists (EGet (bucket_url b) :: es1). cbn [snd]. repeat split.
      * eapply only_fetches_mono; [|exact O1]. intros x [<-|[]]. now left.
      * intros b' bs' [= <- <-]. eauto.
Qed.

(** [get_content_urls] requests bucket URLs only; it never downloads with
    [urlopen]. *)
Lemma get_content_urls_world (rp : RobotFileParser)
      (sy sm sw ey em ew : Z) (w : World) :
  exists es,
    snd (get_content_urls rp sy sm sw ey em ew w)
      = mkWorld (net w) (log w ++ es) /\
    only_fetches (map bucket_url (buckets sy sm sw ey em ew)) es.
Proof.
  rewrite get_content_urls_visits.
  destruct (visit_all_world rp (buckets sy sm sw ey em ew) ([], 0, 0) w)
    as (es & E & O & _).
  eauto.
Qed.

Lemma get_content_urls_keys (rp : RobotFileParser)
      (sy sm sw ey em ew : Z) (w w' : World)
      (m : dict (list (option string))) (tc ta : Z) :
  get_content_urls rp sy sm sw ey em ew w = (Val (m, tc, ta), w') ->
  map fst m = map bucket_url (buckets sy sm sw ey em ew).
Proof.
  rewrite get_content_urls_visits. intros H.
  apply visit_all_entries in H.
  - destruct H as (Hm & _ & _ & Hk & _). rewrite Hm. cbn [app].
    rewrite map_map. exact Hk.
  - apply bucket_urls_NoDup, buckets_NoDup.
  - intros b _ [].
Qed.

(** X10. With the end (year, month) before the start (year, month) the
    enumeration returns the empty mapping and zero totals without a single
    request. *)
Lemma get_content_urls_empty_range (rp : RobotFileParser)
      (sy sm sw ey em ew : Z) (w : World) :
  ey < sy \/ (ey = sy /\ em < sm) ->
  get_content_urls rp sy sm sw ey em ew w = (Val ([], 0, 0), w).
Proof.
  intros H. rewrite get_content_urls_visits, buckets_empty by exact H.
  reflexivity.
Qed.
End WorldFacts.

(** ** Claims about the enumeration *)

Ltac eqb_cases :=
  repeat match goal with
         | H : context [?a =? ?b] |- _ => destruct (Z.eqb_spec a b)
         | |- context [?a =? ?b] => destruct (Z.eqb_spec a b)
         end.

Lemma buckets_In_valid (sy sm sw ey em ew y m wk : Z) :
  1 <= sm <= 12 -> 1 <= em <= 12 -> 1 <= ew <= 4 ->
  (In (y, m, wk) (buckets sy sm sw ey em ew) <->
   bucket_le (sy, sm, 1) (y, m, wk) /\ bucket_le (y, m, wk) (ey, em, ew) /\
   1 <= m <= 12 /\ 1 <= wk <= 4).
Proof.
  intros Hsm Hem Hew. rewrite buckets_In. unfold bucket_le.
  split; intros H; eqb_cases; lia.
Qed.

(** C1 (amended). For months in 1..12, weeks in 1..4 and a start bucket not
    after the end bucket, the buckets come in strictly increasing
    chronological order without duplicates, end with the end bucket, and
    start with the start bucket when the start week is 1. The buckets
    enumerated are exactly the valid ones from week 1 of the start month to
    the end bucket: every month before the terminal month has weeks 1 to 4,
    the terminal month has weeks 1 to [ew]. The mapping returned lists the
    bucket URLs in this order. *)
Theorem enumerate_chronological (sy sm sw ey em ew : Z) :
  1 <= sm <= 12 -> 1 <= sw <= 4 -> 1 <= em <= 12 -> 1 <= ew <= 4 ->
  bucket_le (sy, sm, sw) (ey, em, ew) ->
  let bs := buckets sy sm sw ey em ew in
  StronglySorted bucket_lt bs /\
  NoDup bs /\
  (sw = 1 -> hd_error bs = Some (sy, sm, sw)) /\
  last bs (sy, sm, sw) = (ey, em, ew) /\
  (forall y m wk,
      In (y, m, wk) bs <->
      bucket_le (sy, sm, 1) (y, m, wk) /\ bucket_le (y, m, wk) (ey, em, ew) /\
      1 <= m <= 12 /\ 1 <= wk <= 4) /\
  (forall y m wk,
      sy < y \/ (y = sy /\ sm <= m) -> y < ey \/ (y = ey /\ m < em) ->
      1 <= m <= 12 -> 1 <= wk <= 4 -> In (y, m, wk) bs) /\
  (forall wk, In (ey, em, wk) bs <-> 1 <= wk <= ew) /\
  (forall (U : Urllib) (K : Markup) rp w m tc ta w',
      get_content_urls rp sy sm sw ey em ew w = (Val (m, tc, ta), w') ->
      map fst m = map bucket_url bs).
Proof.
  intros Hsm Hsw Hem Hew Hle bs.
  assert (Hin : forall y m wk,
             In (y, m, wk) bs <->
             bucket_le (sy, sm, 1) (y, m, wk) /\
             bucket_le (y, m, wk) (ey, em, ew) /\
             1 <= m <= 12 /\ 1 <= wk <= 4)
    by (intros; now apply buckets_In_valid).
  assert (Hs : StronglySorted bucket_lt bs) by apply buckets_sorted.
  unfold bucket_le in Hle.
  split; [exact Hs|]. split; [apply buckets_NoDup|].
  split; [|split; [|split; [exact Hin|split; [|split]]]].
  - intros ->. apply sorted_head with (ltA := bucket_lt);
      [exact bucket_lt_asym|exact Hs| |].
    + apply Hin. unfold bucket_le. lia.
    + intros [[y m] wk] Hy. apply Hin in Hy. unfold bucket_le in Hy.
      assert (C : bucket_lt (sy, sm, 1) (y, m, wk) \/
                  (y = sy /\ m = sm /\ wk = 1))
        by (unfold bucket_lt; lia).
      destruct C as [C|(-> & -> & ->)]; auto.
  - apply sorted_last with (ltA := bucket_lt);
      [exact bucket_lt_asym|exact Hs| |].
    + apply Hin. unfold bucket_le. lia.
    + intros [[y m] wk] Hy. apply Hin in Hy. unfold bucket_le in Hy.
      assert (C : bucket_lt (y, m, wk) (ey, em, ew) \/
                  (y = ey /\ m = em /\ wk = ew))
        by (unfold bucket_lt; lia).
      destruct C as [C|(-> & -> & ->)]; auto.
  - intros y m wk H1 H2 Hm Hwk. apply Hin. unfold bucket_le. lia.
  - intros wk. rewrite Hin. unfold bucket_le. lia.
  - intros U K rp w m tc ta w' H.
    eapply get_content_urls_keys. exact H.
Qed.

(** The scenario of the specification: start (2024,1,1), end (2024,3,2). *)
Lemma enumerate_chronological_witness :
  hd_error (buckets 2024 1 1 2024 3 2) = Some (2024, 1, 1) /\
  last (buckets 2024 1 1 2024 3 2) (2024, 1, 1) = (2024, 3, 2) /\
  (forall wk, In (2024, 3, wk) (buckets 2024 1 1 2024 3 2) <-> 1 <= wk <= 2).
Proof.
  assert (H12 : 1 <= 1 <= 12) by lia.
  assert (H14 : 1 <= 1 <= 4) by lia.
  assert (H312 : 1 <= 3 <= 12) by lia.
  assert (H24 : 1 <= 2 <= 4) by lia.
  assert (Hle : bucket_le (2024, 1, 1) (2024, 3, 2)) by (unfold bucket_le; lia).
  destruct (enumerate_chronological 2024 1 1 2024 3 2 H12 H14 H312 H24 Hle)
    as (_ & _ & Hhd & Hlast & _ & _ & Hend & _).
  split; [exact (Hhd eq_refl)|]. split; [exact Hlast|exact Hend].
Defined.

Example buckets_scenario :
  buckets 2024 1 1 2024 3 2 =
  [(2024,1,1); (2024,1,2); (2024,1,3); (2024,1,4);
   (2024,2,1); (2024,2,2); (2024,2,3); (2024,2,4);
   (2024,3,1); (2024,3,2)].
Proof. reflexivity. Qed.

(** C1 as stated fails: with start (2024,1,3) and end (2024,3,2) the
    enumeration begins at week 1 of January, before the start bucket, and
    the first request of [get_content_urls] is for that bucket. *)
Lemma enumerate_start_bucket_counterexample :
  bucket_le (2024, 1, 3) (2024, 3, 2) /\
  hd_error (buckets 2024 1 3 2024 3 2) = Some (2024, 1, 1) /\
  bucket_lt (2024, 1, 1) (2024, 1, 3) /\
  hd_error
    (log (snd (get_content_urls (U := AsciiUrllib.ascii_urllib)
                 (K := fixed_markup None None None)
                 (Robotparser.new robots_url) 2024 1 3 2024 3 2
                 (mkWorld net_down []))))
  = Some (EGet "https://www.bonappetit.com/sitemap.xml?year=2024&month=1&week=1").
Proof.
  split; [unfold bucket_le; lia|]. split; [reflexivity|].
  split; [unfold bucket_lt; lia|]. vm_compute. reflexivity.
Qed.

(** C2 (the code at the failing input). With start (2024,3,3) and end
    (2024,3,2) the end bucket lies before the start bucket, yet the loop
    body runs for weeks 1 and 2 of March: in every world the call opens with
    a request for the week-1 sitemap, and a result that is returned maps
    both bucket URLs. *)
Theorem enumerate_week_level_empty_range :
  bucket_lt (2024, 3, 2) (2024, 3, 3) /\
  buckets 2024 3 3 2024 3 2 = [(2024, 3, 1); (2024, 3, 2)] /\
  (forall (U : Urllib) (K : Markup) rp w,
      exists tl,
        log (snd (get_content_urls rp 2024 3 3 2024 3 2 w)) =
        log w ++ EGet (bucket_url (2024, 3, 1)) :: tl) /\
  (forall (U : Urllib) (K : Markup) rp w m tc ta w',
      get_content_urls rp 2024 3 3 2024 3 2 w = (Val (m, tc, ta), w') ->
      map fst m = [bucket_url (2024, 3, 1); bucket_url (2024, 3, 2)]).
Proof.
  split; [unfold bucket_lt; lia|]. split; [reflexivity|]. split.
  - intros U K rp w. rewrite get_content_urls_visits.
    destruct (visit_all_world rp (buckets 2024 3 3 2024 3 2) ([], 0, 0) w)
      as (es & E & _ & Hhd).
    destruct (Hhd (2024, 3, 1) [(2024, 3, 2)] eq_refl) as (tl & ->).
    exists tl. rewrite E. reflexivity.
  - intros U K rp w m tc ta w' H.
    apply get_content_urls_keys in H. exact H.
Qed.

(** C10. The start week does not enter the computation: calls that differ
    in [start_week] only enumerate the same buckets and yield the same
    mapping, the same totals and the same effects. *)
Theorem start_week_irrelevant :
  forall (U : Urllib) (K : Markup) rp sy sm sw1 sw2 ey em ew w,
    buckets sy sm sw1 ey em ew = buckets sy sm sw2 ey em ew /\
    get_content_urls rp sy sm sw1 ey em ew w =
    get_content_urls rp sy sm sw2 ey em ew w.
Proof. intros. split; reflexivity. Qed.

(** ** Totals and score *)

Lemma round_half_even_cases (n d : Z) :
  0 < d ->
  let m := round_half_even n d in
  (m = n / d \/ m = n / d + 1) /\ 2 * Z.abs (m * d - n) <= d.
Proof.
  intros Hd. unfold round_half_even.
  pose proof (Z.div_mod n d ltac:(lia)) as E.
  pose proof (Z.mod_pos_bound n d Hd) as B.
  destruct (Z.compare_spec (2 * (n mod d)) d) as [C|C|C];
    [destruct (Z.even (n / d))| |]; (split; [auto|nia]).
Qed.

Lemma round_half_even_le (n d k : Z) :
  0 < d -> n <= k * d -> round_half_even n d <= k.
Proof.
  intros Hd H. destruct (round_half_even_cases n d Hd) as [_ N].
  nia.
Qed.

Lemma round_half_even_ge (n d k : Z) :
  0 < d -> k * d <= n -> k <= round_half_even n d.
Proof.
  intros Hd H. destruct (round_half_even_cases n d Hd) as [_ N].
  nia.
Qed.

Lemma ilog2_lower (n d : Z) :
  0 < n -> 0 < d ->
  if 0 <=? ilog2 n d then d * 2 ^ ilog2 n d <= n
  else d <= n * 2 ^ (- ilog2 n d).
Proof.
  intros Hn Hd. unfold ilog2.
  pose proof (Z.log2_spec n Hn) as [Ln _].
  pose proof (Z.log2_spec d Hd) as [_ Ld].
  pose proof (Z.log2_nonneg n) as Nn.
  pose proof (Z.log2_nonneg d) as Nd.
  set (a := Z.log2 n) in *. set (b := Z.log2 d) in *.
  destruct (if 0 <=? a - b then d * 2 ^ (a - b) <=? n
            else d <=? n * 2 ^ (- (a - b))) eqn:T.
  - destruct (Z.leb_spec 0 (a - b)); now apply Z.leb_le in T.
  - clear T. destruct (Z.leb_spec 0 (a - b - 1)) as [P|P].
    + assert (E : 2 ^ a = 2 ^ (Z.succ b) * 2 ^ (a - b - 1))
        by (rewrite <- Z.pow_add_r by lia; f_equal; lia).
      assert (0 < 2 ^ (a - b - 1)) by (apply Z.pow_pos_nonneg; lia).
      nia.
    + assert (E : 2 ^ (Z.succ b) = 2 ^ a * 2 ^ (- (a - b - 1)))
        by (rewrite <- Z.pow_add_r by lia; f_equal; lia).
      assert (0 < 2 ^ (- (a - b - 1))) by (apply Z.pow_pos_nonneg; lia).
      nia.
Qed.

Lemma ilog2_lt (n d j : Z) :
  0 < n -> 0 < d -> 0 <= j -> n < d * 2 ^ j -> ilog2 n d < j.
Proof.
  intros Hn Hd Hj H. pose proof (ilog2_lower n d Hn Hd) as L.
  destruct (Z.ltb_spec (ilog2 n d) j) as [|G]; [assumption|exfalso].
  destruct (Z.leb_spec 0 (ilog2 n d)) as [P|P]; [|lia].
  pose proof (Z.pow_le_mono_r 2 j (ilog2 n d) ltac:(lia) G).
  nia.
Qed.

(** Rounding a number between 0 and the integer [b < 2^j] gives a finite
    double between 0 and [b], at most [2^(j-54)] away. *)
Lemma round64_small (x : Q) (j b : Z) :
  0 <= j <= 52 -> (0 <= x)%Q -> (x <= inject_Z b)%Q -> b < 2 ^ j ->
  exists y,
    round64 x = Finite y /\ (0 <= y)%Q /\ (y <= inject_Z b)%Q /\
    ((y - x) * inject_Z (2 ^ (54 - j)) <= 1)%Q /\
    ((x - y) * inject_Z (2 ^ (54 - j)) <= 1)%Q.
Proof.
  intros Hj H0 Hb Hlt. destruct x as [n d].
  unfold Qle in H0, Hb. cbn in H0, Hb.
  assert (Hp : 0 < 2 ^ (54 - j)) by (apply Z.pow_pos_nonneg; lia).
  unfold round64. cbn [Qnum Qden].
  rewrite Z.abs_eq by lia.
  destruct (Z.ltb_spec n 0) as [|_]; [lia|].
  destruct (Z.eqb_spec n 0) as [->|Hn].
  - exists 0%Q. split; [reflexivity|].
    unfold Qle, Qminus, Qplus, Qopp, Qmult. cbn.
    repeat split; try lia.
  - pose proof (Zgt_pos_0 d) as Hd.
    assert (Hj2 : 0 < 2 ^ j) by (apply Z.pow_pos_nonneg; lia).
    assert (K : ilog2 n (Z.pos d) < j) by (apply ilog2_lt; nia).
    set (e := Z.max (ilog2 n (Z.pos d) - 52) (-1074)).
    assert (He : e <= j - 53) by lia.
    destruct (Z.leb_spec 0 e) as [|_]; [lia|].
    set (s := 2 ^ (- e)).
    assert (Hs : 2 ^ (53 - j) <= s)
      by (apply Z.pow_le_mono_r; lia).
    assert (Ht : 0 < 2 ^ (53 - j)) by (apply Z.pow_pos_nonneg; lia).
    assert (E2 : 2 ^ (54 - j) = 2 * 2 ^ (53 - j))
      by (rewrite <- Z.pow_succ_r by lia; f_equal; lia).
    destruct (round_half_even_cases (n * s) (Z.pos d) ltac:(lia)) as [_ N].
    pose proof (round_half_even_le (n * s) (Z.pos d) (b * s) ltac:(lia)
                  ltac:(nia)) as Ub.
    pose proof (round_half_even_ge (n * s) (Z.pos d) 0 ltac:(lia)
                  ltac:(nia)) as Lb.
    set (m := round_half_even (n * s) (Z.pos d)) in *.
    eexists. split; [reflexivity|].
    unfold Qle, Qminus, Qplus, Qopp, Qmult. cbn [Qnum Qden inject_Z].
    rewrite ?Pos2Z.inj_mul, ?Z2Pos.id by lia.
    rewrite E2. set (t := 2 ^ (53 - j)) in *.
    repeat split; nia.
Qed.

Lemma quotient_unit (ta tc : Z) :
  0 <= ta <= tc -> tc <> 0 ->
  (0 <= inject_Z ta / inject_Z tc)%Q /\ (inject_Z ta / inject_Z tc <= 1)%Q.
Proof.
  intros H N.
  assert (Hpos : (0 < inject_Z tc)%Q) by (unfold Qlt; cbn; lia).
  split.
  - apply Qle_shift_div_l; [exact Hpos|].
    rewrite Qmult_0_l. unfold Qle; cbn; lia.
  - apply Qle_shift_div_r; [exact Hpos|].
    rewrite Qmult_1_l. unfold Qle; cbn; lia.
Qed.

(** The score of totals with [0 <= ta <= tc], [tc <> 0]: a finite float
    between 0 and 100, at most [2^-45] away from the exact percentage. *)
Lemma crawl_score_rounded (ta tc : Z) :
  0 <= ta <= tc -> tc <> 0 ->
  exists q x,
    round64 (inject_Z ta / inject_Z tc) = Finite q /\
    round64 (q * 100) = Finite x /\
    crawl_score ta tc = Val (Float (Finite x)) /\
    (0 <= x)%Q /\ (x <= 100)%Q /\
    (x - (1 # 35184372088832) <= 100 * inject_Z ta / inject_Z tc)%Q /\
    (100 * inject_Z ta / inject_Z tc <= x + (1 # 35184372088832))%Q.
Proof.
  intros H N. unfold crawl_score, true_divide, float_mul.
  destruct (Z.eqb_spec tc 0) as [E|_]; [contradiction|].
  destruct (quotient_unit ta tc H N) as [Q0 Q1].
  assert (R : (100 * inject_Z ta / inject_Z tc
               == 100 * (inject_Z ta / inject_Z tc))%Q)
    by (unfold Qdiv; ring).
  set (q := (inject_Z ta / inject_Z tc)%Q) in *.
  destruct (round64_small q 1 1 ltac:(lia) Q0 Q1 ltac:(reflexivity))
    as (y1 & E1 & A1 & B1 & C1 & D1).
  rewrite E1.
  change (inject_Z (2 ^ (54 - 1))) with (9007199254740992 # 1)%Q in C1, D1.
  change (inject_Z 1) with 1%Q in B1.
  assert (P0 : (0 <= y1 * 100)%Q) by lra.
  assert (P1 : (y1 * 100 <= inject_Z 100)%Q)
    by (change (inject_Z 100) with 100%Q; lra).
  destruct (round64_small (y1 * 100) 7 100 ltac:(lia) P0 P1 ltac:(reflexivity))
    as (y2 & E2 & A2 & B2 & C2 & D2).
  rewrite E2.
  change (inject_Z (2 ^ (54 - 7))) with (140737488355328 # 1)%Q in C2, D2.
  change (inject_Z 100) with 100%Q in B2.
  exists y1, y2. split; [reflexivity|]. split; [exact E2|].
  split; [reflexivity|].
  split; [exact A2|]. split; [exact B2|]. rewrite R. split; lra.
Qed.

Lemma Zsum_pairs (es : list SitemapEntry) :
  Zsum (map (fun kv : string * list (option string) => len (snd kv))
            (map entry_pair es)) =
  Zsum (map (fun e => len (allowedURLs e)) es).
Proof. rewrite map_map. reflexivity. Qed.

(** C4 (amended). In every result that [get_content_urls] returns, the
    mapping holds one item per enumerated bucket, [total_checked] is the
    sum of the lengths of the URL lists found, [total_crawlable] the sum of
    the lengths of the allowed lists, which are the lists stored in the
    mapping; the score is the integer 0 for [total_checked = 0], and
    otherwise the float of [total_crawlable / total_checked * 100]: the
    quotient rounded to the nearest double, times 100, rounded again. That
    float lies between 0 and 100 and is at most [2^-45] away from the
    exact [100 * total_crawlable / total_checked]. *)
Theorem totals_and_score :
  forall (U : Urllib) (K : Markup) rp sy sm sw ey em ew w m tc ta w',
    get_content_urls rp sy sm sw ey em ew w = (Val (m, tc, ta), w') ->
    let es := entries_of rp (buckets sy sm sw ey em ew) w in
    m = map entry_pair es /\
    map bucketURL es = map bucket_url (buckets sy sm sw ey em ew) /\
    Forall (fun e =>
              allowedURLs e =
              filter (fun u => match Robotparser.can_fetch rp "*" u with
                               | Val b => b
                               | Exc _ => false
                               end) (discoveredURLs e)) es /\
    tc = Zsum (map (fun e => len (discoveredURLs e)) es) /\
    ta = Zsum (map (fun e => len (allowedURLs e)) es) /\
    ta = Zsum (map (fun kv => len (snd kv)) m) /\
    0 <= ta <= tc /\
    (tc = 0 -> crawl_score ta tc = Val (Int 0)) /\
    (tc <> 0 ->
     exists q x,
       round64 (inject_Z ta / inject_Z tc) = Finite q /\
       round64 (q * 100) = Finite x /\
       crawl_score ta tc = Val (Float (Finite x)) /\
       (0 <= x)%Q /\ (x <= 100)%Q /\
       (x - (1 # 35184372088832) <= 100 * inject_Z ta / inject_Z tc)%Q /\
       (100 * inject_Z ta / inject_Z tc <= x + (1 # 35184372088832))%Q).
Proof.
  intros U K rp sy sm sw ey em ew w m tc ta w' H es.
  rewrite get_content_urls_visits in H.
  apply visit_all_entries in H;
    [|apply bucket_urls_NoDup, buckets_NoDup|intros b _ []].
  destruct H as (Hm & Htc & Hta & Hk & Hall). fold es in Hm, Htc, Hta, Hk, Hall.
  cbn [app] in Hm. rewrite Z.add_0_l in Htc, Hta.
  assert (Hle : 0 <= ta <= tc)
    by (rewrite Htc, Hta; exact (Zsum_len_le es rp Hall)).
  repeat split; auto; try lia.
  - eapply Forall_impl; [|exact Hall]. intros e He.
    now apply crawlable_of_filter.
  - rewrite Hm, Zsum_pairs. exact Hta.
  - intros ->. reflexivity.
  - intros N. exact (crawl_score_rounded ta tc Hle N).
Qed.

Lemma totals_and_score_witness :
  exists q x,
    round64 (inject_Z 3 / inject_Z 5) = Finite q /\
    round64 (q * 100) = Finite x /\
    crawl_score 3 5 = Val (Float (Finite x)) /\
    (0 <= x)%Q /\ (x <= 100)%Q /\
    (x - (1 # 35184372088832) <= 100 * inject_Z 3 / inject_Z 5)%Q /\
    (100 * inject_Z 3 / inject_Z 5 <= x + (1 # 35184372088832))%Q.
Proof.
  pose (locs := [Some "https://www.bonappetit.com/recipe/a";
                 Some "https://www.bonappetit.com/private/b";
                 Some "https://www.bonappetit.com/recipe/c";
                 Some "https://www.bonappetit.com/private/d";
                 Some "https://www.bonappetit.com/story/e"]).
  assert (H : get_content_urls (U := AsciiUrllib.ascii_urllib)
                (K := fixed_markup (Some locs) None None)
                rp_private 2024 1 1 2024 1 1 (mkWorld (net_serving "x") []) =
              (Val ([(bucket_url (2024, 1, 1),
                      [Some "https://www.bonappetit.com/recipe/a";
                       Some "https://www.bonappetit.com/recipe/c";
                       Some "https://www.bonappetit.com/story/e"])], 5, 3),
               mkWorld (net_serving "x") [EGet (bucket_url (2024, 1, 1))]))
    by reflexivity.
  destruct (totals_and_score _ _ _ _ _ _ _ _ _ _ _ _ _ _ H)
    as (_ & _ & _ & _ & _ & _ & _ & _ & Hscore).
  apply Hscore. discriminate.
Defined.

(** The score of 57 allowed URLs out of 100 is the float
    56.99999999999999, not 57: the quotient 0.57 is rounded before it is
    multiplied by 100, and the product is rounded again. *)
Lemma crawl_score_rounding_counterexample :
  crawl_score 57 100
  = Val (Float (Finite (8022036836253695 # 140737488355328))) /\
  ~ (8022036836253695 # 140737488355328 == 100 * inject_Z 57 / inject_Z 100)%Q.
Proof.
  split; [vm_compute; reflexivity|].
  intros E. vm_compute in E. discriminate E.
Qed.

(** Runs of the float operations: a third, ties between two doubles that
    go to the even one, the smallest doubles, and the two errors of the
    division of integers. *)
Example float_runs :
  round64 (1 # 3) = Finite (6004799503160661 # 18014398509481984) /\
  round64 (inject_Z (2 ^ 53 + 1)) = Finite (inject_Z (2 ^ 53)) /\
  round64 (inject_Z (2 ^ 53 + 3)) = Finite (inject_Z (2 ^ 53 + 4)) /\
  round64 (3 # Z.to_pos (2 ^ 1075)) = Finite (2 # Z.to_pos (2 ^ 1074)) /\
  true_divide 57 100 = Val (5134103575202365 # 9007199254740992) /\
  float_mul (5134103575202365 # 9007199254740992) 100
  = Finite (8022036836253695 # 140737488355328) /\
  true_divide (2 ^ 1024) 1 = Exc OverflowError /\
  true_divide 1 0 = Exc ZeroDivisionError /\
  crawl_score 0 0 = Val (Int 0).
Proof. vm_compute. repeat split; reflexivity. Qed.

(** ** [can_fetch]: the first rule that applies decides *)

Section RobotsFacts.
Context {U : Urllib}.
Import Robotparser.

Lemma first_rule_skip (pre rest : list RuleLine) (target : string) :
  (forall r, In r pre -> rule_applies_to r target = false) ->
  first_rule (pre ++ rest) target = first_rule rest target.
Proof.
  induction pre as [|r pre IH]; intros H; cbn; [reflexivity|].
  rewrite (H r (or_introl eq_refl)). apply IH.
  intros r' Hr'. apply H. now right.
Qed.

Lemma find_none_applies (es : list Entry) (useragent : string) :
  (forall e, In e es -> applies_to e useragent = false) ->
  find (fun e => applies_to e useragent) es = None.
Proof.
  induction es as [|e es IH]; intros H; cbn; [reflexivity|].
  rewrite (H e (or_introl eq_refl)). apply IH.
  intros e' He'. apply H. now right.
Qed.

(** When only the default group applies, [can_fetch] is the verdict of
    that group's first applicable rule. *)
Lemma can_fetch_default (rp : RobotFileParser) (e : Entry)
      (useragent u target : string) :
  disallow_all rp = false -> allow_all rp = false -> last_checked rp = true ->
  (forall e', In e' (entries rp) -> applies_to e' useragent = false) ->
  default_entry rp = Some e ->
  request_path u = Val target ->
  can_fetch rp useragent (Some u) = Val (first_rule (rulelines e) target).
Proof.
  intros Hd Ha Hl He Hdef Hp. unfold can_fetch.
  rewrite Hd, Ha, Hl, Hp, find_none_applies, Hdef by exact He.
  reflexivity.
Qed.

(** C6 (amended). [can_fetch] applies the rules of the group in file
    order and the first rule whose path is a prefix of the URL's path
    decides. For a [*] group that lists [Allow: /api/public/] before
    [Disallow: /api/], no other rule before them applying, and no group
    naming the agent: a URL whose path is under /api/public/ may be
    fetched, one under /api/ but not under /api/public/ may not. *)
Theorem can_fetch_file_order (rp : RobotFileParser) (e : Entry)
        (pre mid post : list RuleLine) (u target : string) :
  disallow_all rp = false -> allow_all rp = false -> last_checked rp = true ->
  (forall e', In e' (entries rp) -> applies_to e' "*" = false) ->
  default_entry rp = Some e ->
  rulelines e =
    pre ++ mkRuleLine "/api/public/" true :: mid
        ++ mkRuleLine "/api/" false :: post ->
  request_path u = Val target ->
  (forall r, In r (pre ++ mid) -> rule_applies_to r target = false) ->
  (Py.startswith "/api/public/" target = true ->
   can_fetch rp "*" (Some u) = Val true) /\
  (Py.startswith "/api/" target = true ->
   Py.startswith "/api/public/" target = false ->
   can_fetch rp "*" (Some u) = Val false).
Proof.
  intros Hd Ha Hl He Hdef Hrules Hp Hskip.
  rewrite (can_fetch_default rp e "*" u target) by assumption.
  rewrite Hrules.
  rewrite first_rule_skip
    by (intros r Hr; apply Hskip, in_or_app; now left).
  cbn [first_rule rl_allowance].
  change (rule_applies_to (mkRuleLine "/api/public/" true) target)
    with (Py.startswith "/api/public/" target).
  split.
  - intros ->. reflexivity.
  - intros Hapi Hpub. rewrite Hpub.
    rewrite first_rule_skip
      by (intros r Hr; apply Hskip, in_or_app; now right).
    cbn [first_rule rl_allowance].
    change (rule_applies_to (mkRuleLine "/api/" false) target)
      with (Py.startswith "/api/" target).
    rewrite Hapi. reflexivity.
Qed.
End RobotsFacts.

Lemma can_fetch_file_order_witness :
  Robotparser.can_fetch (U := AsciiUrllib.ascii_urllib) rp_allow_first "*"
    (Some "https://www.bonappetit.com/api/public/x") = Val true /\
  Robotparser.can_fetch (U := AsciiUrllib.ascii_urllib) rp_allow_first "*"
    (Some "https://www.bonappetit.com/api/secret") = Val false.
Proof.
  split.
  - apply (can_fetch_file_order (U := AsciiUrllib.ascii_urllib) rp_allow_first
             (star_entry [Robotparser.mkRuleLine "/api/public/" true;
                          Robotparser.mkRuleLine "/api/" false])
             [] [] [] "https://www.bonappetit.com/api/public/x"
             "/api/public/x");
      try reflexivity; intros ? [].
  - apply (can_fetch_file_order (U := AsciiUrllib.ascii_urllib) rp_allow_first
             (star_entry [Robotparser.mkRuleLine "/api/public/" true;
                          Robotparser.mkRuleLine "/api/" false])
             [] [] [] "https://www.bonappetit.com/api/secret"
             "/api/secret");
      try reflexivity; intros ? [].
Defined.

Example parse_allow_first :
  Robotparser.parse (U := AsciiUrllib.ascii_urllib)
    (Robotparser.new robots_url)
    ["User-agent: *"; "Allow: /api/public/"; "Disallow: /api/"]
  = Val rp_allow_first.
Proof. reflexivity. Qed.

(** C6 as stated fails: from the lines [User-agent: *], [Disallow: /api/],
    [Allow: /api/public/] the parser builds a rule set that holds both
    rules, and [can_fetch] refuses a URL under /api/public/, because the
    Disallow rule comes first and applies. *)
Lemma can_fetch_order_counterexample :
  Robotparser.parse (U := AsciiUrllib.ascii_urllib)
    (Robotparser.new robots_url)
    ["User-agent: *"; "Disallow: /api/"; "Allow: /api/public/"]
  = Val rp_disallow_first /\
  Robotparser.can_fetch (U := AsciiUrllib.ascii_urllib) rp_disallow_first "*"
    (Some "https://www.bonappetit.com/api/public/x") = Val false.
Proof. split; reflexivity. Qed.

(** Rules that no [User-agent] line precedes are dropped, and then even a
    URL under /api/ may be fetched. *)
Example can_fetch_rules_without_group :
  exists rp,
    Robotparser.parse (U := AsciiUrllib.ascii_urllib)
      (Robotparser.new robots_url) ["Disallow: /api/"; "Allow: /api/public/"]
    = Val rp /\
    Robotparser.can_fetch (U := AsciiUrllib.ascii_urllib) rp "*"
      (Some "https://www.bonappetit.com/api/secret") = Val true.
Proof. eexists. split; reflexivity. Qed.

(** ** The cache decorator *)

Lemma list_eqb_eq {X} (eqb : X -> X -> bool) :
  (forall x y, eqb x y = true <-> x = y) ->
  forall l1 l2, list_eqb eqb l1 l2 = true <-> l1 = l2.
Proof.
  intros H. induction l1 as [|x l1 IH]; intros [|y l2]; cbn;
    try (split; [discriminate|discriminate]); [tauto|].
  rewrite andb_true_iff, H, IH. split.
  - now intros [-> ->].
  - now intros [= -> ->].
Qed.

Lemma kw_eqb_eq (a b : string * Z) : kw_eqb a b = true <-> a = b.
Proof.
  destruct a as [n1 v1], b as [n2 v2]. unfold kw_eqb. cbn.
  rewrite andb_true_iff, String.eqb_eq, Z.eqb_eq. split.
  - now intros [-> ->].
  - now intros [= -> ->].
Qed.

(** Keys are compared by value, component by component. *)
Lemma key_eqb_eq (a b : cache_key) : key_eqb a b = true <-> a = b.
Proof.
  destruct a as [[n1 a1] k1], b as [[n2 a2] k2]. unfold key_eqb.
  rewrite !andb_true_iff, String.eqb_eq.
  rewrite (list_eqb_eq Z.eqb Z.eqb_eq), (list_eqb_eq kw_eqb kw_eqb_eq).
  split.
  - now intros [[-> ->] ->].
  - now intros [= -> -> ->].
Qed.

Lemma cache_lookup_new {V} (key : cache_key) (v : V) (cd : cache_data V) :
  cache_lookup key cd = None -> cache_lookup key (cd ++ [(key, v)]) = Some v.
Proof.
  induction cd as [|[k' v'] cd IH]; cbn.
  - intros _. now rewrite (proj2 (key_eqb_eq key key) eq_refl).
  - destruct (key_eqb k' key); [discriminate|exact IH].
Qed.


(** The wrapper in general: a hit returns the stored value and touches
    neither the cache nor the world. *)
Lemma wrapper_hit {V} (name : string)
      (func : list Z -> list (string * Z) -> M V)
      (args : list Z) (kwargs : list (string * Z)) (cd : cache_data V)
      (w : World) (v : V) :
  cache_lookup (name, args, sorted_items kwargs) cd = Some v ->
  wrapper name func args kwargs cd w = (Val v, cd, w).
Proof. intros H. unfold wrapper. now rewrite H. Qed.



(** ** Classification, URL by URL *)

Section ClassifyFacts.
Context {K : Markup}.

(** The [try] block reports what it adds: it behaves alike from any lists
    and appends to them what it appends to empty ones. *)
Lemma static_path_acc (u : string) (r0 : list recipe) (j0 : list string)
      (w : World) :
  static_path u (r0, j0) w =
  match static_path u ([], []) w with
  | (Val (r, j), w') => (Val (r0 ++ r, j0 ++ j), w')
  | (Exc e, w') => (Exc e, w')
  end.
Proof.
  unfold static_path, bind, lift, ret.
  destruct (fetch_url u w) as [[resp|e] w1]; [|reflexivity].
  destruct (BeautifulSoup (content resp)) as [sp|e]; [|reflexivity].
  destruct (Py.contains "/recipe/" u).
  - destruct (select_one_text sp title_selector) as [t|e]; [|reflexivity].
    destruct (select_one_text sp desc_selector) as [d|e]; [|reflexivity].
    cbn [app]. now rewrite app_nil_r.
  - now rewrite !app_nil_r.
Qed.

Lemma classify_one_eq (u : string) (st : list recipe * list string)
      (w : World) :
  classify_one u st w =
  match static_path u st w with
  | (Val st', w') => (Val st', w')
  | (Exc _, w') => (Val (fst st, snd st ++ [u]), w')
  end.
Proof. reflexivity. Qed.

Lemma classify_one_acc (u : string) (r0 : list recipe) (j0 : list string)
      (w : World) :
  exists r j w',
    classify_one u ([], []) w = (Val (r, j), w') /\
    classify_one u (r0, j0) w = (Val (r0 ++ r, j0 ++ j), w').
Proof.
  rewrite !classify_one_eq, (static_path_acc u r0 j0 w).
  destruct (static_path u ([], []) w) as [[[r j]|e] w']; cbn [fst snd app].
  - exists r, j, w'. auto.
  - exists [], [u], w'. now rewrite app_nil_r.
Qed.

Lemma classify_all_cons (u : string) (urls : list string)
      (st : list recipe * list string) (w : World) :
  classify_all (u :: urls) st w =
  (st' <- classify_one u st ;; classify_all urls st') w.
Proof.
  unfold classify_all. cbn [for_each]. unfold bind, ret.
  destruct (classify_one u st w) as [[st'|e] w']; reflexivity.
Qed.

Lemma classify_all_acc (urls : list string) :
  forall r0 j0 w, exists r j w',
    classify_all urls ([], []) w = (Val (r, j), w') /\
    classify_all urls (r0, j0) w = (Val (r0 ++ r, j0 ++ j), w').
Proof.
  induction urls as [|u urls IH]; intros r0 j0 w.
  - exists [], [], w. cbn. now rewrite !app_nil_r.
  - rewrite !classify_all_cons. unfold bind.
    destruct (classify_one_acc u r0 j0 w) as (r & j & w1 & E0 & E1).
    rewrite E0, E1.
    destruct (IH r j w1) as (r' & j' & w2 & F0 & F1).
    destruct (IH (r0 ++ r) (j0 ++ j) w1) as (r'' & j'' & w3 & G0 & G1).
    rewrite F0 in G0. injection G0 as <- <- <-.
    exists (r ++ r'), (j ++ j'), w2. rewrite F1, G1, !app_assoc. auto.
Qed.

(** [extract_all_recipes] always returns. *)
Lemma extract_all_recipes_returns (urls : list string) (w : World) :
  exists r j w', extract_all_recipes urls w = (Val (r, j), w').
Proof.
  destruct (classify_all_acc urls [] [] w) as (r & j & w' & E & _). eauto.
Qed.

(** The result for a list of URLs is the result for its first part, what
    the next URL adds, and the result for the rest, each started in the
    world the previous one left. *)
Lemma extract_all_recipes_split (urls1 urls2 : list string) (u : string)
      (w : World) :
  exists r1 j1 w1 ru ju w2 r2 j2 w3,
    extract_all_recipes urls1 w = (Val (r1, j1), w1) /\
    classify_one u ([], []) w1 = (Val (ru, ju), w2) /\
    extract_all_recipes urls2 w2 = (Val (r2, j2), w3) /\
    extract_all_recipes (urls1 ++ u :: urls2) w =
    (Val (r1 ++ ru ++ r2, j1 ++ ju ++ j2), w3).
Proof.
  unfold extract_all_recipes. revert w.
  induction urls1 as [|x urls1 IH]; intros w.
  - destruct (classify_one_acc u [] [] w) as (ru & ju & w2 & E & _).
    destruct (classify_all_acc urls2 ru ju w2) as (r2 & j2 & w3 & F0 & F1).
    exists [], [], w, ru, ju, w2, r2, j2, w3.
    cbn [app]. rewrite classify_all_cons. unfold bind. rewrite E, F1.
    repeat split; auto.
  - destruct (classify_one_acc x [] [] w) as (rx & jx & wx & E & _).
    destruct (IH wx)
      as (r1 & j1 & w1 & ru & ju & w2 & r2 & j2 & w3 & A & B & C & D).
    destruct (classify_all_acc urls1 rx jx wx) as (a & b & c & F0 & F1).
    rewrite A in F0. injection F0 as <- <- <-.
    destruct (classify_all_acc (urls1 ++ u :: urls2) rx jx wx)
      as (a' & b' & c' & G0 & G1).
    rewrite D in G0. injection G0 as <- <- <-.
    exists (rx ++ r1), (jx ++ j1), w1, ru, ju, w2, r2, j2, w3.
    cbn [app]. rewrite !classify_all_cons. unfold bind. rewrite E, F1, G1.
    rewrite <- !app_assoc. repeat split; auto.
Qed.

(** What one URL adds, by the course of the [try] block. *)
Lemma classify_one_failed (u : string) (w w' : World) (e : exn) :
  static_path u ([], []) w = (Exc e, w') ->
  classify_one u ([], []) w = (Val ([], [u]), w').
Proof. intros H. rewrite classify_one_eq, H. reflexivity. Qed.

Lemma static_path_fetch_failed (u : string) (w w' : World) (e : exn) :
  fetch_url u w = (Exc e, w') -> static_path u ([], []) w = (Exc e, w').
Proof. intros H. unfold static_path, bind. now rewrite H. Qed.

Lemma classify_one_recipe (u : string) (w w' : World) (resp : response)
      (sp : soup) (t d : option string) :
  fetch_url u w = (Val resp, w') ->
  BeautifulSoup (content resp) = Val sp ->
  Py.contains "/recipe/" u = true ->
  select_one_text sp title_selector = Val t ->
  select_one_text sp desc_selector = Val d ->
  classify_one u ([], []) w =
  (Val ([mkRecipe (or_default t "No title")
                  (or_default d "No description") u], []), w').
Proof.
  intros Hf Hs Hc Ht Hd. rewrite classify_one_eq.
  unfold static_path, bind, lift, ret. now rewrite Hf, Hs, Hc, Ht, Hd.
Qed.

Lemma classify_one_other (u : string) (w w' : World) (resp : response)
      (sp : soup) :
  fetch_url u w = (Val resp, w') ->
  BeautifulSoup (content resp) = Val sp ->
  Py.contains "/recipe/" u = false ->
  classify_one u ([], []) w = (Val ([], []), w').
Proof.
  intros Hf Hs Hc. rewrite classify_one_eq.
  unfold static_path, bind, lift, ret. now rewrite Hf, Hs, Hc.
Qed.
End ClassifyFacts.

(** C7. For every URL of the input, met in the world that the URLs before
    it left: when its fetch fails (or anything else in the static path
    raises) the URL is appended to [js_heavy] and no recipe is recorded;
    when the fetch and the HTML parse succeed and the URL contains
    [/recipe/], exactly one recipe is recorded, with "No title" and "No
    description" where a selector finds nothing, and [js_heavy] is left
    alone; when they succeed and the URL does not contain [/recipe/],
    nothing is recorded in either list. *)
Theorem classification_by_outcome :
  forall (K : Markup) urls1 u urls2 w,
  exists r1 j1 w1 ru ju w2 r2 j2 w3,
    extract_all_recipes urls1 w = (Val (r1, j1), w1) /\
    extract_all_recipes urls2 w2 = (Val (r2, j2), w3) /\
    extract_all_recipes (urls1 ++ u :: urls2) w =
      (Val (r1 ++ ru ++ r2, j1 ++ ju ++ j2), w3) /\
    (forall e w', fetch_url u w1 = (Exc e, w') ->
                  ru = [] /\ ju = [u] /\ w2 = w') /\
    (forall e w', static_path u ([], []) w1 = (Exc e, w') ->
                  ru = [] /\ ju = [u] /\ w2 = w') /\
    (forall resp w' sp t d,
        fetch_url u w1 = (Val resp, w') ->
        BeautifulSoup (content resp) = Val sp ->
        Py.contains "/recipe/" u = true ->
        select_one_text sp title_selector = Val t ->
        select_one_text sp desc_selector = Val d ->
        ru = [mkRecipe (or_default t "No title")
                       (or_default d "No description") u] /\
        ju = [] /\ w2 = w') /\
    (forall resp w' sp,
        fetch_url u w1 = (Val resp, w') ->
        BeautifulSoup (content resp) = Val sp ->
        Py.contains "/recipe/" u = false ->
        ru = [] /\ ju = [] /\ w2 = w').
Proof.
  intros K urls1 u urls2 w.
  destruct (extract_all_recipes_split urls1 urls2 u w)
    as (r1 & j1 & w1 & ru & ju & w2 & r2 & j2 & w3 & A & B & C & D).
  exists r1, j1, w1, ru, ju, w2, r2, j2, w3.
  split; [exact A|]. split; [exact C|]. split; [exact D|].
  split; [|split; [|split]].
  - intros e w' H. apply static_path_fetch_failed, classify_one_failed in H.
    rewrite H in B. now injection B as <- <- <-.
  - intros e w' H. apply classify_one_failed in H.
    rewrite H in B. now injection B as <- <- <-.
  - intros resp w' sp t d Hf Hs Hc Ht Hd.
    rewrite (classify_one_recipe u w1 w' resp sp t d Hf Hs Hc Ht Hd) in B.
    now injection B as <- <- <-.
  - intros resp w' sp Hf Hs Hc.
    rewrite (classify_one_other u w1 w' resp sp Hf Hs Hc) in B.
    now injection B as <- <- <-.
Qed.

Lemma classification_by_outcome_witness :
  extract_all_recipes (K := fixed_markup None None None)
    ["https://www.bonappetit.com/recipe/a"] (mkWorld (net_serving "x") [])
  = (Val ([mkRecipe "No title" "No description"
             "https://www.bonappetit.com/recipe/a"], []),
     mkWorld (net_serving "x") [EGet "https://www.bonappetit.com/recipe/a"]).
Proof.
  destruct (classification_by_outcome (fixed_markup None None None) []
              "https://www.bonappetit.com/recipe/a" []
              (mkWorld (net_serving "x") []))
    as (r1 & j1 & w1 & ru & ju & w2 & r2 & j2 & w3 & A & C & D & _ & _ & R & _).
  injection A as <- <- <-.
  destruct (R (mkResponse 200 "x")
              (mkWorld (net_serving "x")
                       [EGet "https://www.bonappetit.com/recipe/a"])
              tt None None eq_refl eq_refl eq_refl eq_refl eq_refl)
    as (-> & -> & ->).
  injection C as <- <- <-. exact D.
Defined.

(** The scenario of the specification: every attempt fails, the URL goes
    to [js_heavy]; and a recipe page without title and description. *)
Example classification_scenarios :
  extract_all_recipes (K := fixed_markup None None None)
    ["https://www.bonappetit.com/recipe/a"] (mkWorld net_down [])
  = (Val ([], ["https://www.bonappetit.com/recipe/a"]),
     mkWorld net_down
       [EGet "https://www.bonappetit.com/recipe/a"; ESleep 2;
        EGet "https://www.bonappetit.com/recipe/a"; ESleep 2;
        EGet "https://www.bonappetit.com/recipe/a"]) /\
  extract_all_recipes (K := fixed_markup None None None)
    ["https://www.bonappetit.com/recipe/a";
     "https://www.bonappetit.com/story/b"] (mkWorld (net_serving "x") [])
  = (Val ([mkRecipe "No title" "No description"
             "https://www.bonappetit.com/recipe/a"], []),
     mkWorld (net_serving "x")
       [EGet "https://www.bonappetit.com/recipe/a";
        EGet "https://www.bonappetit.com/story/b"]).
Proof. split; reflexivity. Qed.

(** ** Failures stay local *)

Section DegradeFacts.
Context {U : Urllib} {K : Markup}.
Import Robotparser.

(** A bucket whose fetch or XML parse fails is recorded with an empty list
    and leaves the totals alone; the body does not raise. *)
Lemma visit_bucket_failed (rp : RobotFileParser) (b : bucket)
      (m : dict (list (option string))) (tc ta : Z) (w w' : World) (e : exn) :
  (resp <- fetch_url (bucket_url b) ;; lift (xml_locs (content resp))) w
    = (Exc e, w') ->
  visit_bucket rp b (m, tc, ta) w =
  (Val (dict_set (bucket_url b) [] m, tc, ta), w').
Proof.
  intros H. unfold visit_bucket. unfold bind at 1.
  rewrite (bucket_urls_failed _ _ _ _ H). unfold bind, lift, ret. cbn.
  now rewrite !Z.add_0_r.
Qed.

Lemma visit_all_keys (rp : RobotFileParser) (bs : list bucket) (w w' : World)
      (m : dict (list (option string))) (tc ta : Z) :
  NoDup bs ->
  visit_all rp bs ([], 0, 0) w = (Val (m, tc, ta), w') ->
  map fst m = map bucket_url bs.
Proof.
  intros Hnd H. apply visit_all_entries in H;
    [|now apply bucket_urls_NoDup|intros b _ []].
  destruct H as (Hm & _ & _ & Hk & _). rewrite Hm. cbn [app].
  rewrite map_map. exact Hk.
Qed.

Lemma enumeration_continues (rp : RobotFileParser) (sy sm sw ey em ew : Z)
      (w w1 w2 : World) (bs1 bs2 : list bucket) (b : bucket)
      (m1 : dict (list (option string))) (tc1 ta1 : Z) (e : exn) :
  buckets sy sm sw ey em ew = bs1 ++ b :: bs2 ->
  visit_all rp bs1 ([], 0, 0) w = (Val (m1, tc1, ta1), w1) ->
  (resp <- fetch_url (bucket_url b) ;; lift (xml_locs (content resp))) w1
    = (Exc e, w2) ->
  get_content_urls rp sy sm sw ey em ew w =
    visit_all rp bs2 (dict_set (bucket_url b) [] m1, tc1, ta1) w2 /\
  (forall m tc ta w',
      get_content_urls rp sy sm sw ey em ew w = (Val (m, tc, ta), w') ->
      dict_get (bucket_url b) m = Some [] /\
      map fst m = map bucket_url (buckets sy sm sw ey em ew)).
Proof.
  intros Hbs H1 Hfail.
  assert (Hrun : get_content_urls rp sy sm sw ey em ew w =
                 visit_all rp bs2 (dict_set (bucket_url b) [] m1, tc1, ta1) w2).
  { rewrite get_content_urls_visits, Hbs, visit_all_app. unfold bind.
    rewrite H1. cbn [visit_all]. unfold bind.
    now rewrite (visit_bucket_failed rp b m1 tc1 ta1 w1 w2 e Hfail). }
  split; [exact Hrun|].
  intros m tc ta w' H. split; [|eapply get_content_urls_keys; exact H].
  rewrite Hrun in H.
  pose proof (buckets_NoDup sy sm sw ey em ew) as Hnd. rewrite Hbs in Hnd.
  assert (Hnd1 : NoDup bs1) by now apply NoDup_app_remove_r in Hnd.
  apply bucket_urls_NoDup in Hnd. rewrite map_app in Hnd. cbn [map] in Hnd.
  pose proof (NoDup_remove_2 _ _ _ Hnd) as Hfresh.
  pose proof (NoDup_remove_1 _ _ _ Hnd) as Hrest.
  pose proof (NoDup_app_disjoint _ _ Hrest) as Hdisj.
  pose proof (NoDup_app_remove_l _ _ Hrest) as Hnd2.
  assert (Hk1 : map fst m1 = map bucket_url bs1)
    by (eapply visit_all_keys; [exact Hnd1|exact H1]).
  assert (Hb1 : ~ In (bucket_url b) (map fst m1)).
  { rewrite Hk1. intros Hin. apply Hfresh, in_or_app. now left. }
  rewrite (dict_set_fresh _ _ _ Hb1) in H.
  apply visit_all_entries in H; [|exact Hnd2|].
  - destruct H as (Hm & _ & _ & Hk & _). rewrite Hm.
    rewrite dict_get_app_fresh.
    + now apply dict_get_last.
    + rewrite map_map. cbn [entry_pair fst].
      change (map (fun e => bucketURL e)) with (map bucketURL).
      rewrite Hk. intros Hin. apply Hfresh, in_or_app. now right.
  - intros b' Hb'. rewrite map_app, in_app_iff, Hk1. cbn.
    intros [Hin|[E|[]]].
    + apply (Hdisj _ Hin). now apply in_map.
    + apply Hfresh. rewrite E. apply in_or_app. right. now apply in_map.
Qed.
End DegradeFacts.

(** C8. In the enumeration, a bucket whose fetch or XML parse fails is
    recorded under its URL with an empty list, adds nothing to the totals,
    and the loop goes on with the remaining buckets; in the classification,
    a URL whose fetch fails is appended to [js_heavy] and the loop goes on
    with the remaining URLs; [extract_all_recipes] never raises. *)
Theorem failures_degrade_locally :
  (forall (U : Urllib) (K : Markup) rp sy sm sw ey em ew w w1 w2
          bs1 bs2 b m1 tc1 ta1 e,
      buckets sy sm sw ey em ew = bs1 ++ b :: bs2 ->
      visit_all rp bs1 ([], 0, 0) w = (Val (m1, tc1, ta1), w1) ->
      (resp <- fetch_url (bucket_url b) ;; lift (xml_locs (content resp))) w1
        = (Exc e, w2) ->
      visit_bucket rp b (m1, tc1, ta1) w1 =
        (Val (dict_set (bucket_url b) [] m1, tc1, ta1), w2) /\
      get_content_urls rp sy sm sw ey em ew w =
        visit_all rp bs2 (dict_set (bucket_url b) [] m1, tc1, ta1) w2 /\
      (forall m tc ta w',
          get_content_urls rp sy sm sw ey em ew w = (Val (m, tc, ta), w') ->
          dict_get (bucket_url b) m = Some [] /\
          map fst m = map bucket_url (buckets sy sm sw ey em ew))) /\
  (forall (K : Markup) urls1 u urls2 w r1 j1 w1 e w2,
      extract_all_recipes urls1 w = (Val (r1, j1), w1) ->
      fetch_url u w1 = (Exc e, w2) ->
      exists r2 j2 w3,
        extract_all_recipes urls2 w2 = (Val (r2, j2), w3) /\
        extract_all_recipes (urls1 ++ u :: urls2) w =
          (Val (r1 ++ r2, j1 ++ u :: j2), w3)) /\
  (forall (K : Markup) urls w,
      exists r j w', extract_all_recipes urls w = (Val (r, j), w')).
Proof.
  split; [|split].
  - intros U K rp sy sm sw ey em ew w w1 w2 bs1 bs2 b m1 tc1 ta1 e Hbs H1 Hf.
    split; [now apply (visit_bucket_failed rp b m1 tc1 ta1 w1 w2 e)|].
    exact (enumeration_continues rp sy sm sw ey em ew w w1 w2 bs1 bs2 b
                                 m1 tc1 ta1 e Hbs H1 Hf).
  - intros K urls1 u urls2 w r1 j1 w1 e w2 H1 Hf.
    destruct (extract_all_recipes_split urls1 urls2 u w)
      as (r1' & j1' & w1' & ru & ju & w2' & r2 & j2 & w3 & A & B & C & D).
    rewrite H1 in A. injection A as <- <- <-.
    apply static_path_fetch_failed, classify_one_failed in Hf.
    rewrite Hf in B. injection B as <- <- <-.
    exists r2, j2, w3. split; [exact C|]. exact D.
  - intros K urls w. apply extract_all_recipes_returns.
Qed.

Lemma failures_degrade_locally_witness :
  get_content_urls (U := AsciiUrllib.ascii_urllib)
    (K := fixed_markup None None None) rp_private 2024 1 1 2024 1 2
    (mkWorld net_down []) =
  visit_all (U := AsciiUrllib.ascii_urllib)
    (K := fixed_markup None None None) rp_private [(2024, 1, 2)]
    ([(bucket_url (2024, 1, 1), [])], 0, 0)
    (mkWorld net_down
       [EGet (bucket_url (2024, 1, 1)); ESleep 2;
        EGet (bucket_url (2024, 1, 1)); ESleep 2;
        EGet (bucket_url (2024, 1, 1))]).
Proof.
  exact (proj1 (proj2
    (proj1 failures_degrade_locally AsciiUrllib.ascii_urllib
       (fixed_markup None None None) rp_private 2024 1 1 2024 1 2
       (mkWorld net_down []) (mkWorld net_down [])
       (mkWorld net_down
          [EGet (bucket_url (2024, 1, 1)); ESleep 2;
           EGet (bucket_url (2024, 1, 1)); ESleep 2;
           EGet (bucket_url (2024, 1, 1))])
       [] [(2024, 1, 2)] (2024, 1, 1) [] 0 0 RetryError
       eq_refl eq_refl eq_refl))).
Defined.

(** ** The robots.txt downloads of a run *)

Section RobotsDownloads.
Context {U : Urllib}.
Import Robotparser.

Lemma add_entry_url (rp : RobotFileParser) (e : Entry) :
  url (add_entry rp e) = url rp.
Proof.
  unfold add_entry. destruct (existsb _ _); [|reflexivity].
  destruct (default_entry rp); reflexivity.
Qed.

Lemma parse_line_url (st st' : parse_state) (line : string) :
  parse_line st line = Val st' -> url (ps_rp st') = url (ps_rp st).
Proof.
  unfold parse_line. intros H.
  repeat match type of H with
         | context [if ?c then _ else _] => destruct c
         | context [match ?x with _ => _ end] => destruct x
         end;
    try discriminate; injection H as <-; cbn [ps_rp];
    unfold add_sitemap; cbn [url]; rewrite ?add_entry_url; reflexivity.
Qed.

Lemma parse_lines_url (lines : list string) :
  forall st st', parse_lines st lines = Val st' ->
                 url (ps_rp st') = url (ps_rp st).
Proof.
  induction lines as [|l lines IH]; cbn; intros st st' H.
  - now injection H as <-.
  - destruct (parse_line st l) as [st1|e] eqn:E; [|discriminate].
    rewrite (IH _ _ H). exact (parse_line_url _ _ _ E).
Qed.

Lemma parse_url (rp rp' : RobotFileParser) (lines : list string) :
  parse rp lines = Val rp' -> url rp' = url rp.
Proof.
  unfold parse. intros H.
  destruct (parse_lines _ lines) as [st|e] eqn:E; [|discriminate].
  apply parse_lines_url in E. cbn in E.
  destruct (ps_state st =? 2); injection H as <-;
    rewrite ?add_entry_url; exact E.
Qed.

(** [read] makes exactly one download, with [urlopen], of the parser's URL,
    and leaves the URL of the parser alone. *)
Lemma read_world (rp : RobotFileParser) (w : World) :
  snd (read rp w) = record (EUrlopen (url rp)) w.
Proof.
  unfold read, urlopen.
  destruct (net w (log w) (url rp)) as [|status body|]; try reflexivity.
  destruct ((200 <=? status) && (status <? 300)); [reflexivity|].
  destruct ((status =? 401) || (status =? 403)); [reflexivity|].
  destruct ((status >=? 400) && (status <? 500)); reflexivity.
Qed.

Lemma read_url (rp rp' : RobotFileParser) (w w' : World) :
  read rp w = (Val rp', w') -> url rp' = url rp.
Proof.
  unfold read, urlopen.
  destruct (net w (log w) (url rp)) as [|status body|]; try discriminate.
  destruct ((200 <=? status) && (status <? 300)).
  - intros [= H _]. exact (parse_url _ _ _ H).
  - destruct ((status =? 401) || (status =? 403)); [now intros [= <- _]|].
    destruct ((status >=? 400) && (status <? 500)); now intros [= <- _].
Qed.

Lemma get_robots_summary_eq (rp : RobotFileParser) (w : World) :
  get_robots_summary rp w =
  match fetch_url (url rp) w with
  | (Val resp, w') =>
      (Val (fold_left summary_line (Py.splitlines (content resp))
                      (mkSummary [] [] None [])), w')
  | (Exc e, w') => (Exc e, w')
  end.
Proof. reflexivity. Qed.
End RobotsDownloads.

(** C9 (amended). The rule set [rp] that answers [can_fetch] is built by
    exactly one download of robots.txt (the [urlopen] of [rp.read()]), and
    the enumeration never downloads it again. The summary does not come
    from that download: [get_robots_summary] fetches robots.txt anew with
    [fetch_url], in one to three further requests, and is computed from the
    body of that response. *)
Theorem robots_downloads :
  forall (U : Urllib) w rp summary w',
    startup w = (Val (rp, summary), w') ->
    Robotparser.read (Robotparser.new robots_url) w
      = (Val rp, record (EUrlopen robots_url) w) /\
    Robotparser.url rp = robots_url /\
    (exists resp,
        fetch_url robots_url (record (EUrlopen robots_url) w) = (Val resp, w') /\
        summary = fold_left summary_line (Py.splitlines (content resp))
                            (mkSummary [] [] None [])) /\
    (exists n,
        (1 <= n <= 3)%nat /\
        log w' = log w ++ EUrlopen robots_url
                       :: attempt_events (wait_exponential 1 2 10) robots_url n) /\
    (forall (K : Markup) sy sm sw ey em ew w0,
        exists es,
          snd (get_content_urls rp sy sm sw ey em ew w0)
            = mkWorld (net w0) (log w0 ++ es) /\
          only_fetches (map bucket_url (buckets sy sm sw ey em ew)) es).
Proof.
  intros U w rp summary w' H.
  unfold startup, make_rp, bind in H.
  pose proof (read_world (Robotparser.new robots_url) w) as Hw.
  destruct (Robotparser.read (Robotparser.new robots_url) w)
    as [[rp0|e] w0] eqn:R; [|discriminate].
  cbn [snd] in Hw. subst w0.
  pose proof (read_url _ _ _ _ R) as Hurl.
  change (Robotparser.url (Robotparser.new robots_url)) with robots_url in *.
  rewrite get_robots_summary_eq, Hurl in H.
  destruct (fetch_url_cases robots_url (record (EUrlopen robots_url) w))
    as (n & r & E & Hn & _).
  destruct (fetch_url robots_url (record (EUrlopen robots_url) w))
    as [[resp|e] w1] eqn:F; [|discriminate].
  unfold ret in H. injection H as <- <- <-.
  split; [reflexivity|]. split; [exact Hurl|]. split; [|split].
  - exists resp. auto.
  - exists n. split; [exact Hn|]. injection E as _ ->. cbn [log record].
    now rewrite <- app_assoc.
  - intros K sy sm sw ey em ew w0. apply get_content_urls_world.
Qed.

Lemma robots_downloads_witness :
  exists n,
    (1 <= n <= 3)%nat /\
    [EUrlopen robots_url; EGet robots_url] =
    [] ++ EUrlopen robots_url
       :: attempt_events (wait_exponential 1 2 10) robots_url n.
Proof.
  assert (H : startup (U := AsciiUrllib.ascii_urllib)
                (mkWorld (net_serving "User-agent: *") [])
              = (Val (Robotparser.mkRobotFileParser [] [] None false false
                        robots_url true,
                      mkSummary [] [] None []),
                 mkWorld (net_serving "User-agent: *")
                         [EUrlopen robots_url; EGet robots_url]))
    by reflexivity.
  exact (proj1 (proj2 (proj2 (proj2 (robots_downloads _ _ _ _ _ H))))).
Defined.

(** C9 as stated fails: a run that is served robots.txt at once downloads
    it twice, first with [urlopen] for the rule set and then with
    [requests] for the summary. *)
Lemma robots_second_download_counterexample :
  log (snd (startup (U := AsciiUrllib.ascii_urllib)
              (mkWorld (net_serving "User-agent: *") [])))
  = [EUrlopen "https://www.bonappetit.com/robots.txt";
     EGet "https://www.bonappetit.com/robots.txt"].
Proof. reflexivity. Qed.

(** ** Further runs of the model *)

(** A sitemap with a [loc] element that has no text: once rules were
    parsed, [can_fetch] raises on it and the enumeration raises with it. *)
Example enumeration_raises_on_empty_loc :
  fst (get_content_urls (U := AsciiUrllib.ascii_urllib)
         (K := fixed_markup (Some [Some "https://www.bonappetit.com/recipe/a";
                                   None]) None None)
         rp_private 2024 1 1 2024 1 1 (mkWorld (net_serving "x") []))
  = Exc TypeError.
Proof. reflexivity. Qed.

(** How [rp.read()] treats the status of the robots.txt response. *)
Example read_by_status :
  fst (Robotparser.read (U := AsciiUrllib.ascii_urllib)
         (Robotparser.new robots_url)
         (mkWorld (fun _ _ => Response 403 "") []))
  = Val (Robotparser.mkRobotFileParser [] [] None true false robots_url false)
  /\
  fst (Robotparser.read (U := AsciiUrllib.ascii_urllib)
         (Robotparser.new robots_url)
         (mkWorld (fun _ _ => Response 404 "") []))
  = Val (Robotparser.mkRobotFileParser [] [] None false true robots_url false)
  /\
  fst (Robotparser.read (U := AsciiUrllib.ascii_urllib)
         (Robotparser.new robots_url)
         (mkWorld (fun _ _ => Response 503 "") []))
  = Val (Robotparser.new robots_url)
  /\
  fst (Robotparser.read (U := AsciiUrllib.ascii_urllib)
         (Robotparser.new robots_url) (mkWorld net_down []))
  = Exc URLError.
Proof. repeat split; reflexivity. Qed.

(** The same arguments passed by keyword make another cache key. *)
Example cache_key_by_call_shape :
  key_eqb ("get_content_urls", [2024; 1; 1; 2024; 3; 2], [])
          ("get_content_urls", [2024; 1; 1; 2024; 3],
           sorted_items [("end_week", 2)]) = false /\
  bind_args ["start_year"; "start_month"; "start_week";
             "end_year"; "end_month"; "end_week"]
            [2024; 1; 1; 2024; 3] [("end_week", 2)]
  = Val [2024; 1; 1; 2024; 3; 2].
Proof. split; reflexivity. Qed.

(** The failing range of C2 on a network that serves one URL per sitemap:
    two buckets are fetched and both totals are 2. *)
Example week_level_empty_range_run :
  get_content_urls (U := AsciiUrllib.ascii_urllib)
    (K := fixed_markup (Some [Some "https://www.bonappetit.com/recipe/a"])
                       None None)
    rp_private 2024 3 3 2024 3 2 (mkWorld (net_serving "x") [])
  = (Val ([(bucket_url (2024, 3, 1),
            [Some "https://www.bonappetit.com/recipe/a"]);
           (bucket_url (2024, 3, 2),
            [Some "https://www.bonappetit.com/recipe/a"])], 2, 2),
     mkWorld (net_serving "x")
       [EGet (bucket_url (2024, 3, 1)); EGet (bucket_url (2024, 3, 2))]).
Proof. reflexivity. Qed.

(** The fields that [get_robots_summary] collects, line by line. *)
Example summary_lines :
  fold_left summary_line
    ["User-agent: *"; "Allow: /a"; "disallow:/b "; "Crawl-delay: 5";
     "Crawl-Delay: 7"; "Sitemap: https://www.bonappetit.com/sitemap.xml"]
    (mkSummary [] [] None [])
  = mkSummary ["/a"] ["/b"] (Some "7")
              ["https://www.bonappetit.com/sitemap.xml"].
Proof. reflexivity. Qed.

(* ================================================================== *)
(** * Further properties of the code *)

(** ** [fetch_url] *)

Lemma attempt_events_cases (url : string) (n : nat) :
  (1 <= n <= 3)%nat ->
  let es := attempt_events (wait_exponential 1 2 10) url n in
  gets es = Z.of_nat n /\ slept es = 2 * (Z.of_nat n - 1) /\
  filter is_request es = repeat (EGet url) n.
Proof.
  intros H. assert (C : n = 1%nat \/ n = 2%nat \/ n = 3%nat) by lia.
  destruct C as [-> | [-> | ->]]; cbn; repeat split; reflexivity.
Qed.

(** X1. An exception of [fetch_url] is never the request exception itself:
    it is RetryError, raised after exactly three attempts that all failed
    retriably, or the exception of a client crash, raised at once. *)
Theorem fetch_url_raises (url : string) (w w' : World) (e : exn) :
  fetch_url url w = (Exc e, w') ->
  (e = RetryError /\
   log w' = log w ++ [EGet url; ESleep 2; EGet url; ESleep 2; EGet url] /\
   forall k, (1 <= k <= 3)%nat -> retriable (outcome_of_attempt url w k) = true)
  \/
  (e = OtherError /\
   exists n, (1 <= n <= 3)%nat /\
             outcome_of_attempt url w n = ClientCrash /\
             log w' = log w ++ attempt_events (wait_exponential 1 2 10) url n).
Proof.
  intros H.
  destruct (fetch_url_cases url w) as (n & r & E & Hn & Hk & Hr & H3).
  rewrite E in H. injection H as -> <-. cbn [log].
  destruct (retriable (outcome_of_attempt url w n)) eqn:R.
  - left. injection Hr as <-. rewrite (H3 eq_refl) in *.
    split; [reflexivity|]. split; [reflexivity|].
    intros k Hk'. assert (C : (1 <= k < 3)%nat \/ k = 3%nat) by lia.
    destruct C as [C| ->]; [now apply Hk|exact R].
  - right. destruct (outcome_of_attempt url w n) as [|status body|] eqn:O;
      cbn in R, Hr; try discriminate.
    + destruct ((400 <=? status) && (status <? 600)); discriminate.
    + injection Hr as <-. split; [reflexivity|]. exists n. auto.
Qed.

Lemma fetch_url_raises_witness :
  retriable (outcome_of_attempt "u" (mkWorld net_down []) 3) = true.
Proof.
  destruct (fetch_url_raises "u" (mkWorld net_down [])
              (mkWorld net_down
                 [EGet "u"; ESleep 2; EGet "u"; ESleep 2; EGet "u"])
              RetryError eq_refl) as [(_ & _ & H)|(H1 & _)].
  - apply H. lia.
  - discriminate H1.
Defined.

(** X2. A response that [fetch_url] returns is the answer that the network
    gave to the last attempt, and its status is never a 4xx or 5xx one. *)
Theorem fetch_url_returns (url : string) (w w' : World) (resp : response) :
  fetch_url url w = (Val resp, w') ->
  ~ (400 <= status_code resp < 600) /\
  exists n,
    (1 <= n <= 3)%nat /\
    outcome_of_attempt url w n = Response (status_code resp) (content resp) /\
    (forall k, (1 <= k < n)%nat ->
               retriable (outcome_of_attempt url w k) = true) /\
    w' = mkWorld (net w)
                 (log w ++ attempt_events (wait_exponential 1 2 10) url n).
Proof.
  intros H.
  destruct (fetch_url_cases url w) as (n & r & E & Hn & Hk & Hr & _).
  rewrite E in H. injection H as -> <-.
  destruct (retriable (outcome_of_attempt url w n)) eqn:R; [discriminate|].
  destruct (outcome_of_attempt url w n) as [|status body|] eqn:O;
    cbn in R, Hr; try discriminate.
  rewrite R in Hr. injection Hr as ->. cbn [status_code content].
  split.
  - intros C. apply andb_false_iff in R as [R|R]; lia.
  - exists n. auto.
Qed.

Lemma fetch_url_returns_witness :
  exists n,
    (1 <= n <= 3)%nat /\
    outcome_of_attempt "u" (mkWorld (net_serving "x") []) n = Response 200 "x" /\
    (forall k, (1 <= k < n)%nat ->
               retriable (outcome_of_attempt "u" (mkWorld (net_serving "x") []) k)
               = true) /\
    mkWorld (net_serving "x") [EGet "u"] =
    mkWorld (net_serving "x")
            ([] ++ attempt_events (wait_exponential 1 2 10) "u" n).
Proof.
  exact (proj2 (fetch_url_returns "u" (mkWorld (net_serving "x") [])
                  (mkWorld (net_serving "x") [EGet "u"])
                  (mkResponse 200 "x") eq_refl)).
Defined.


Lemma fetch_url_attempts (url : string) (w : World) :
  exists n,
    (1 <= n <= 3)%nat /\
    snd (fetch_url url w)
      = mkWorld (net w)
                (log w ++ attempt_events (wait_exponential 1 2 10) url n) /\
    gets (attempt_events (wait_exponential 1 2 10) url n) = Z.of_nat n /\
    slept (attempt_events (wait_exponential 1 2 10) url n)
      = 2 * (Z.of_nat n - 1) /\
    only_fetches [url] (attempt_events (wait_exponential 1 2 10) url n).
Proof.
  destruct (fetch_url_cases url w) as (n & r & E & Hn & _).
  exists n. rewrite E. cbn [snd].
  destruct (attempt_events_cases url n Hn) as (Hg & Hs & _).
  split; [exact Hn|]. split; [reflexivity|]. split; [exact Hg|].
  split; [exact Hs|apply attempt_events_only].
Qed.


(** ** [get_robots_summary] *)

Lemma last_value_cons (x : string) (l : list string) :
  last_value (x :: l) =
  match last_value l with
  | Some v => Some v
  | None => Some x
  end.
Proof.
  unfold last_value. revert x. induction l as [|y l IH]; intros x.
  - reflexivity.
  - change (last (map Some (x :: y :: l)) None)
      with (last (map Some (y :: l)) None).
    rewrite (IH y). now destruct (last (map Some l) None).
Qed.

Lemma values_of_cons (d : directive) (line : string) (lines : list string) :
  values_of d (line :: lines) =
  (if directive_eqb (directive_of line) d
   then [directive_value (Py.strip line)] else []) ++ values_of d lines.
Proof.
  unfold values_of. cbn [filter].
  destruct (directive_eqb (directive_of line) d); reflexivity.
Qed.

Lemma summary_collects_from (lines : list string) :
  forall s,
    fold_left summary_line lines s =
    mkSummary (allowed s ++ values_of DAllow lines)
              (disallowed s ++ values_of DDisallow lines)
              (match last_value (values_of DCrawlDelay lines) with
               | Some v => Some v
               | None => crawl_delay s
               end)
              (sitemap_links s ++ values_of DSitemap lines).
Proof.
  induction lines as [|line lines IH]; intros s.
  - cbn. destruct s. now rewrite !app_nil_r.
  - cbn [fold_left]. rewrite IH, !values_of_cons.
    unfold summary_line, directive_of.
    destruct (Py.startswith "allow:" (Py.lower (Py.strip line)));
      [cbn; now rewrite <- !app_assoc|].
    destruct (Py.startswith "disallow:" (Py.lower (Py.strip line)));
      [cbn; now rewrite <- !app_assoc|].
    destruct (Py.startswith "crawl-delay:" (Py.lower (Py.strip line))).
    + cbn [directive_eqb app allowed disallowed crawl_delay sitemap_links].
      rewrite last_value_cons.
      now destruct (last_value (values_of DCrawlDelay lines)).
    + destruct (Py.startswith "sitemap:" (Py.lower (Py.strip line)));
        cbn; now rewrite <- ?app_assoc, ?app_nil_r.
Qed.

(** X4. The summary holds, for each of Allow, Disallow and Sitemap, the
    values of all lines with that directive, in the order of the file and
    with repetitions; the crawl delay is the value of the last Crawl-delay
    line; all other lines are ignored. *)
Theorem summary_collects (lines : list string) :
  fold_left summary_line lines (mkSummary [] [] None []) =
  mkSummary (values_of DAllow lines) (values_of DDisallow lines)
            (last_value (values_of DCrawlDelay lines))
            (values_of DSitemap lines).
Proof.
  rewrite summary_collects_from. cbn [allowed disallowed crawl_delay
                                      sitemap_links app].
  now destruct (last_value (values_of DCrawlDelay lines)).
Qed.

Lemma split1_first (c : ascii) (key v : string) :
  Py.has_char c key = false ->
  Py.split1 c (key ++ String c v) = Some (key, v).
Proof.
  induction key as [|x key IH]; cbn; intros H.
  - now rewrite Ascii.eqb_refl.
  - apply orb_false_iff in H as [Hx Hk]. rewrite Hx, (IH Hk). reflexivity.
Qed.

Lemma rstrip_cons_nonspace (c : ascii) (s : string) :
  Py.is_space c = false -> Py.rstrip (String c s) = String c (Py.rstrip s).
Proof. intros H. cbn [Py.rstrip]. rewrite H. now destruct (Py.rstrip s). Qed.

Lemma rstrip_prefix (p v : string) :
  no_space p = true -> Py.rstrip (p ++ v) = (p ++ Py.rstrip v)%string.
Proof.
  induction p as [|c p IH]; cbn [no_space append]; intros H; [reflexivity|].
  apply andb_true_iff in H as [Hc Hp]. apply negb_true_iff in Hc.
  now rewrite rstrip_cons_nonspace, IH.
Qed.

Lemma rstrip_idem (s : string) : Py.rstrip (Py.rstrip s) = Py.rstrip s.
Proof.
  induction s as [|c s IH]; [reflexivity|]. cbn [Py.rstrip].
  destruct (Py.rstrip s) as [|d r] eqn:E.
  - destruct (Py.is_space c) eqn:Hc; [reflexivity|]. cbn. now rewrite Hc.
  - cbn [Py.rstrip]. cbn [Py.rstrip] in IH. rewrite IH. reflexivity.
Qed.

Lemma lstrip_rstrip (s : string) :
  Py.lstrip (Py.rstrip s) = Py.rstrip (Py.lstrip s).
Proof.
  induction s as [|c s IH]; [reflexivity|].
  destruct (Py.is_space c) eqn:Hc.
  - cbn [Py.lstrip Py.rstrip]. rewrite Hc, <- IH.
    destruct (Py.rstrip s) as [|d r]; [reflexivity|].
    cbn [Py.lstrip]. now rewrite Hc.
  - rewrite rstrip_cons_nonspace by exact Hc. cbn [Py.lstrip]. rewrite Hc.
    now rewrite rstrip_cons_nonspace.
Qed.

Lemma strip_rstrip (s : string) : Py.strip (Py.rstrip s) = Py.strip s.
Proof. unfold Py.strip. now rewrite lstrip_rstrip, rstrip_idem. Qed.

(** X5. The value recorded for a directive line is everything after the
    first colon, stripped: colons inside the value (as in a sitemap URL)
    are kept. *)
Theorem directive_value_keeps_colons (key v : string) :
  key <> "" -> no_space key = true -> Py.has_char ":" key = false ->
  directive_value (Py.strip (key ++ ":" ++ v)) = Py.strip v.
Proof.
  intros Hne Hs Hc.
  assert (E : Py.strip (key ++ ":" ++ v) = (key ++ ":" ++ Py.rstrip v)%string).
  { unfold Py.strip. destruct key as [|c key]; [contradiction|].
    cbn [no_space] in Hs. apply andb_true_iff in Hs as [Hc0 Hs].
    apply negb_true_iff in Hc0. cbn [append Py.lstrip]. rewrite Hc0.
    rewrite rstrip_cons_nonspace by exact Hc0. f_equal.
    rewrite rstrip_prefix by exact Hs.
    change (":" ++ v)%string with (String ":" v).
    now rewrite rstrip_cons_nonspace. }
  rewrite E. unfold directive_value.
  change (":" ++ Py.rstrip v)%string with (String ":" (Py.rstrip v)).
  rewrite split1_first by exact Hc. apply strip_rstrip.
Qed.

Lemma directive_value_keeps_colons_witness :
  directive_value
    (Py.strip ("Sitemap" ++ ":" ++ " https://www.bonappetit.com/sitemap.xml "))
  = Py.strip " https://www.bonappetit.com/sitemap.xml ".
Proof.
  apply (directive_value_keeps_colons "Sitemap"
           " https://www.bonappetit.com/sitemap.xml ");
    [discriminate|reflexivity|reflexivity].
Defined.

(** ** The [cache] decorator *)

Lemma cache_lookup_app_some {V} (key : cache_key) (v : V)
      (cd cd' : cache_data V) :
  cache_lookup key cd = Some v -> cache_lookup key (cd ++ cd') = Some v.
Proof.
  induction cd as [|[k' v'] cd IH]; cbn; [discriminate|].
  destruct (key_eqb k' key); auto.
Qed.

(** X6. The cache never evicts or overwrites: what is stored under a key
    before a call of the decorated function, with any arguments, is stored
    under it after the call. *)
Theorem cache_keeps_entries {V} (name : string)
        (func : list Z -> list (string * Z) -> M V)
        (args : list Z) (kwargs : list (string * Z)) (cd : cache_data V)
        (w : World) (key : cache_key) (v : V) :
  cache_lookup key cd = Some v ->
  cache_lookup key (snd (fst (wrapper name func args kwargs cd w))) = Some v.
Proof.
  intros H. unfold wrapper.
  destruct (cache_lookup (name, args, sorted_items kwargs) cd); [exact H|].
  destruct (func args kwargs w) as [[v'|e] w']; cbn [fst snd]; [|exact H].
  now apply cache_lookup_app_some.
Qed.

Lemma cache_keeps_entries_witness :
  cache_lookup ("get_content_urls", [2024; 1; 1; 2024; 1; 1], [])
    (snd (fst (get_content_urls_cached (U := AsciiUrllib.ascii_urllib)
                 (K := fixed_markup None None None) rp_private
                 [2025; 1; 1; 2025; 1; 1] []
                 [(("get_content_urls", [2024; 1; 1; 2024; 1; 1], []),
                   ([], 5, 3))]
                 (mkWorld net_down []))))
  = Some ([], 5, 3).
Proof.
  apply (cache_keeps_entries "get_content_urls"
           (call_get_content_urls (U := AsciiUrllib.ascii_urllib)
              (K := fixed_markup None None None) rp_private)).
  reflexivity.
Defined.

(** X7. A call that raises stores nothing: the exception is that of the
    decorated function, the cache is unchanged, and the next call with the
    same arguments runs the function again. *)
Theorem cache_skips_exceptions {V} (name : string)
        (func : list Z -> list (string * Z) -> M V)
        (args : list Z) (kwargs : list (string * Z)) (cd cd' : cache_data V)
        (w w' : World) (e : exn) :
  wrapper name func args kwargs cd w = (Exc e, cd', w') ->
  cd' = cd /\
  func args kwargs w = (Exc e, w') /\
  forall w2,
    wrapper name func args kwargs cd' w2 =
    match func args kwargs w2 with
    | (Val v, w3) =>
        (Val v, cd ++ [((name, args, sorted_items kwargs), v)], w3)
    | (Exc e2, w3) => (Exc e2, cd, w3)
    end.
Proof.
  unfold wrapper.
  destruct (cache_lookup (name, args, sorted_items kwargs) cd) eqn:L;
    [discriminate|].
  destruct (func args kwargs w) as [[v|e0] w0]; [discriminate|].
  intros [= -> <- ->]. split; [reflexivity|]. split; [reflexivity|].
  intros w2. now rewrite L.
Qed.

Lemma cache_skips_exceptions_witness :
  call_get_content_urls (U := AsciiUrllib.ascii_urllib)
    (K := fixed_markup None None None) rp_private [2024; 1; 1] []
    (mkWorld net_down [])
  = (Exc TypeError, mkWorld net_down []).
Proof.
  exact (proj1 (proj2
    (cache_skips_exceptions "get_content_urls"
       (call_get_content_urls (U := AsciiUrllib.ascii_urllib)
          (K := fixed_markup None None None) rp_private)
       [2024; 1; 1] [] [] [] (mkWorld net_down []) (mkWorld net_down [])
       TypeError eq_refl))).
Defined.

Lemma ascii_compare_lt_trans (a b c : ascii) :
  Ascii.compare a b = Lt -> Ascii.compare b c = Lt -> Ascii.compare a c = Lt.
Proof.
  unfold Ascii.compare. rewrite !N.compare_lt_iff. apply N.lt_trans.
Qed.

Lemma string_compare_lt_trans (s1 : string) :
  forall s2 s3,
    String.compare s1 s2 = Lt -> String.compare s2 s3 = Lt ->
    String.compare s1 s3 = Lt.
Proof.
  induction s1 as [|a s1 IH]; intros [|b s2] [|c s3]; cbn; try discriminate;
    auto.
  destruct (Ascii.compare a b) eqn:Eab; try discriminate;
    destruct (Ascii.compare b c) eqn:Ebc; try discriminate; intros H1 H2.
  - apply Ascii.compare_eq_iff in Eab, Ebc. subst.
    assert (R : Ascii.compare c c = Eq)
      by (unfold Ascii.compare; apply N.compare_refl).
    rewrite R. eauto.
  - apply Ascii.compare_eq_iff in Eab. subst. now rewrite Ebc.
  - apply Ascii.compare_eq_iff in Ebc. subst. now rewrite Eab.
  - now rewrite (ascii_compare_lt_trans a b c Eab Ebc).
Qed.

Lemma string_leb_trans (s1 s2 s3 : string) :
  String.leb s1 s2 = true -> String.leb s2 s3 = true -> String.leb s1 s3 = true.
Proof.
  unfold String.leb.
  destruct (String.compare s1 s2) eqn:E12; try discriminate;
    destruct (String.compare s2 s3) eqn:E23; try discriminate; intros _ _.
  - apply String.compare_eq_iff in E12, E23. subst.
    destruct (String.compare s3 s3) eqn:E; try reflexivity.
    pose proof (String.compare_antisym s3 s3) as A. rewrite E in A.
    discriminate.
  - apply String.compare_eq_iff in E12. subst. now rewrite E23.
  - apply String.compare_eq_iff in E23. subst. now rewrite E12.
  - now rewrite (string_compare_lt_trans s1 s2 s3 E12 E23).
Qed.

(** Inserting two items with different names gives the same list in
    either order. *)
Lemma insert_kw_comm (p q : string * Z) (l : list (string * Z)) :
  fst p <> fst q ->
  insert_kw p (insert_kw q l) = insert_kw q (insert_kw p l).
Proof.
  intros N.
  assert (Hpq : String.leb (fst p) (fst q) = true ->
                String.leb (fst q) (fst p) = false).
  { intros H. destruct (String.leb (fst q) (fst p)) eqn:E; [|reflexivity].
    exfalso. apply N. now apply String.leb_antisym. }
  assert (Hqp : String.leb (fst p) (fst q) = false ->
                String.leb (fst q) (fst p) = true).
  { intros H. destruct (String.leb_total (fst p) (fst q)); congruence. }
  induction l as [|r l IH]; cbn [insert_kw].
  - destruct (String.leb (fst p) (fst q)) eqn:E.
    + now rewrite (Hpq eq_refl).
    + now rewrite (Hqp eq_refl).
  - destruct (String.leb (fst q) (fst r)) eqn:Eqr,
             (String.leb (fst p) (fst r)) eqn:Epr; cbn [insert_kw].
    + destruct (String.leb (fst p) (fst q)) eqn:E.
      * now rewrite (Hpq eq_refl), Eqr.
      * now rewrite (Hqp eq_refl), Epr.
    + destruct (String.leb (fst p) (fst q)) eqn:E.
      * rewrite (string_leb_trans _ _ _ E Eqr) in Epr. discriminate.
      * now rewrite Epr, Eqr.
    + destruct (String.leb (fst q) (fst p)) eqn:E.
      * rewrite (string_leb_trans _ _ _ E Epr) in Eqr. discriminate.
      * now rewrite Eqr, Epr.
    + now rewrite Epr, Eqr, IH.
Qed.

Lemma sorted_items_perm (k1 k2 : list (string * Z)) :
  Permutation.Permutation k1 k2 -> NoDup (map fst k1) ->
  sorted_items k1 = sorted_items k2.
Proof.
  unfold sorted_items.
  induction 1 as [|x l l' Hp IH|x y l|l l' l'' H1 IH1 H2 IH2]; intros Hnd.
  - reflexivity.
  - cbn. f_equal. apply IH. cbn in Hnd. now inversion Hnd.
  - cbn. apply insert_kw_comm. cbn in Hnd.
    inversion Hnd as [|? ? Hy _]; subst. intros E. apply Hy. now left.
  - rewrite IH1 by exact Hnd. apply IH2.
    eapply Permutation.Permutation_NoDup;
      [apply Permutation.Permutation_map; exact H1|exact Hnd].
Qed.

(** X8. The order in which keyword arguments are written does not matter
    to the cache: after a call that returned, a call with the same
    positional arguments and the same keyword arguments in another order is
    a hit. *)
Theorem cache_ignores_keyword_order {V} (name : string)
        (func : list Z -> list (string * Z) -> M V)
        (args : list Z) (kwargs kwargs' : list (string * Z))
        (cd cd1 : cache_data V) (w w1 w2 : World) (v : V) :
  NoDup (map fst kwargs) ->
  Permutation.Permutation kwargs kwargs' ->
  wrapper name func args kwargs cd w = (Val v, cd1, w1) ->
  wrapper name func args kwargs' cd1 w2 = (Val v, cd1, w2).
Proof.
  intros Hnd Hp H. apply wrapper_hit.
  rewrite <- (sorted_items_perm kwargs kwargs' Hp Hnd).
  unfold wrapper in H.
  destruct (cache_lookup (name, args, sorted_items kwargs) cd) as [v0|] eqn:L.
  - now injection H as <- <- _.
  - destruct (func args kwargs w) as [[v0|e] w0]; [|discriminate].
    injection H as <- <- _. now apply cache_lookup_new.
Qed.

Lemma cache_ignores_keyword_order_witness :
  get_content_urls_cached (U := AsciiUrllib.ascii_urllib)
    (K := fixed_markup None None None) rp_private
    [2024; 1; 1; 2024] [("end_week", 1); ("end_month", 1)]
    [(("get_content_urls", [2024; 1; 1; 2024],
       [("end_month", 1); ("end_week", 1)]),
      ([(bucket_url (2024, 1, 1), [])], 0, 0))]
    (mkWorld (net_serving "x") [])
  = (Val ([(bucket_url (2024, 1, 1), [])], 0, 0),
     [(("get_content_urls", [2024; 1; 1; 2024],
        [("end_month", 1); ("end_week", 1)]),
       ([(bucket_url (2024, 1, 1), [])], 0, 0))],
     mkWorld (net_serving "x") []).
Proof.
  apply (cache_ignores_keyword_order "get_content_urls"
           (call_get_content_urls (U := AsciiUrllib.ascii_urllib)
              (K := fixed_markup None None None) rp_private)
           [2024; 1; 1; 2024]
           [("end_month", 1); ("end_week", 1)]
           [("end_week", 1); ("end_month", 1)]
           [] _ (mkWorld net_down [])
           (mkWorld net_down
              [EGet (bucket_url (2024, 1, 1)); ESleep 2;
               EGet (bucket_url (2024, 1, 1)); ESleep 2;
               EGet (bucket_url (2024, 1, 1))])).
  - repeat constructor; cbn; intuition discriminate.
  - apply Permutation.perm_swap.
  - reflexivity.
Defined.

Lemma bind_keywords_length (names : list string) :
  forall kwargs vs,
    bind_keywords names kwargs = Val vs -> List.length vs = List.length names.
Proof.
  induction names as [|n names IH]; intros kwargs vs; cbn.
  - destruct kwargs; [|discriminate]. now intros [= <-].
  - destruct (find _ kwargs) as [p|]; [|discriminate].
    destruct (bind_keywords names _) as [vs'|] eqn:E; [|discriminate].
    intros [= <-]. cbn. f_equal. exact (IH _ _ E).
Qed.

Lemma bind_args_length (names : list string) (args : list Z) :
  forall kwargs vs,
    bind_args names args kwargs = Val vs -> List.length vs = List.length names.
Proof.
  revert names. induction args as [|a args IH]; intros names kwargs vs.
  - cbn. destruct names; apply bind_keywords_length.
  - destruct names as [|n names]; cbn; [discriminate|].
    destruct (existsb _ kwargs); [discriminate|].
    destruct (bind_args names args kwargs) as [vs'|] eqn:E; [|discriminate].
    intros [= <-]. cbn. f_equal. exact (IH _ _ _ E).
Qed.

Lemma bind_args_positional (names : list string) (vs : list Z) :
  List.length vs = List.length names -> bind_args names vs [] = Val vs.
Proof.
  revert names. induction vs as [|v vs IH]; intros [|n names]; cbn;
    try discriminate; [reflexivity|].
  intros [= H]. now rewrite (IH names H).
Qed.

Lemma sorted_items_nonempty (kwargs : list (string * Z)) :
  kwargs <> [] -> sorted_items kwargs <> [].
Proof.
  destruct kwargs as [|p kwargs]; [contradiction|]. intros _.
  unfold sorted_items. cbn [fold_right].
  destruct (fold_right insert_kw [] kwargs) as [|q l]; cbn [insert_kw];
    [discriminate|].
  destruct (String.leb (fst p) (fst q)); discriminate.
Qed.

(** X9. The cache does not normalise the shape of a call: a call with
    keyword arguments names the same parameters as the call with all six
    values in positional order and computes the same, but the two are
    cached under different keys, so the second one runs the enumeration
    again. *)
Theorem cache_separates_call_shapes :
  forall (U : Urllib) (K : Markup) rp args kwargs vs,
    kwargs <> [] ->
    bind_args ["start_year"; "start_month"; "start_week";
               "end_year"; "end_month"; "end_week"] args kwargs = Val vs ->
    (forall w, call_get_content_urls rp vs [] w =
               call_get_content_urls rp args kwargs w) /\
    (forall w v cd1 w1 w2,
        get_content_urls_cached rp args kwargs [] w = (Val v, cd1, w1) ->
        get_content_urls_cached rp vs [] cd1 w2 =
        match call_get_content_urls rp vs [] w2 with
        | (Val v', w3) =>
            (Val v', cd1 ++ [(("get_content_urls", vs, []), v')], w3)
        | (Exc e, w3) => (Exc e, cd1, w3)
        end).
Proof.
  intros U K rp args kwargs vs Hk Hb. split.
  - intros w. unfold call_get_content_urls.
    rewrite Hb, bind_args_positional; [reflexivity|].
    exact (bind_args_length _ _ _ _ Hb).
  - intros w v cd1 w1 w2 H.
    unfold get_content_urls_cached, wrapper in H. cbn [cache_lookup] in H.
    destruct (call_get_content_urls rp args kwargs w) as [[v0|e] w0];
      [|discriminate].
    injection H as <- <- <-.
    unfold get_content_urls_cached, wrapper. cbn [app cache_lookup sorted_items
                                                  fold_right].
    destruct (key_eqb ("get_content_urls", args, sorted_items kwargs)
                      ("get_content_urls", vs, [])) eqn:E; [|reflexivity].
    apply key_eqb_eq in E. injection E as _ E.
    now apply sorted_items_nonempty in E.
Qed.

Lemma cache_separates_call_shapes_witness :
  call_get_content_urls (U := AsciiUrllib.ascii_urllib)
    (K := fixed_markup None None None) rp_private
    [2024; 1; 1; 2024; 3; 2] [] (mkWorld net_down []) =
  call_get_content_urls (U := AsciiUrllib.ascii_urllib)
    (K := fixed_markup None None None) rp_private
    [2024; 1; 1; 2024; 3] [("end_week", 2)] (mkWorld net_down []).
Proof.
  refine (proj1 (cache_separates_call_shapes AsciiUrllib.ascii_urllib
                   (fixed_markup None None None) rp_private
                   [2024; 1; 1; 2024; 3] [("end_week", 2)]
                   [2024; 1; 1; 2024; 3; 2] _ eq_refl)
                (mkWorld net_down [])).
  discriminate.
Defined.

(** ** [get_content_urls] *)

Lemma gets_app (es1 es2 : list event) : gets (es1 ++ es2) = gets es1 + gets es2.
Proof. unfold gets, len. rewrite filter_app, length_app. lia. Qed.

Lemma slept_app (es1 es2 : list event) :
  slept (es1 ++ es2) = slept es1 + slept es2.
Proof.
  unfold slept, Zsum. rewrite map_app, fold_right_app.
  induction (map seconds_of es1) as [|x l IH]; cbn; lia.
Qed.

(** A run with the end month before the start month, network down. *)
Lemma get_content_urls_empty_range_witness :
  get_content_urls (U := AsciiUrllib.ascii_urllib)
    (K := fixed_markup None None None) rp_private 2025 2 1 2025 1 4
    (mkWorld net_down [])
  = (Val ([], 0, 0), mkWorld net_down []).
Proof.
  apply (get_content_urls_empty_range (U := AsciiUrllib.ascii_urllib)
           (K := fixed_markup None None None)).
  right. split; [reflexivity|lia].
Defined.

Section EnumerationCost.
Context {U : Urllib} {K : Markup}.
Import Robotparser.

(** The loop fetches the sitemaps of the buckets in their order, each in
    one to three attempts, and does nothing else; it stops early only where
    the body raises. *)
Lemma visit_all_cost (rp : RobotFileParser) (bs : list bucket) :
  forall st w, exists ns,
    (List.length ns <= List.length bs)%nat /\
    Forall (fun n => (1 <= n <= 3)%nat) ns /\
    snd (visit_all rp bs st w)
      = mkWorld (net w) (log w ++ fetch_events (map bucket_url bs) ns) /\
    gets (fetch_events (map bucket_url bs) ns) <= 3 * len bs /\
    slept (fetch_events (map bucket_url bs) ns) <= 4 * len bs /\
    (forall st', fst (visit_all rp bs st w) = Val st' ->
                 List.length ns = List.length bs /\
                 len bs <= gets (fetch_events (map bucket_url bs) ns) /\
                 slept (fetch_events (map bucket_url bs) ns)
                 = 2 * (gets (fetch_events (map bucket_url bs) ns) - len bs)).
Proof.
  induction bs as [|b bs IH]; intros st w.
  - exists []. cbn. rewrite app_nil_r. destruct w.
    split; [lia|]. split; [constructor|]. split; [reflexivity|].
    split; [lia|]. split; [lia|]. intros; lia.
  - cbn [visit_all]. unfold bind.
    pose proof (visit_bucket_world rp b st w) as Hw.
    destruct (fetch_url_attempts (bucket_url b) w)
      as (n & Hn & E1 & G1 & S1 & _).
    rewrite E1 in Hw.
    unfold len in *. cbn [List.length map].
    destruct (visit_bucket rp b st w) as [[st1|e] w1]; cbn [snd] in Hw;
      subst w1.
    + destruct (IH st1 (mkWorld (net w)
                          (log w ++ attempt_events (wait_exponential 1 2 10)
                                      (bucket_url b) n)))
        as (ns & L2 & F2 & E2 & G2 & S2 & R2).
      exists (n :: ns). rewrite E2. cbn [net log fetch_events List.length].
      rewrite <- app_assoc, gets_app, slept_app.
      split; [lia|]. split; [now constructor|]. split; [reflexivity|].
      split; [lia|]. split; [lia|].
      intros st' H. destruct (R2 st' H) as (A & B & C). lia.
    + exists [n]. cbn [fst snd fetch_events List.length].
      assert (E0 : fetch_events (map bucket_url bs) [] = [])
        by now destruct (map bucket_url bs).
      rewrite E0, app_nil_r.
      split; [lia|]. split; [now constructor|]. split; [reflexivity|].
      split; [lia|]. split; [lia|discriminate].
Qed.
End EnumerationCost.

(** X11. An enumeration does nothing but fetch the sitemap URLs of its
    buckets, in the order of the buckets: each bucket's URL is requested in
    one to three attempts, with a sleep of two seconds between two attempts,
    before the next bucket's URL is requested; buckets are left out only
    after the point where the enumeration raises. So it makes at most three
    requests and sleeps at most four seconds per bucket, and when it
    returns every bucket was requested and the time slept is two seconds
    for every request beyond the first of a bucket. *)
Theorem enumeration_cost :
  forall (U : Urllib) (K : Markup) rp sy sm sw ey em ew w,
  exists ns,
    (List.length ns <= List.length (buckets sy sm sw ey em ew))%nat /\
    Forall (fun n => (1 <= n <= 3)%nat) ns /\
    snd (get_content_urls rp sy sm sw ey em ew w)
      = mkWorld (net w)
          (log w ++
           fetch_events (map bucket_url (buckets sy sm sw ey em ew)) ns) /\
    gets (fetch_events (map bucket_url (buckets sy sm sw ey em ew)) ns)
      <= 3 * len (buckets sy sm sw ey em ew) /\
    slept (fetch_events (map bucket_url (buckets sy sm sw ey em ew)) ns)
      <= 4 * len (buckets sy sm sw ey em ew) /\
    (forall st,
        fst (get_content_urls rp sy sm sw ey em ew w) = Val st ->
        List.length ns = List.length (buckets sy sm sw ey em ew) /\
        len (buckets sy sm sw ey em ew)
          <= gets (fetch_events (map bucket_url (buckets sy sm sw ey em ew))
                                ns) /\
        slept (fetch_events (map bucket_url (buckets sy sm sw ey em ew)) ns)
          = 2 * (gets (fetch_events
                         (map bucket_url (buckets sy sm sw ey em ew)) ns)
                 - len (buckets sy sm sw ey em ew))).
Proof.
  intros U K rp sy sm sw ey em ew w. rewrite get_content_urls_visits.
  apply visit_all_cost.
Qed.

Lemma len_flat_map {A B} (f : A -> list B) (l : list A) :
  len (flat_map f l) = Zsum (map (fun x => len (f x)) l).
Proof.
  unfold len, Zsum. induction l as [|x l IH]; cbn; [reflexivity|].
  rewrite length_app. lia.
Qed.

Lemma Zsum_app (l1 l2 : list Z) : Zsum (l1 ++ l2) = Zsum l1 + Zsum l2.
Proof.
  unfold Zsum. induction l1 as [|x l1 IH]; cbn; [reflexivity|].
  rewrite IH. lia.
Qed.

Lemma Zsum_range_first (g : Z -> Z) (a b : Z) :
  a < b ->
  Zsum (map g (Py.range a b)) = g a + Zsum (map g (Py.range (a + 1) b)).
Proof. intros H. now rewrite range_cons by exact H. Qed.

Lemma Zsum_range_const (g : Z -> Z) (c a b : Z) :
  a <= b -> (forall x, a <= x < b -> g x = c) ->
  Zsum (map g (Py.range a b)) = c * (b - a).
Proof.
  intros Hab. remember (Z.to_nat (b - a)) as n eqn:Hn.
  revert a Hab Hn. induction n as [|n IH]; intros a Hab Hn Hg.
  - assert (b = a) by lia. subst b. rewrite range_empty by lia. cbn. lia.
  - rewrite Zsum_range_first by lia. rewrite IH; try lia.
    + rewrite Hg by lia. lia.
    + intros x Hx. apply Hg. lia.
Qed.

Lemma Zsum_range_last (g : Z -> Z) (a b : Z) :
  a <= b ->
  Zsum (map g (Py.range a (b + 1))) = Zsum (map g (Py.range a b)) + g b.
Proof.
  intros Hab. remember (Z.to_nat (b - a)) as n eqn:Hn.
  revert a Hab Hn. induction n as [|n IH]; intros a Hab Hn.
  - assert (a = b) by lia. subst a.
    rewrite Zsum_range_first by lia. rewrite !range_empty by lia. cbn. lia.
  - rewrite Zsum_range_first by lia. rewrite IH by lia.
    rewrite (Zsum_range_first g a b) by lia. lia.
Qed.

Lemma weeks_len (ey em ew y m : Z) :
  1 <= ew <= 4 ->
  len (until_break (past_end ey em ew y m) (Py.range 1 5)) =
  if (y =? ey) && (m =? em) then ew else 4.
Proof.
  intros H. rewrite range_1_5. unfold past_end.
  destruct ((y =? ey) && (m =? em)); cbn [andb until_break]; [|reflexivity].
  assert (C : ew = 1 \/ ew = 2 \/ ew = 3 \/ ew = 4) by lia.
  destruct C as [-> | [-> | [-> | ->]]]; reflexivity.
Qed.

(** The buckets of one year, for months [a] to [b]. *)
Lemma months_len (ey em ew y a b : Z) :
  1 <= ew <= 4 -> a <= b + 1 ->
  len (flat_map (fun month =>
         map (fun week => (y, month, week))
             (until_break (past_end ey em ew y month) (Py.range 1 5)))
         (Py.range a (b + 1))) =
  if (y =? ey) && (a <=? em) && (em <=? b)
  then 4 * (b - a) + ew else 4 * (b + 1 - a).
Proof.
  intros Hew Hab. rewrite len_flat_map.
  rewrite (map_ext _ (fun month => if (y =? ey) && (month =? em)
                                   then ew else 4))
    by (intros month; unfold len; rewrite length_map;
        exact (weeks_len ey em ew y month Hew)).
  destruct (Z.eqb_spec y ey) as [Hy|Hy]; cbn [andb].
  - destruct (Z.leb_spec a em) as [Ha|Ha], (Z.leb_spec em b) as [Hb|Hb];
      cbn [andb].
    + (* the terminal month lies in the range: split the range around it *)
      assert (E : Py.range a (b + 1) =
                  Py.range a em ++ em :: Py.range (em + 1) (b + 1)).
      { clear Hew. remember (Z.to_nat (em - a)) as n eqn:Hn.
        revert a Ha Hab Hn. induction n as [|n IH]; intros a Ha Hab Hn.
        - assert (a = em) by lia. subst a.
          rewrite (range_empty em em) by lia. cbn [app].
          apply range_cons. lia.
        - rewrite (range_cons a (b + 1)) by lia.
          rewrite (range_cons a em) by lia. cbn [app]. f_equal.
          apply IH; lia. }
      rewrite E, map_app, Zsum_app. cbn [map].
      change (Zsum (?x :: ?l)) with (x + Zsum l). rewrite Z.eqb_refl.
      rewrite (Zsum_range_const _ 4 (em + 1) (b + 1));
        [|lia|intros x Hx; destruct (Z.eqb_spec x em); lia].
      rewrite (Zsum_range_const _ 4 a em);
        [|lia|intros x Hx; destruct (Z.eqb_spec x em); lia].
      lia.
    + rewrite (Zsum_range_const _ 4);
        [|lia|intros x Hx; destruct (Z.eqb_spec x em); lia].
      lia.
    + rewrite (Zsum_range_const _ 4);
        [|lia|intros x Hx; destruct (Z.eqb_spec x em); lia].
      lia.
    + rewrite (Zsum_range_const _ 4);
        [|lia|intros x Hx; destruct (Z.eqb_spec x em); lia].
      lia.
  - rewrite (Zsum_range_const _ 4); [lia|lia|reflexivity].
Qed.

(** X12. For months in 1..12, an end week in 1..4 and a start (year, month)
    not after the end (year, month), the enumeration visits four buckets
    for every month before the terminal one and [ew] buckets in the
    terminal month: [4 * (12 * (ey - sy) + (em - sm)) + ew] sitemap URLs in
    all. *)
Theorem buckets_count (sy sm sw ey em ew : Z) :
  1 <= sm <= 12 -> 1 <= em <= 12 -> 1 <= ew <= 4 ->
  sy < ey \/ (sy = ey /\ sm <= em) ->
  len (buckets sy sm sw ey em ew) = 4 * (12 * (ey - sy) + (em - sm)) + ew.
Proof.
  intros Hsm Hem Hew Hle. unfold buckets. rewrite len_flat_map. cbv zeta.
  rewrite (map_ext _ (fun y =>
             let a := if y =? sy then sm else 1 in
             let b := if y =? ey then em else 12 in
             if (y =? ey) && (a <=? em) && (em <=? b)
             then 4 * (b - a) + ew else 4 * (b + 1 - a))).
  2: { intros y. cbv zeta. apply months_len; [exact Hew|].
       destruct (Z.eqb_spec y sy), (Z.eqb_spec y ey); lia. }
  cbv zeta.
  destruct Hle as [Hlt|[-> Hmm]].
  - rewrite Zsum_range_last by lia. rewrite Zsum_range_first by lia.
    rewrite (Zsum_range_const _ 48 (sy + 1) ey); [|lia|].
    + rewrite (Z.eqb_refl sy), (Z.eqb_refl ey).
      destruct (Z.eqb_spec sy ey) as [E|_]; [lia|].
      destruct (Z.eqb_spec ey sy) as [E|_]; [lia|].
      cbn [andb]. rewrite Z.leb_refl.
      destruct (Z.leb_spec 1 em); [|lia]. cbn [andb]. lia.
    + intros x Hx. destruct (Z.eqb_spec x sy) as [E|_]; [lia|].
      destruct (Z.eqb_spec x ey) as [E|_]; [lia|]. reflexivity.
  - rewrite Zsum_range_first by lia. rewrite range_empty by lia.
    rewrite Z.eqb_refl. cbn [map Zsum fold_right].
    destruct (Z.leb_spec sm em); [|lia]. rewrite Z.leb_refl. cbn [andb]. lia.
Qed.

Lemma buckets_count_witness :
  len (buckets 2024 1 1 2025 4 4) = 4 * (12 * (2025 - 2024) + (4 - 1)) + 4.
Proof.
  apply buckets_count; lia.
Defined.

(** ** The enumeration and the verdicts of [rp] *)

Section VerdictFacts.
Context {U : Urllib} {K : Markup}.
Import Robotparser.

Lemma crawlable_of_const (rp : RobotFileParser) (c : bool)
      (urls : list (option string)) :
  (forall u, can_fetch rp "*" u = Val c) ->
  crawlable_of rp urls = Val (if c then urls else []).
Proof.
  intros H. induction urls as [|u urls IH]; cbn [crawlable_of].
  - now destruct c.
  - rewrite H, IH. now destruct c.
Qed.

Lemma crawlable_of_raises (rp : RobotFileParser) (urls : list (option string))
      (e : exn) :
  crawlable_of rp urls = Exc e ->
  exists u, In u urls /\ can_fetch rp "*" u = Exc e.
Proof.
  induction urls as [|u urls IH]; cbn [crawlable_of]; [discriminate|].
  destruct (can_fetch rp "*" u) as [keep|e'] eqn:C.
  - destruct (crawlable_of rp urls) as [rest|e'']; [discriminate|].
    intros [= ->]. destruct (IH eq_refl) as (u' & Hin & Hu').
    exists u'. split; [now right|exact Hu'].
  - intros [= ->]. exists u. split; [now left|exact C].
Qed.

Lemma can_fetch_raises (rp : RobotFileParser) (ua : string)
      (u : option string) (e : exn) :
  can_fetch rp ua u = Exc e ->
  (u = None /\ e = TypeError) \/
  (exists s, u = Some s /\ request_path s = Exc e).
Proof.
  unfold can_fetch.
  destruct (disallow_all rp); [discriminate|].
  destruct (allow_all rp); [discriminate|].
  destruct (negb (last_checked rp)); [discriminate|].
  destruct u as [s|].
  - destruct (request_path s) as [p|e'] eqn:R.
    + destruct (find _ (entries rp)); [discriminate|].
      destruct (default_entry rp); discriminate.
    + intros [= ->]. right. eauto.
  - intros [= <-]. now left.
Qed.

(** The loop stops with an exception only where [can_fetch] raised on a URL
    that a sitemap listed. *)
Lemma visit_all_raises (rp : RobotFileParser) (bs : list bucket) :
  forall st w e w',
    visit_all rp bs st w = (Exc e, w') ->
    exists b w1 urls w2 u,
      In b bs /\ bucket_urls (bucket_url b) w1 = (Val urls, w2) /\
      In u urls /\ can_fetch rp "*" u = Exc e.
Proof.
  induction bs as [|b bs IH]; intros [[m tc] ta] w e w'; cbn [visit_all].
  - discriminate.
  - unfold visit_bucket. unfold bind, lift, ret.
    destruct (bucket_urls_returns (bucket_url b) w) as (urls & w1 & B).
    rewrite B.
    destruct (crawlable_of rp urls) as [c|e'] eqn:C.
    + intros H. apply IH in H.
      destruct H as (b' & wa & urls' & wb & u & Hin & Hb & Hu & Hc).
      exists b', wa, urls', wb, u. split; [now right|auto].
    + intros [= -> <-].
      destruct (crawlable_of_raises rp urls e C) as (u & Hu & Hc).
      exists b, w, urls, w1, u. split; [now left|auto].
Qed.

(** With a parser that answers every query alike the loop always returns;
    it counts every listed URL as crawlable, or none. *)
Lemma visit_all_const (rp : RobotFileParser) (c : bool) (bs : list bucket) :
  (forall u, can_fetch rp "*" u = Val c) ->
  forall m0 tc0 ta0 w, exists m tc ta w',
    visit_all rp bs (m0, tc0, ta0) w = (Val (m, tc, ta), w') /\
    ta - ta0 = (if c then tc - tc0 else 0).
Proof.
  intros H. induction bs as [|b bs IH]; intros m0 tc0 ta0 w; cbn [visit_all].
  - exists m0, tc0, ta0, w. split; [reflexivity|]. destruct c; lia.
  - unfold visit_bucket. unfold bind, lift, ret.
    destruct (bucket_urls_returns (bucket_url b) w) as (urls & w1 & B).
    rewrite B, (crawlable_of_const rp c urls H).
    destruct (IH (dict_set (bucket_url b) (if c then urls else []) m0)
                 (tc0 + len urls) (ta0 + len (if c then urls else [])) w1)
      as (m & tc & ta & w' & E & T).
    exists m, tc, ta, w'. split; [exact E|].
    destruct c; [lia|]. change (len (@nil (option string))) with 0 in T. lia.
Qed.

(** The lists stored in a returned mapping hold allowed URLs only. *)
Lemma visit_all_allowed (rp : RobotFileParser) (bs : list bucket)
      (w w' : World) (m : dict (list (option string))) (tc ta : Z) :
  NoDup (map bucket_url bs) ->
  visit_all rp bs ([], 0, 0) w = (Val (m, tc, ta), w') ->
  len (all_urls m) = ta /\
  forall u, In u (all_urls m) -> can_fetch rp "*" u = Val true.
Proof.
  intros Hnd H. apply visit_all_entries in H; [|exact Hnd|intros b _ []].
  destruct H as (Hm & _ & Hta & _ & Hall). cbn [app] in Hm.
  rewrite Z.add_0_l in Hta. subst m. unfold all_urls.
  assert (F : forall l, flat_map snd (map entry_pair l) =
                        flat_map allowedURLs l).
  { induction l as [|x l IHl]; cbn; [reflexivity|]. now rewrite IHl. }
  rewrite F. split.
  - rewrite len_flat_map. now rewrite Hta.
  - intros u Hu. apply in_flat_map in Hu as (x & Hx & Hu).
    rewrite Forall_forall in Hall. specialize (Hall x Hx).
    apply crawlable_of_filter in Hall. rewrite Hall in Hu.
    apply filter_In in Hu as [_ Hu].
    destruct (can_fetch rp "*" u) as [[|]|]; congruence.
Qed.

Lemma visit_all_const_lists (rp : RobotFileParser) (bs : list bucket)
      (w w' : World) (m : dict (list (option string))) (tc ta : Z) :
  (forall u, can_fetch rp "*" u = Val false) ->
  NoDup (map bucket_url bs) ->
  visit_all rp bs ([], 0, 0) w = (Val (m, tc, ta), w') ->
  Forall (fun kv => snd kv = []) m.
Proof.
  intros Hc Hnd H. apply visit_all_entries in H; [|exact Hnd|intros b _ []].
  destruct H as (Hm & _ & _ & _ & Hall). cbn [app] in Hm. subst m.
  apply Forall_map. eapply Forall_impl; [|exact Hall].
  intros x Hx. cbv beta in Hx. unfold entry_pair. cbn [snd].
  rewrite (crawlable_of_const rp false (discoveredURLs x) Hc) in Hx.
  now injection Hx.
Qed.
End VerdictFacts.

(** X13. When the robots.txt request of line 20 is answered with status 401
    or 403, or with any other status outside 2xx and 4xx, the parser refuses
    every URL: each later enumeration returns with [total_crawlable = 0], one
    key per bucket and the empty list behind every key. *)
Theorem robots_refused_blocks_everything :
  forall (U : Urllib) (K : Markup) (w : World) (code : Z) (body : string),
    net w (log w) robots_url = Response code body ->
    ~ (200 <= code < 300) ->
    code = 401 \/ code = 403 \/ ~ (400 <= code < 500) ->
    exists rp w1,
      make_rp w = (Val rp, w1) /\
      (forall ua u, Robotparser.can_fetch rp ua u = Val false) /\
      forall sy sm sw ey em ew w2, exists m tc w3,
        get_content_urls rp sy sm sw ey em ew w2 = (Val (m, tc, 0), w3) /\
        map fst m = map bucket_url (buckets sy sm sw ey em ew) /\
        Forall (fun kv => snd kv = []) m.
Proof.
  intros U K w code body Hnet H2 Hc.
  assert (R : exists rp, make_rp w = (Val rp, record (EUrlopen robots_url) w) /\
                         forall ua u, Robotparser.can_fetch rp ua u = Val false).
  { unfold make_rp, Robotparser.read, Robotparser.urlopen.
    change (Robotparser.url (Robotparser.new robots_url)) with robots_url.
    rewrite Hnet.
    destruct ((200 <=? code) && (code <? 300)) eqn:E2.
    { apply andb_true_iff in E2 as [A B]. exfalso. apply H2. lia. }
    destruct ((code =? 401) || (code =? 403)) eqn:E4.
    - eexists. split; [reflexivity|]. intros ua u. reflexivity.
    - destruct ((code >=? 400) && (code <? 500)) eqn:E5.
      + apply andb_true_iff in E5 as [A B]. apply orb_false_iff in E4 as [C D].
        exfalso. rewrite Z.geb_le in A. lia.
      + eexists. split; [reflexivity|]. intros ua u. reflexivity. }
  destruct R as (rp & Hrp & Hcf). exists rp, (record (EUrlopen robots_url) w).
  split; [exact Hrp|]. split; [exact Hcf|].
  intros sy sm sw ey em ew w2.
  destruct (visit_all_const rp false (buckets sy sm sw ey em ew)
              (fun u => Hcf "*" u) [] 0 0 w2) as (m & tc & ta & w3 & E & T).
  assert (ta = 0) by lia. subst ta.
  exists m, tc, w3. rewrite get_content_urls_visits.
  split; [exact E|]. split.
  - apply (get_content_urls_keys rp sy sm sw ey em ew w2 w3 m tc 0).
    rewrite get_content_urls_visits. exact E.
  - eapply visit_all_const_lists; [exact (fun u => Hcf "*" u)| |exact E].
    apply bucket_urls_NoDup, buckets_NoDup.
Qed.

Lemma robots_refused_blocks_everything_witness :
  exists rp w1,
    make_rp (U := AsciiUrllib.ascii_urllib)
            (mkWorld (fun _ _ => Response 503 "") []) = (Val rp, w1) /\
    (forall ua u,
        Robotparser.can_fetch (U := AsciiUrllib.ascii_urllib) rp ua u
        = Val false) /\
    forall sy sm sw ey em ew w2, exists m tc w3,
      get_content_urls (U := AsciiUrllib.ascii_urllib)
                       (K := fixed_markup None None None)
                       rp sy sm sw ey em ew w2 = (Val (m, tc, 0), w3) /\
      map fst m = map bucket_url (buckets sy sm sw ey em ew) /\
      Forall (fun kv => snd kv = []) m.
Proof.
  apply (robots_refused_blocks_everything AsciiUrllib.ascii_urllib
           (fixed_markup None None None)
           (mkWorld (fun _ _ => Response 503 "") []) 503 "").
  - reflexivity.
  - lia.
  - right. right. lia.
Defined.

(** X14. When the robots.txt request of line 20 is answered with a 4xx
    status other than 401 and 403, the parser allows every URL: each later
    enumeration returns, also where a sitemap lists an element without
    text, and [total_crawlable] equals [total_checked]. *)
Theorem robots_missing_allows_everything :
  forall (U : Urllib) (K : Markup) (w : World) (code : Z) (body : string),
    net w (log w) robots_url = Response code body ->
    400 <= code < 500 -> code <> 401 -> code <> 403 ->
    exists rp w1,
      make_rp w = (Val rp, w1) /\
      (forall ua u, Robotparser.can_fetch rp ua u = Val true) /\
      forall sy sm sw ey em ew w2, exists m tc w3,
        get_content_urls rp sy sm sw ey em ew w2 = (Val (m, tc, tc), w3) /\
        len (all_urls m) = tc.
Proof.
  intros U K w code body Hnet H4 H401 H403.
  assert (R : exists rp, make_rp w = (Val rp, record (EUrlopen robots_url) w) /\
                         forall ua u, Robotparser.can_fetch rp ua u = Val true).
  { unfold make_rp, Robotparser.read, Robotparser.urlopen.
    change (Robotparser.url (Robotparser.new robots_url)) with robots_url.
    rewrite Hnet.
    destruct ((200 <=? code) && (code <? 300)) eqn:E2.
    { apply andb_true_iff in E2 as [A B]. lia. }
    destruct ((code =? 401) || (code =? 403)) eqn:E4.
    { apply orb_true_iff in E4 as [A|A]; lia. }
    destruct ((code >=? 400) && (code <? 500)) eqn:E5.
    - eexists. split; [reflexivity|]. intros ua u. reflexivity.
    - apply andb_false_iff in E5 as [A|A].
      + assert (B : (code >=? 400) = true) by (rewrite Z.geb_le; lia).
        congruence.
      + lia. }
  destruct R as (rp & Hrp & Hcf). exists rp, (record (EUrlopen robots_url) w).
  split; [exact Hrp|]. split; [exact Hcf|].
  intros sy sm sw ey em ew w2.
  destruct (visit_all_const rp true (buckets sy sm sw ey em ew)
              (fun u => Hcf "*" u) [] 0 0 w2) as (m & tc & ta & w3 & E & T).
  assert (ta = tc) by lia. subst ta.
  exists m, tc, w3. rewrite get_content_urls_visits.
  split; [exact E|].
  apply (visit_all_allowed rp (buckets sy sm sw ey em ew) w2 w3 m tc tc);
    [apply bucket_urls_NoDup, buckets_NoDup|exact E].
Qed.

Lemma robots_missing_allows_everything_witness :
  exists rp w1,
    make_rp (U := AsciiUrllib.ascii_urllib)
            (mkWorld (fun _ _ => Response 404 "") []) = (Val rp, w1) /\
    (forall ua u,
        Robotparser.can_fetch (U := AsciiUrllib.ascii_urllib) rp ua u
        = Val true) /\
    forall sy sm sw ey em ew w2, exists m tc w3,
      get_content_urls (U := AsciiUrllib.ascii_urllib)
                       (K := fixed_markup (Some [None]) None None)
                       rp sy sm sw ey em ew w2 = (Val (m, tc, tc), w3) /\
      len (all_urls m) = tc.
Proof.
  apply (robots_missing_allows_everything AsciiUrllib.ascii_urllib
           (fixed_markup (Some [None]) None None)
           (mkWorld (fun _ _ => Response 404 "") []) 404 "").
  - reflexivity.
  - lia.
  - lia.
  - lia.
Defined.

(** X15. A failing network never makes the enumeration raise: when
    [get_content_urls] raises, the exception is one that [rp.can_fetch]
    raised on a URL listed by the sitemap of one of the buckets, a TypeError
    for an element without text or the exception of the URL parser. *)
Theorem enumeration_raises_only_from_can_fetch :
  forall (U : Urllib) (K : Markup) rp sy sm sw ey em ew w e w',
    get_content_urls rp sy sm sw ey em ew w = (Exc e, w') ->
    exists b w1 urls w2 u,
      In b (buckets sy sm sw ey em ew) /\
      bucket_urls (bucket_url b) w1 = (Val urls, w2) /\
      In u urls /\
      Robotparser.can_fetch rp "*" u = Exc e /\
      ((u = None /\ e = TypeError) \/
       (exists s, u = Some s /\ Robotparser.request_path s = Exc e)).
Proof.
  intros U K rp sy sm sw ey em ew w e w' H.
  rewrite get_content_urls_visits in H.
  apply visit_all_raises in H.
  destruct H as (b & w1 & urls & w2 & u & Hb & Hu & Hin & Hc).
  exists b, w1, urls, w2, u.
  split; [exact Hb|]. split; [exact Hu|]. split; [exact Hin|].
  split; [exact Hc|]. exact (can_fetch_raises rp "*" u e Hc).
Qed.

Lemma enumeration_raises_only_from_can_fetch_witness :
  exists b w1 urls w2 u,
    In b (buckets 2024 1 1 2024 1 1) /\
    bucket_urls (K := fixed_markup
                        (Some [Some "https://www.bonappetit.com/recipe/a"; None])
                        None None)
                (bucket_url b) w1 = (Val urls, w2) /\
    In u urls /\
    Robotparser.can_fetch (U := AsciiUrllib.ascii_urllib) rp_private "*" u
      = Exc TypeError /\
    ((u = None /\ TypeError = TypeError) \/
     (exists s, u = Some s /\
                Robotparser.request_path (U := AsciiUrllib.ascii_urllib) s
                = Exc TypeError)).
Proof.
  apply (enumeration_raises_only_from_can_fetch AsciiUrllib.ascii_urllib
           (fixed_markup
              (Some [Some "https://www.bonappetit.com/recipe/a"; None])
              None None)
           rp_private 2024 1 1 2024 1 1 (mkWorld (net_serving "x") [])
           TypeError
           (mkWorld (net_serving "x") [EGet (bucket_url (2024, 1, 1))])).
  reflexivity.
Defined.

(** X16. The list [all_urls] that line 166 builds from a returned mapping,
    and hands to [extract_all_recipes], has [total_crawlable] elements, and
    [rp.can_fetch] answered True for every one of them. *)
Theorem all_urls_allowed :
  forall (U : Urllib) (K : Markup) rp sy sm sw ey em ew w m tc ta w',
    get_content_urls rp sy sm sw ey em ew w = (Val (m, tc, ta), w') ->
    len (all_urls m) = ta /\
    forall u, In u (all_urls m) -> Robotparser.can_fetch rp "*" u = Val true.
Proof.
  intros U K rp sy sm sw ey em ew w m tc ta w' H.
  rewrite get_content_urls_visits in H.
  apply (visit_all_allowed rp (buckets sy sm sw ey em ew) w w' m tc ta);
    [apply bucket_urls_NoDup, buckets_NoDup|exact H].
Qed.

Lemma all_urls_allowed_witness :
  len (all_urls [(bucket_url (2024, 1, 1),
                  [Some "https://www.bonappetit.com/recipe/a";
                   Some "https://www.bonappetit.com/story/e"])]) = 2 /\
  forall u,
    In u (all_urls [(bucket_url (2024, 1, 1),
                     [Some "https://www.bonappetit.com/recipe/a";
                      Some "https://www.bonappetit.com/story/e"])]) ->
    Robotparser.can_fetch (U := AsciiUrllib.ascii_urllib) rp_private "*" u
    = Val true.
Proof.
  apply (all_urls_allowed AsciiUrllib.ascii_urllib
           (fixed_markup (Some [Some "https://www.bonappetit.com/recipe/a";
                                Some "https://www.bonappetit.com/private/b";
                                Some "https://www.bonappetit.com/story/e"])
                         None None)
           rp_private 2024 1 1 2024 1 1 (mkWorld (net_serving "x") [])
           [(bucket_url (2024, 1, 1),
             [Some "https://www.bonappetit.com/recipe/a";
              Some "https://www.bonappetit.com/story/e"])] 3 2
           (mkWorld (net_serving "x") [EGet (bucket_url (2024, 1, 1))])).
  reflexivity.
Defined.

(** ** [extract_all_recipes] *)

Lemma subseq_nil_l {A} (l : list A) : subseq [] l.
Proof. induction l; constructor; assumption. Qed.

Lemma subseq_refl {A} (l : list A) : subseq l l.
Proof. induction l; constructor; assumption. Qed.

Lemma subseq_app {A} (a b c d : list A) :
  subseq a b -> subseq c d -> subseq (a ++ c) (b ++ d).
Proof. intros H1 H2. induction H1; cbn; [exact H2| |]; now constructor. Qed.

Section ExtractFacts.
Context {K : Markup}.

(** What one URL adds: itself to [js_heavy], or nothing, or one recipe with
    the URL as its link. *)
Lemma classify_one_shape (u : string) (w : World) :
  exists r j w',
    classify_one u ([], []) w = (Val (r, j), w') /\
    ((r = [] /\ j = [u]) \/
     (r = [] /\ j = [] /\ Py.contains "/recipe/" u = false) \/
     (j = [] /\ Py.contains "/recipe/" u = true /\
      exists t d, r = [mkRecipe t d u])).
Proof.
  rewrite classify_one_eq. unfold static_path, bind, lift, ret.
  destruct (fetch_url u w) as [[resp|e] w1]; cbn [fst snd app].
  2: { exists [], [u], w1. auto. }
  destruct (BeautifulSoup (content resp)) as [sp|e].
  2: { exists [], [u], w1. auto. }
  destruct (Py.contains "/recipe/" u) eqn:C.
  2: { exists [], [], w1. split; [reflexivity|]. right. left. auto. }
  destruct (select_one_text sp title_selector) as [t|e].
  2: { exists [], [u], w1. auto. }
  destruct (select_one_text sp desc_selector) as [d|e].
  2: { exists [], [u], w1. auto. }
  eexists _, [], w1. split; [reflexivity|]. right. right. cbn [app]. eauto.
Qed.

Lemma classify_one_world (u : string) (st : list recipe * list string)
      (w : World) :
  snd (classify_one u st w) = snd (fetch_url u w).
Proof.
  rewrite classify_one_eq. destruct st as [r0 j0].
  unfold static_path, bind, lift, ret.
  destruct (fetch_url u w) as [[resp|e] w1]; cbn [snd]; [|reflexivity].
  destruct (BeautifulSoup (content resp)) as [sp|e]; [|reflexivity].
  destruct (Py.contains "/recipe/" u); [|reflexivity].
  destruct (select_one_text sp title_selector) as [t|e]; [|reflexivity].
  destruct (select_one_text sp desc_selector) as [d|e]; reflexivity.
Qed.

Lemma fetch_events_only (urls : list string) :
  forall ns, only_fetches urls (fetch_events urls ns).
Proof.
  induction urls as [|u urls IH]; intros [|n ns]; cbn [fetch_events];
    try constructor.
  apply only_fetches_app.
  - eapply only_fetches_mono; [|apply attempt_events_only].
    intros x [<-|[]]. now left.
  - eapply only_fetches_mono; [|apply IH]. intros x Hx. now right.
Qed.

(** The loop fetches its URLs in their order, each in one to three
    attempts, and does nothing else. *)
Lemma classify_all_cost (urls : list string) :
  forall st w, exists ns,
    List.length ns = List.length urls /\
    Forall (fun n => (1 <= n <= 3)%nat) ns /\
    snd (classify_all urls st w)
      = mkWorld (net w) (log w ++ fetch_events urls ns) /\
    len urls <= gets (fetch_events urls ns) <= 3 * len urls /\
    slept (fetch_events urls ns) = 2 * (gets (fetch_events urls ns) - len urls).
Proof.
  induction urls as [|u urls IH]; intros st w.
  - exists []. cbn. rewrite app_nil_r. destruct w.
    split; [reflexivity|]. split; [constructor|]. split; [reflexivity|].
    split; lia.
  - rewrite classify_all_cons. unfold bind.
    pose proof (classify_one_world u st w) as Hw.
    destruct (fetch_url_attempts u w) as (n & Hn & E1 & G1 & S1 & _).
    rewrite E1 in Hw. destruct st as [r0 j0].
    destruct (classify_one_acc u r0 j0 w) as (r & j & w1 & _ & E).
    rewrite E in Hw |- *. cbn [snd] in Hw. subst w1.
    destruct (IH (r0 ++ r, j0 ++ j)
                 (mkWorld (net w)
                    (log w ++ attempt_events (wait_exponential 1 2 10) u n)))
      as (ns & L2 & F2 & E2 & G2 & S2).
    exists (n :: ns). rewrite E2. cbn [net log fetch_events List.length].
    rewrite <- app_assoc, gets_app, slept_app.
    unfold len in *. cbn [List.length].
    split; [lia|]. split; [now constructor|]. split; [reflexivity|].
    split; lia.
Qed.
End ExtractFacts.

(** X17. [extract_all_recipes] always returns; [js_heavy] is a sub-list of
    the input in the order of the input, the links of the recipes are a
    sub-list of the input URLs that contain ["/recipe/"], in order, and no
    more results are produced than URLs were given. *)
Theorem extract_all_recipes_sound :
  forall (K : Markup) (urls : list string) (w : World),
  exists recipes js_heavy w',
    extract_all_recipes urls w = (Val (recipes, js_heavy), w') /\
    subseq js_heavy urls /\
    subseq (map link recipes) (filter (Py.contains "/recipe/") urls) /\
    len recipes + len js_heavy <= len urls.
Proof.
  intros K urls. unfold extract_all_recipes.
  induction urls as [|u urls IH]; intros w.
  - exists [], [], w. cbn. split; [reflexivity|].
    split; [constructor|]. split; [constructor|]. lia.
  - rewrite classify_all_cons. unfold bind.
    destruct (classify_one_shape u w) as (ru & ju & w1 & E & Shape).
    rewrite E.
    destruct (classify_all_acc urls ru ju w1) as (r & j & w2 & F0 & F1).
    rewrite F1.
    destruct (IH w1) as (r' & j' & w2' & G & S1 & S2 & L).
    rewrite F0 in G. injection G as <- <- <-.
    exists (ru ++ r), (ju ++ j), w2. split; [reflexivity|].
    unfold len in *. cbn [List.length filter].
    destruct Shape as [(-> & ->) | [(-> & -> & C) | (-> & C & t & d & ->)]];
      cbn [app map link List.length].
    + split; [now constructor|]. split; [|lia].
      destruct (Py.contains "/recipe/" u); [now constructor|exact S2].
    + rewrite C. split; [now constructor|]. split; [exact S2|lia].
    + rewrite C. split; [now constructor|]. split; [now constructor|lia].
Qed.

(** X18. [extract_all_recipes] does nothing but fetch the URLs it is given,
    in their order: every URL of the input is requested in one to three
    attempts, with a sleep of two seconds between two attempts, before the
    next URL is requested. So it makes between one and three requests per
    URL and sleeps two seconds for every request beyond the first of a
    URL. *)
Theorem extract_all_recipes_cost :
  forall (K : Markup) (urls : list string) (w : World),
  exists ns,
    List.length ns = List.length urls /\
    Forall (fun n => (1 <= n <= 3)%nat) ns /\
    snd (extract_all_recipes urls w)
      = mkWorld (net w) (log w ++ fetch_events urls ns) /\
    only_fetches urls (fetch_events urls ns) /\
    len urls <= gets (fetch_events urls ns) <= 3 * len urls /\
    slept (fetch_events urls ns) = 2 * (gets (fetch_events urls ns) - len urls).
Proof.
  intros K urls w. unfold extract_all_recipes.
  destruct (classify_all_cost urls ([], []) w) as (ns & L & F & E & G & S).
  exists ns. split; [exact L|]. split; [exact F|]. split; [exact E|].
  split; [apply fetch_events_only|]. split; assumption.
Qed.

(** ** [check_open_apis] *)

Lemma for_each_cons {X S} (x : X) (xs : list X) (body : X -> S -> M (flow S))
      (s : S) (w : World) :
  for_each (x :: xs) body s w =
  match body x s w with
  | (Val (Next s'), w') => for_each xs body s' w'
  | (Val (Break s'), w') => (Val s', w')
  | (Exc e, w') => (Exc e, w')
  end.
Proof.
  cbn [for_each]. unfold bind, ret.
  destruct (body x s w) as [[[s'|s']|e] w']; reflexivity.
Qed.

(** Lines 123-127: one iteration of the loop of [check_open_apis]. *)
Lemma probe_body_eq (f : string) (a0 : list string) (w : World) :
  (available <- try_except (fetch_url f ;;; ret (a0 ++ [f])) (ret a0) ;;
   ret (Next available)) w =
  match fetch_url f w with
  | (Val _, w1) => (Val (Next (a0 ++ [f])), w1)
  | (Exc _, w1) => (Val (Next a0), w1)
  end.
Proof.
  unfold bind, try_except, ret.
  destruct (fetch_url f w) as [[resp|e] w1]; reflexivity.
Qed.

(** The loop from a list [a0] on appends to [a0] what it appends to the
    empty list, and never raises. *)
Lemma probe_feeds_from (fs : list string) :
  forall a0 w, exists r w',
    for_each fs (fun f available =>
      available <- try_except (fetch_url f ;;; ret (available ++ [f]))
                              (ret available) ;;
      ret (Next available)) a0 w = (Val (a0 ++ r), w') /\
    probe_feeds fs w = (Val r, w').
Proof.
  unfold probe_feeds.
  induction fs as [|f fs IH]; intros a0 w.
  - exists [], w. cbn. now rewrite app_nil_r.
  - rewrite !for_each_cons. cbv beta. rewrite !probe_body_eq.
    destruct (fetch_url f w) as [[resp|e] w1].
    + destruct (IH (a0 ++ [f]) w1) as (r & w' & E & E0).
      destruct (IH ([] ++ [f]) w1) as (r0 & w0 & F & F0).
      rewrite F0 in E0. injection E0 as <- <-.
      exists (f :: r0), w0. rewrite E, F, <- app_assoc. auto.
    + destruct (IH a0 w1) as (r & w' & E & E0).
      destruct (IH [] w1) as (r0 & w0 & F & F0).
      rewrite F0 in E0. injection E0 as <- <-.
      exists r0, w0. rewrite E, F. auto.
Qed.

Lemma probe_feeds_cons (f : string) (fs : list string) (w : World) :
  exists r w1 a w2,
    fetch_url f w = (r, w1) /\
    probe_feeds fs w1 = (Val a, w2) /\
    probe_feeds (f :: fs) w = (Val (listed f r ++ a), w2).
Proof.
  assert (E : probe_feeds (f :: fs) w =
              match fetch_url f w with
              | (Val _, w1) =>
                  match probe_feeds fs w1 with
                  | (Val a, w2) => (Val (f :: a), w2)
                  | (Exc e, w2) => (Exc e, w2)
                  end
              | (Exc _, w1) => probe_feeds fs w1
              end).
  { unfold probe_feeds at 1. rewrite for_each_cons. cbv beta.
    rewrite probe_body_eq.
    destruct (fetch_url f w) as [[resp|e] w1]; [|reflexivity].
    destruct (probe_feeds_from fs ([] ++ [f]) w1) as (a & w2 & F & F0).
    rewrite F, F0. reflexivity. }
  rewrite E.
  destruct (fetch_url f w) as [[resp|e] w1].
  - destruct (probe_feeds_from fs [] w1) as (a & w2 & _ & F0).
    exists (Val resp), w1, a, w2. rewrite F0. auto.
  - destruct (probe_feeds_from fs [] w1) as (a & w2 & _ & F0).
    exists (Exc e), w1, a, w2. rewrite F0. auto.
Qed.

(** X19. [check_open_apis], for any list of candidate feeds: it never
    raises, the feeds it returns are a sub-list of the candidates in their
    order, and it does nothing but fetch the candidates in their order:
    every candidate is requested in one to three attempts, with a sleep of
    two seconds between two attempts, before the next one is requested. *)
Theorem probe_feeds_sound (fs : list string) (w : World) :
  exists available ns,
    List.length ns = List.length fs /\
    Forall (fun n => (1 <= n <= 3)%nat) ns /\
    probe_feeds fs w
      = (Val available, mkWorld (net w) (log w ++ fetch_events fs ns)) /\
    subseq available fs /\
    only_fetches fs (fetch_events fs ns) /\
    len fs <= gets (fetch_events fs ns) <= 3 * len fs.
Proof.
  revert w. induction fs as [|f fs IH]; intros w.
  - exists [], []. cbn. rewrite app_nil_r. destruct w.
    split; [reflexivity|]. split; [constructor|]. split; [reflexivity|].
    split; [constructor|]. split; [constructor|lia].
  - destruct (probe_feeds_cons f fs w) as (r & w1 & a & w2 & F & P & E).
    destruct (fetch_url_attempts f w) as (n & Hn & E1 & G1 & _ & _).
    rewrite F in E1. cbn [snd] in E1. subst w1.
    destruct (IH (mkWorld (net w)
                    (log w ++ attempt_events (wait_exponential 1 2 10) f n)))
      as (a' & ns & L & Fa & P' & S & _ & G2).
    rewrite P' in P. injection P as <- <-. cbn [net log].
    exists (listed f r ++ a'), (n :: ns).
    cbn [fetch_events List.length].
    rewrite E, <- app_assoc, gets_app. unfold len in *. cbn [List.length].
    split; [lia|]. split; [now constructor|]. split; [reflexivity|].
    split; [|split; [|lia]].
    + destruct r; cbn; now constructor.
    + apply (fetch_events_only (f :: fs) (n :: ns)).
Qed.

(** X20. A candidate feed is listed by [check_open_apis] exactly when its
    [fetch_url] returns in the world that the candidates before it left: the
    result is what the earlier candidates gave, then the feed or nothing,
    then what the later candidates give. *)
Theorem probe_feeds_split (fs1 fs2 : list string) (f : string) (w : World) :
  exists a1 w1 r w2 a2 w3,
    probe_feeds fs1 w = (Val a1, w1) /\
    fetch_url f w1 = (r, w2) /\
    probe_feeds fs2 w2 = (Val a2, w3) /\
    probe_feeds (fs1 ++ f :: fs2) w = (Val (a1 ++ listed f r ++ a2), w3).
Proof.
  revert w. induction fs1 as [|x fs1 IH]; intros w.
  - destruct (probe_feeds_cons f fs2 w) as (r & w1 & a & w2 & F & P & E).
    exists [], w, r, w1, a, w2. cbn [app]. auto.
  - destruct (probe_feeds_cons x fs1 w) as (rx & wx & ax & wx' & Fx & Px & Ex).
    destruct (probe_feeds_cons x (fs1 ++ f :: fs2) w)
      as (rx' & wy & ay & wy' & Fy & Py & Ey).
    rewrite Fx in Fy. injection Fy as <- <-.
    destruct (IH wx) as (a1 & w1 & r & w2 & a2 & w3 & A & B & C & D).
    rewrite A in Px. injection Px as <- <-.
    rewrite D in Py. injection Py as <- <-.
    exists (listed x rx ++ a1), w1, r, w2, a2, w3.
    cbn [app]. rewrite Ex, Ey, <- app_assoc. auto.
Qed.

(** ** [StreamlitLogHandler] *)

Lemma string_app_assoc (a b c : string) :
  ((a ++ b) ++ c = a ++ (b ++ c))%string.
Proof. induction a as [|x a IH]; cbn; [reflexivity|]. now rewrite IH. Qed.

Lemma string_app_nil_r (s : string) : (s ++ "")%string = s.
Proof. induction s as [|x a IH]; cbn; [reflexivity|]. now rewrite IH. Qed.

Lemma line_app (msg t : string) :
  ((msg ++ String "010"%char "") ++ t)%string
  = (msg ++ String "010"%char t)%string.
Proof. rewrite string_app_assoc. reflexivity. Qed.

Lemma emit_from (msgs : list string) :
  forall h,
    log_content (fold_left emit msgs h)
      = (log_content h ++ log_text msgs)%string /\
    displayed (fold_left emit msgs h)
      = displayed h ++
        map (fun n => (log_content h ++ log_text (firstn n msgs))%string)
            (seq 1 (List.length msgs)).
Proof.
  induction msgs as [|msg msgs IH]; intros h.
  - cbn. now rewrite string_app_nil_r, app_nil_r.
  - cbn [fold_left]. destruct (IH (emit h msg)) as [L D]. rewrite L, D.
    unfold emit. cbn [log_content displayed List.length].
    change (log_text (msg :: msgs))
      with (msg ++ String "010"%char (log_text msgs))%string.
    split.
    + now rewrite string_app_assoc, line_app.
    + rewrite <- app_assoc. f_equal.
      change (seq 1 (S (List.length msgs)))
        with (1%nat :: seq 2 (List.length msgs)).
      cbn [map app firstn]. apply (f_equal2 cons).
      * change (log_text [msg]) with (msg ++ String "010"%char "")%string.
        reflexivity.
      * rewrite <- (seq_shift (List.length msgs) 1), map_map.
        apply map_ext. intros n.
        cbn [firstn].
        change (log_text (msg :: firstn n msgs))
          with (msg ++ String "010"%char (log_text (firstn n msgs)))%string.
        now rewrite string_app_assoc, line_app.
Qed.

(** X21. After any sequence of log records the handler holds the text of
    all of them, one per line and in order, and the placeholder was
    handed, record after record, the text of the first one, two, three ...
    records: it always shows the whole log so far. *)
Theorem emit_shows_whole_log (msgs : list string) :
  log_content (fold_left emit msgs new_handler) = log_text msgs /\
  displayed (fold_left emit msgs new_handler)
    = map (fun n => log_text (firstn n msgs)) (seq 1 (List.length msgs)).
Proof.
  destruct (emit_from msgs new_handler) as [L D]. split; assumption.
Qed.

(** ** Rules that no User-agent line precedes *)

Section UngroupedRules.
Context {U : Urllib}.
Import Robotparser.

(** Outside a group a line that is no User-agent line adds no rule: it
    leaves the groups, the flags and the state alone. *)
Lemma parse_line_ungrouped (st : parse_state) (line : string) :
  ps_state st = 0 ->
  is_user_agent_line line = false ->
  exists st',
    parse_line st line = Val st' /\
    ps_state st' = 0 /\
    entries (ps_rp st') = entries (ps_rp st) /\
    default_entry (ps_rp st') = default_entry (ps_rp st) /\
    disallow_all (ps_rp st') = disallow_all (ps_rp st) /\
    allow_all (ps_rp st') = allow_all (ps_rp st) /\
    last_checked (ps_rp st') = last_checked (ps_rp st).
Proof.
  intros H0 Hua. unfold parse_line. rewrite H0.
  change (0 =? 1) with false. change (0 =? 2) with false.
  change (0 =? 0) with true. cbn [negb].
  assert (Same : exists st', Val st = Val st' /\
            ps_state st' = 0 /\
            entries (ps_rp st') = entries (ps_rp st) /\
            default_entry (ps_rp st') = default_entry (ps_rp st) /\
            disallow_all (ps_rp st') = disallow_all (ps_rp st) /\
            allow_all (ps_rp st') = allow_all (ps_rp st) /\
            last_checked (ps_rp st') = last_checked (ps_rp st))
    by (exists st; auto 10).
  assert (E : (if String.eqb line "" then st else st) = st)
    by now destruct (String.eqb line "").
  rewrite E. rewrite H0.
  destruct (String.eqb (Py.strip (Py.before "#" line)) ""); [exact Same|].
  unfold is_user_agent_line in Hua.
  destruct (Py.split1 ":" (Py.strip (Py.before "#" line))) as [[l0 l1]|];
    [|exact Same].
  rewrite Hua.
  destruct (String.eqb (Py.lower (Py.strip l0)) "disallow"); [exact Same|].
  destruct (String.eqb (Py.lower (Py.strip l0)) "allow"); [exact Same|].
  destruct (String.eqb (Py.lower (Py.strip l0)) "crawl-delay"); [exact Same|].
  destruct (String.eqb (Py.lower (Py.strip l0)) "request-rate"); [exact Same|].
  destruct (String.eqb (Py.lower (Py.strip l0)) "sitemap"); [|exact Same].
  eexists. split; [reflexivity|]. cbn. auto 10.
Qed.

Lemma parse_lines_ungrouped (lines : list string) :
  forall st,
    ps_state st = 0 ->
    forallb (fun line => negb (is_user_agent_line line)) lines = true ->
    exists st',
      parse_lines st lines = Val st' /\
      ps_state st' = 0 /\
      entries (ps_rp st') = entries (ps_rp st) /\
      default_entry (ps_rp st') = default_entry (ps_rp st) /\
      disallow_all (ps_rp st') = disallow_all (ps_rp st) /\
      allow_all (ps_rp st') = allow_all (ps_rp st) /\
      last_checked (ps_rp st') = last_checked (ps_rp st).
Proof.
  induction lines as [|line lines IH]; intros st H0 Hall.
  - exists st. cbn. auto 10.
  - cbn [forallb] in Hall. apply andb_true_iff in Hall as [Hl Hall].
    apply negb_true_iff in Hl.
    destruct (parse_line_ungrouped st line H0 Hl)
      as (st1 & E & S1 & A1 & B1 & C1 & D1 & F1).
    destruct (IH st1 S1 Hall) as (st2 & E2 & S2 & A2 & B2 & C2 & D2 & F2).
    exists st2. cbn [parse_lines]. rewrite E.
    split; [exact E2|]. split; [exact S2|].
    split; [congruence|]. split; [congruence|]. split; [congruence|].
    split; congruence.
Qed.
End UngroupedRules.

(** X22. A robots.txt without any User-agent line gives a parser without
    rules, whatever Allow and Disallow lines it holds: parsing does not
    raise, and [can_fetch] answers True for every agent and every URL that
    the URL parser accepts. *)
Theorem rules_without_user_agent_allow :
  forall (U : Urllib) (robots : string) (lines : list string),
    forallb (fun line => negb (is_user_agent_line line)) lines = true ->
    exists rp,
      Robotparser.parse (Robotparser.new robots) lines = Val rp /\
      forall ua s p,
        Robotparser.request_path s = Val p ->
        Robotparser.can_fetch rp ua (Some s) = Val true.
Proof.
  intros U robots lines H. unfold Robotparser.parse.
  destruct (parse_lines_ungrouped lines
              (Robotparser.mkParseState
                 (Robotparser.modified (Robotparser.new robots)) 0
                 Robotparser.empty_entry) eq_refl H)
    as (st & E & S & A & B & C & D & F).
  rewrite E, S. change (0 =? 2) with false. cbv iota.
  exists (Robotparser.ps_rp st). split; [reflexivity|].
  intros ua s p Hp. unfold Robotparser.can_fetch.
  rewrite C, D, F, A, B, Hp. reflexivity.
Qed.

Lemma rules_without_user_agent_allow_witness :
  exists rp,
    Robotparser.parse (U := AsciiUrllib.ascii_urllib)
      (Robotparser.new robots_url)
      ["Disallow: /private/"; "# no group"; "Sitemap: https://x/s.xml"]
    = Val rp /\
    forall ua s p,
      Robotparser.request_path (U := AsciiUrllib.ascii_urllib) s = Val p ->
      Robotparser.can_fetch (U := AsciiUrllib.ascii_urllib) rp ua (Some s)
      = Val true.
Proof.
  apply (rules_without_user_agent_allow AsciiUrllib.ascii_urllib robots_url
           ["Disallow: /private/"; "# no group"; "Sitemap: https://x/s.xml"]).
  reflexivity.
Defined.

(** ** The start of the script *)

Section StartupFacts.
Context {U : Urllib}.
Import Robotparser.

(** [rp.read()] raises where the download itself fails (a status outside
    2xx is not a failure for it) or where the parser rejects the body. *)
Lemma read_raises (rp : RobotFileParser) (w w' : World) (e : exn) :
  read rp w = (Exc e, w') ->
  (net w (log w) (url rp) = NoResponse /\ e = URLError) \/
  (net w (log w) (url rp) = ClientCrash /\ e = OtherError) \/
  (exists status body,
      net w (log w) (url rp) = Response status body /\
      200 <= status < 300 /\
      parse rp (Py.splitlines body) = Exc e).
Proof.
  unfold read, urlopen.
  destruct (net w (log w) (url rp)) as [|status body|].
  - intros [= <- _]. now left.
  - destruct ((200 <=? status) && (status <? 300)) eqn:E2.
    + intros [= H _]. right. right. exists status, body.
      apply andb_true_iff in E2 as [A B].
      split; [reflexivity|]. split; [lia|exact H].
    + destruct ((status =? 401) || (status =? 403)); [discriminate|].
      destruct ((status >=? 400) && (status <? 500)); discriminate.
  - intros [= <- _]. right. now left.
Qed.
End StartupFacts.

(** X23. The start of the script (lines 20 and 135) can fail in two places
    only. Either [rp.read()] raises, after a single download attempt that is
    not retried: no response, a crash of the client, or a 2xx body that the
    parser rejects. Or [rp] was built and the [fetch_url] of
    [get_robots_summary] raises. An error status of robots.txt alone does
    not stop line 20. *)
Theorem startup_raises :
  forall (U : Urllib) (w w' : World) (e : exn),
    startup w = (Exc e, w') ->
    (w' = record (EUrlopen robots_url) w /\
     ((net w (log w) robots_url = NoResponse /\ e = URLError) \/
      (net w (log w) robots_url = ClientCrash /\ e = OtherError) \/
      (exists status body,
          net w (log w) robots_url = Response status body /\
          200 <= status < 300 /\
          Robotparser.parse (Robotparser.new robots_url) (Py.splitlines body)
          = Exc e)))
    \/
    (exists rp,
        make_rp w = (Val rp, record (EUrlopen robots_url) w) /\
        fetch_url robots_url (record (EUrlopen robots_url) w) = (Exc e, w')).
Proof.
  intros U w w' e. unfold startup, bind.
  pose proof (read_world (Robotparser.new robots_url) w) as Hw.
  change (Robotparser.url (Robotparser.new robots_url)) with robots_url in Hw.
  fold make_rp in Hw.
  destruct (make_rp w) as [[rp|e0] w1] eqn:R; cbn [snd] in Hw; subst w1.
  - rewrite get_robots_summary_eq.
    pose proof (read_url _ _ _ _ R) as Hu.
    change (Robotparser.url (Robotparser.new robots_url)) with robots_url in Hu.
    rewrite Hu.
    destruct (fetch_url robots_url (record (EUrlopen robots_url) w))
      as [[resp|e1] w2]; [discriminate|].
    intros [= -> ->]. right. exists rp. split; reflexivity.
  - intros [= -> <-]. left. split; [reflexivity|].
    exact (read_raises (Robotparser.new robots_url) w _ e R).
Qed.

Lemma startup_raises_witness :
  (mkWorld net_down [EUrlopen robots_url]
   = record (EUrlopen robots_url) (mkWorld net_down []) /\
   ((net_down [] robots_url = NoResponse /\ URLError = URLError) \/
    (net_down [] robots_url = ClientCrash /\ URLError = OtherError) \/
    (exists status body,
        net_down [] robots_url = Response status body /\
        200 <= status < 300 /\
        Robotparser.parse (U := AsciiUrllib.ascii_urllib)
          (Robotparser.new robots_url) (Py.splitlines body)
        = Exc URLError)))
  \/
  (exists rp,
      make_rp (U := AsciiUrllib.ascii_urllib) (mkWorld net_down [])
      = (Val rp, record (EUrlopen robots_url) (mkWorld net_down [])) /\
      fetch_url robots_url (record (EUrlopen robots_url) (mkWorld net_down []))
      = (Exc URLError, mkWorld net_down [EUrlopen robots_url])).
Proof.
  apply (startup_raises AsciiUrllib.ascii_urllib (mkWorld net_down [])
           (mkWorld net_down [EUrlopen robots_url]) URLError).
  reflexivity.
Defined.

(** X24. Distinct buckets have distinct sitemap URLs, so the assignment of
    line 97 never replaces an entry: a returned mapping has no key twice and
    exactly one key per enumerated bucket. *)
Theorem sitemap_keys_distinct :
  forall (U : Urllib) (K : Markup) rp sy sm sw ey em ew w m tc ta w',
    get_content_urls rp sy sm sw ey em ew w = (Val (m, tc, ta), w') ->
    NoDup (map fst m) /\ len m = len (buckets sy sm sw ey em ew).
Proof.
  intros U K rp sy sm sw ey em ew w m tc ta w' H.
  apply get_content_urls_keys in H. split.
  - rewrite H. apply bucket_urls_NoDup, buckets_NoDup.
  - unfold len. f_equal.
    rewrite <- (length_map fst m), H. apply length_map.
Qed.

Lemma sitemap_keys_distinct_witness :
  NoDup (map fst [(bucket_url (2024, 3, 1),
                   [Some "https://www.bonappetit.com/recipe/a"]);
                  (bucket_url (2024, 3, 2),
                   [Some "https://www.bonappetit.com/recipe/a"])]) /\
  len [(bucket_url (2024, 3, 1), [Some "https://www.bonappetit.com/recipe/a"]);
       (bucket_url (2024, 3, 2), [Some "https://www.bonappetit.com/recipe/a"])]
  = len (buckets 2024 3 1 2024 3 2).
Proof.
  apply (sitemap_keys_distinct AsciiUrllib.ascii_urllib
           (fixed_markup (Some [Some "https://www.bonappetit.com/recipe/a"])
                         None None)
           rp_private 2024 3 1 2024 3 2 (mkWorld (net_serving "x") [])
           _ 2 2
           (mkWorld (net_serving "x")
              [EGet (bucket_url (2024, 3, 1)); EGet (bucket_url (2024, 3, 2))])).
  reflexivity.
Defined.
